(** * arbrobot: depth/VWAP primitive, fee model, scanners and alert dedup.

    A shallow embedding of the detection core of the arbitrage bot
    ([src/depth.py], [src/models.py], [src/config.py], [src/fees.py],
    [src/registry.py], [src/engine.py], [src/tri_engine.py],
    [src/alert.py]) and the properties its specification states.

    Conventions of the embedding.
    - In the scanners, the fee model and the alert path Python floats are
      exact rationals ([Q]); rounding, infinities and NaN are outside that
      model.  Results that the code computes by a float expression are
      compared with [==] ([Qeq]).  Division is the one of [Q]; the
      properties that depend on a quotient assume the positive prices of a
      valid book, so no divisor is zero there.
    - [calculate_vwap] is embedded a second time over the binary64 numbers
      of the kernel ([Float64]), each numpy operation with its rounding;
      what is stated of the fill it reports is stated there.
    - [datetime] values are integers counting microseconds ([Z]), the
      resolution of [datetime] and [timedelta].
    - Python [dict]s read by key are [gmap]s; dicts whose iteration order is
      observable ([os.environ], the market table of a venue) are association
      lists in insertion order.
    - Strings are ASCII strings. *)

From Stdlib Require Import QArith Qround Qabs Lqa Lia List Sorted Permutation
  Ascii.
From Stdlib Require PrimFloat FloatOps SpecFloat.
From stdpp Require Import gmap strings list fin_maps pretty.

Open Scope Q_scope.

(** ** Runtime: state passing, the clock, Python string operations *)

Module Runtime.

(** Code that mutates an object or reads the clock is a state transformer. *)
Definition St (T A : Type) : Type := T -> A * T.

#[global] Instance St_ret {T} : MRet (St T) := fun A a s => (a, s).
#[global] Instance St_bind {T} : MBind (St T) :=
  fun A B f m s => let '(a, s') := m s in f a s'.

Definition get {T} : St T T := fun s => (s, s).
Definition put {T} (s : T) : St T unit := fun _ => (tt, s).

(** One second, in the unit of [datetime] values. *)
Definition seconds (n : Z) : Z := (n * 1000000)%Z.

(** The successive values [datetime.utcnow()] returns: reading number [i]
    yields [clock i].  A computation that reads the clock carries, next to
    the object it works on, the number of readings made so far. *)
Definition Clock := nat -> Z.

Definition utcnow {T} (clock : Clock) : St (T * nat) Z :=
  fun '(s, i) => (clock i, (s, S i)).

(** Run a transformer of the object, leaving the clock alone. *)
Definition on_object {T A} (m : St T A) : St (T * nat) A :=
  fun '(s, i) => let '(a, s') := m s in (a, (s', i)).

(** Read the object. *)
Definition self_ {T} : St (T * nat) T := on_object get.

(** [str.lower()] and [str.upper()] on ASCII. *)
Definition ascii_lower (c : ascii) : ascii :=
  let n := Ascii.N_of_ascii c in
  if ((65 <=? n) && (n <=? 90))%N then Ascii.ascii_of_N (n + 32) else c.

Definition ascii_upper (c : ascii) : ascii :=
  let n := Ascii.N_of_ascii c in
  if ((97 <=? n) && (n <=? 122))%N then Ascii.ascii_of_N (n - 32) else c.

Fixpoint str_map (f : ascii -> ascii) (s : string) : string :=
  match s with
  | EmptyString => EmptyString
  | String c t => String (f c) (str_map f t)
  end.

Definition lower : string -> string := str_map ascii_lower.
Definition upper : string -> string := str_map ascii_upper.

(** [sub in s]. *)
Fixpoint contains (sub s : string) : bool :=
  String.prefix sub s ||
  match s with
  | EmptyString => false
  | String _ t => contains sub t
  end.

(** [s.split(sep)] for a one-character separator: the pieces between the
    separators, at least one piece. *)
Fixpoint split_on (sep : ascii) (s : string) : list string :=
  match s with
  | EmptyString => [EmptyString]
  | String c t =>
      if Ascii.eqb c sep then EmptyString :: split_on sep t
      else match split_on sep t with
           | [] => [String c EmptyString]
           | p :: ps => String c p :: ps
           end
  end.

(** [sep.join(parts)]. *)
Fixpoint join (sep : string) (parts : list string) : string :=
  match parts with
  | [] => EmptyString
  | [p] => p
  | p :: ps => p +:+ sep +:+ join sep ps
  end.

(** A name made of characters other than the underscore and the upper-case
    ASCII letters, such as the venue identifiers [binance] or [gateio]. *)
Definition plain_char (c : ascii) : bool :=
  negb (Ascii.eqb c "_") &&
  negb (let n := Ascii.N_of_ascii c in ((65 <=? n) && (n <=? 90))%N).

Fixpoint plain_name (s : string) : bool :=
  match s with
  | EmptyString => true
  | String c t => plain_char c && plain_name t
  end.

(** Truth value of a string: non-empty. *)
Definition str_truthy (s : string) : bool := negb (String.eqb s "").

(** [int(x)] of a float: truncation toward zero. *)
Definition py_int (x : Q) : Z := Z.quot (Qnum x) (Zpos (Qden x)).

(** [str(n)] of an integer. *)
Definition py_str_int (n : Z) : string := pretty n.

(** A reader of plain decimal literals ([digits] or [digits.digits]); the
    part of Python's [float(...)] syntax the examples use. *)
Definition digit_of (c : ascii) : option Z :=
  let n := Ascii.N_of_ascii c in
  if ((48 <=? n) && (n <=? 57))%N then Some (Z.of_N (n - 48)) else None.

Fixpoint read_digits (s : string) (acc : Z) (scale : positive)
    : option (Z * positive * string) :=
  match s with
  | EmptyString => Some (acc, scale, EmptyString)
  | String c t =>
      match digit_of c with
      | Some d => read_digits t (10 * acc + d)%Z (10 * scale)%positive
      | None => Some (acc, scale, s)
      end
  end.

Definition decimal_literal (s : string) : option Q :=
  match s with
  | EmptyString => None
  | String c _ =>
      match digit_of c with
      | None => None
      | Some _ =>
          match read_digits s 0 1 with
          | Some (ip, _, EmptyString) => Some (ip # 1)
          | Some (ip, _, String "." frac) =>
              match frac with
              | EmptyString => None
              | String _ _ =>
                  match read_digits frac 0 1 with
                  | Some (fp, sc, EmptyString) => Some ((ip # 1) + (fp # sc))
                  | _ => None
                  end
              end
          | _ => None
          end
      end
  end.

(** A [for] loop that threads an accumulator through a stateful body. *)
Fixpoint for_each {T A B} (body : B -> A -> St T B) (items : list A) (acc : B)
    : St T B :=
  match items with
  | [] => mret acc
  | item :: rest => acc' ← body acc item; for_each body rest acc'
  end.

(** [d[k] = v] on a dict, which keeps its keys in insertion order: an
    existing key keeps its place. *)
Fixpoint dict_set {V} (k : string) (v : V) (d : list (string * V))
    : list (string * V) :=
  match d with
  | [] => [(k, v)]
  | (k', v') :: rest =>
      if String.eqb k' k then (k', v) :: rest
      else (k', v') :: dict_set k v rest
  end.

(** The string contains no underscore. *)
Fixpoint underscore_free (s : string) : bool :=
  match s with
  | EmptyString => true
  | String c t => negb (Ascii.eqb c "_") && underscore_free t
  end.

(** [d.get(k)] on a dict kept as the list of its items. *)
Fixpoint dict_get {V} (k : string) (d : list (string * V)) : option V :=
  match d with
  | [] => None
  | (k', v) :: rest => if String.eqb k' k then Some v else dict_get k rest
  end.

End Runtime.

(** ** models.py *)

Module Models.

Record MarketMeta := mkMarketMeta {
  mm_symbol : string;
  mm_base : string;
  mm_quote : string;
  mm_active : bool;
  mm_price_precision : Z;
  mm_amount_precision : Z;
  mm_min_amount : option Q;
  mm_min_notional : option Q;
  mm_exchange : string
}.

Record DepthLevel := mkDepthLevel {
  price : Q;
  amount : Q
}.

Record OrderBook := mkOrderBook {
  ob_symbol : string;
  ob_exchange : string;
  bids : list DepthLevel;
  asks : list DepthLevel;
  ob_timestamp : Z;
  nonce : option Z
}.

(** [Literal["public", "default", "env"]]. *)
Inductive FeeSource := SrcPublic | SrcDefault | SrcEnv.

Record FeesPublic := mkFeesPublic {
  maker : Q;
  taker : Q;
  source : FeeSource;
  fp_exchange : string;
  symbol_specific : gmap string (Q * Q)
}.

(** [FeesPublic.get_fees]: the symbol's own (maker, taker) pair when the
    symbol is given and listed, the venue's pair otherwise. *)
Definition fp_get_fees (self : FeesPublic) (symbol : option string) : Q * Q :=
  match symbol with
  | Some s =>
      if Runtime.str_truthy s then
        match symbol_specific self !! s with
        | Some fees => fees
        | None => (maker self, taker self)
        end
      else (maker self, taker self)
  | None => (maker self, taker self)
  end.

(** [Literal["ws", "rest"]]. *)
Inductive Mode := ModeWs | ModeRest.

(** [Literal["buy", "sell"]]. *)
Inductive Side := Buy | Sell.

Record Opportunity := mkOpportunity {
  op_symbol : string;
  buy_exchange : string;
  sell_exchange : string;
  buy_price_before_fees : Q;
  sell_price_before_fees : Q;
  buy_price_after_fees : Q;
  sell_price_after_fees : Q;
  spread_bps : Q;
  op_notional : Q;
  buy_depth_levels : nat;
  sell_depth_levels : nat;
  buy_fees : Q * Q;
  sell_fees : Q * Q;
  op_timestamp : Z;
  mode : Mode
}.

(** [Opportunity.dedupe_key]. *)
Definition dedupe_key (self : Opportunity) : string :=
  "CROSS_" +:+ buy_exchange self +:+ "_" +:+ sell_exchange self +:+ "_"
  +:+ op_symbol self +:+ "_"
  +:+ Runtime.py_str_int (Runtime.py_int (op_notional self)).

Record TriOpportunity := mkTriOpportunity {
  tri_exchange : string;
  base_asset : string;
  path : string * string * string;
  start_amount : Q;
  end_amount : Q;
  gain_bps : Q;
  tri_notional : Q;
  leg1_symbol : string;
  leg1_price : Q;
  leg1_side : Side;
  leg2_symbol : string;
  leg2_price : Q;
  leg2_side : Side;
  leg3_symbol : string;
  leg3_price : Q;
  leg3_side : Side;
  tri_fees : Q * Q;
  tri_timestamp : Z
}.

(** The tuple [self.path] as the sequence [join] walks. *)
Definition path_items (p : string * string * string) : list string :=
  let '(a, b, c) := p in [a; b; c].

(** [TriOpportunity.dedupe_key]. *)
Definition tri_dedupe_key (self : TriOpportunity) : string :=
  let path_str := Runtime.join "_" (path_items (path self)) in
  "TRI_" +:+ tri_exchange self +:+ "_" +:+ path_str +:+ "_"
  +:+ Runtime.py_str_int (Runtime.py_int (tri_notional self)).

Record VWAPResult := mkVWAPResult {
  vwap_price : Q;
  total_volume : Q;
  levels_used : nat;
  fully_filled : bool
}.

End Models.

(** ** depth.py *)

Module Depth.
Import Models.

(** The numpy arrays of [calculate_vwap] are lists of floats; an index taken
    from [np.where] is always in range.  The arithmetic of this module is
    exact; [Float64] embeds the same function with the rounding of
    binary64. *)

(** [np.cumsum]: running sums, left to right. *)
Fixpoint cumsum_from (acc : Q) (l : list Q) : list Q :=
  match l with
  | [] => []
  | x :: t => (acc + x) :: cumsum_from (acc + x) t
  end.

Definition cumsum (l : list Q) : list Q :=
  match l with
  | [] => []
  | x :: t => x :: cumsum_from x t
  end.

(** [np.sum]. *)
Definition np_sum (l : list Q) : Q := fold_right Qplus 0 l.

(** Elementwise product of two arrays. *)
Fixpoint np_mul (a b : list Q) : list Q :=
  match a, b with
  | x :: a', y :: b' => (x * y) :: np_mul a' b'
  | _, _ => []
  end.

(** [np.where(arr >= target)[0]]: the indices whose entry reaches the target,
    in increasing order. *)
Fixpoint where_ge_from (i : nat) (arr : list Q) (target : Q) : list nat :=
  match arr with
  | [] => []
  | c :: t =>
      if Qle_bool target c then i :: where_ge_from (S i) t target
      else where_ge_from (S i) t target
  end.

Definition where_ge (arr : list Q) (target : Q) : list nat :=
  where_ge_from 0 arr target.

(** [x > 0] on floats. *)
Definition Qpos_bool (x : Q) : bool := negb (Qle_bool x 0).

(** Array indexing [arr[i]] in range. *)
Definition at_ (arr : list Q) (i : nat) : Q := nth i arr 0.

(** [arr[-1]]. *)
Definition at_last (arr : list Q) : Q := List.last arr 0.

Definition calculate_vwap (levels : list DepthLevel) (target_notional : Q)
    (side : string) : VWAPResult :=
  match levels with
  | [] => mkVWAPResult 0 0 0 false
  | _ :: _ =>
    if Qle_bool target_notional 0 then mkVWAPResult 0 0 0 false
    else
      let prices := map price levels in
      let amounts := map amount levels in
      let notionals := np_mul prices amounts in
      let cumulative_notionals := cumsum notionals in
      let cumulative_amounts := cumsum amounts in
      let fill_indices := where_ge cumulative_notionals target_notional in
      match fill_indices with
      | [] =>
          let total_notional := at_last cumulative_notionals in
          let total_amount := at_last cumulative_amounts in
          let vwap :=
            if Qpos_bool total_amount then total_notional / total_amount
            else 0 in
          mkVWAPResult vwap total_amount (length levels) false
      | fill_index :: _ =>
          if Nat.eqb fill_index 0 then
            let price := at_ prices 0 in
            let amount_needed := target_notional / price in
            mkVWAPResult price amount_needed 1 true
          else
            let full_levels_notional :=
              at_ cumulative_notionals (fill_index - 1) in
            let remaining_notional := target_notional - full_levels_notional in
            let last_level_price := at_ prices fill_index in
            let partial_amount := remaining_notional / last_level_price in
            let total_amount_filled :=
              at_ cumulative_amounts (fill_index - 1) + partial_amount in
            let total_weighted :=
              if Nat.ltb 0 fill_index then
                let full_levels_weighted :=
                  np_sum (np_mul (firstn fill_index prices)
                                 (firstn fill_index amounts)) in
                let partial_weighted := last_level_price * partial_amount in
                full_levels_weighted + partial_weighted
              else last_level_price * partial_amount in
            let vwap :=
              if Qpos_bool total_amount_filled
              then total_weighted / total_amount_filled else 0 in
            mkVWAPResult vwap total_amount_filled (fill_index + 1) true
      end
  end.

(** Predicates on a side of a book, used to state the properties: every level
    has a positive price and amount; prices ascend; the notional the side
    holds; the price of level [i]. *)
Definition valid_levels (levels : list DepthLevel) : Prop :=
  Forall (fun l => 0 < price l /\ 0 < amount l) levels.

Definition ascending (levels : list DepthLevel) : Prop :=
  Sorted (fun a b => price a <= price b) levels.

Definition book_notional (levels : list DepthLevel) : Q :=
  np_sum (map (fun l => price l * amount l) levels).

Definition price_at (levels : list DepthLevel) (i : nat) : Q :=
  at_ (map price levels) i.

Definition calculate_buy_vwap (asks : list DepthLevel) (target_notional : Q)
    : VWAPResult :=
  calculate_vwap asks target_notional "buy".

Definition calculate_sell_vwap (bids : list DepthLevel) (target_notional : Q)
    : VWAPResult :=
  calculate_vwap bids target_notional "sell".

(** [get_effective_price_after_fees]: the VWAP with the fee added for a buy
    and taken off for any other side; zero when the fill is partial or the
    price is not positive. *)
Definition get_effective_price_after_fees (vwap_result : VWAPResult)
    (fee_rate : Q) (side : string) : Q :=
  if negb (fully_filled vwap_result) || Qle_bool (vwap_price vwap_result) 0
  then 0
  else if String.eqb side "buy"
       then vwap_price vwap_result * (1 + fee_rate)
       else vwap_price vwap_result * (1 - fee_rate).

(** Prices descend, as on the bid side of a book. *)
Definition descending (levels : list DepthLevel) : Prop :=
  Sorted (fun a b => price b <= price a) levels.

(** The amount a side holds. *)
Definition book_amount (levels : list DepthLevel) : Q :=
  np_sum (map amount levels).

(** The shape of a full fill [r] of the target [N]: the first [k] levels are
    taken whole and level [k] in part. *)
Record fill_shape (levels : list DepthLevel) (N : Q) (r : VWAPResult) (k : nat)
    : Prop := {
  shape_filled : fully_filled r = true;
  shape_index : (k < length levels)%nat;
  shape_used : levels_used r = S k;
  shape_below : book_notional (firstn k levels) < N;
  shape_reached : N <= book_notional (firstn (S k) levels);
  shape_volume :
    total_volume r
    == book_amount (firstn k levels)
       + (N - book_notional (firstn k levels)) / price_at levels k;
  shape_spent : vwap_price r * total_volume r == N
}.

End Depth.

(** ** The VWAP primitive over binary64 ([depth.py])

    numpy computes [calculate_vwap] on [float64] arrays.  This module embeds
    the same function over the binary64 numbers of the kernel, operation by
    operation, for the properties whose truth depends on rounding. *)

Module Float64.
Import PrimFloat.

Record DepthLevel := mkDepthLevel {
  price : float;
  amount : float
}.

Record VWAPResult := mkVWAPResult {
  vwap_price : float;
  total_volume : float;
  levels_used : nat;
  fully_filled : bool
}.

(** [np.cumsum]: running sums, left to right, each one rounded. *)
Fixpoint cumsum_from (acc : float) (l : list float) : list float :=
  match l with
  | [] => []
  | x :: t => (acc + x)%float :: cumsum_from (acc + x)%float t
  end.

Definition cumsum (l : list float) : list float :=
  match l with
  | [] => []
  | x :: t => x :: cumsum_from x t
  end.

(** Elementwise product and sum of two arrays. *)
Fixpoint np_mul (a b : list float) : list float :=
  match a, b with
  | x :: a', y :: b' => (x * y)%float :: np_mul a' b'
  | _, _ => []
  end.

Fixpoint np_add (a b : list float) : list float :=
  match a, b with
  | x :: a', y :: b' => (x + y)%float :: np_add a' b'
  | _, _ => []
  end.

(** [np.sum] of a [float64] array is numpy's pairwise summation: fewer than
    eight elements are added left to right; up to 128 elements are added
    into eight running sums, which are combined in pairs, and the elements
    past the last full block of eight are added one by one; a longer array
    is split in two.  (The sign of a sum that is zero is not followed.) *)
Definition left_sum (acc : float) (l : list float) : float :=
  fold_left PrimFloat.add l acc.

Fixpoint add_blocks (blocks : nat) (r l : list float)
    : list float * list float :=
  match blocks with
  | O => (r, l)
  | S k => add_blocks k (np_add r (firstn 8 l)) (skipn 8 l)
  end.

Definition block_sum (l : list float) : float :=
  let '(r, rest) :=
    add_blocks (length l / 8 - 1) (firstn 8 l) (skipn 8 l) in
  match r with
  | [r0; r1; r2; r3; r4; r5; r6; r7] =>
      left_sum (((r0 + r1) + (r2 + r3)) + ((r4 + r5) + (r6 + r7)))%float rest
  | _ => left_sum 0%float l
  end.

Fixpoint pairwise_sum (depth : nat) (l : list float) : float :=
  let n := length l in
  if (n <? 8)%nat then left_sum 0%float l
  else if (n <=? 128)%nat then block_sum l
  else
    match depth with
    | O => block_sum l
    | S d =>
        let n2 := (n / 2 - (n / 2) mod 8)%nat in
        (pairwise_sum d (firstn n2 l) + pairwise_sum d (skipn n2 l))%float
    end.

Definition np_sum (l : list float) : float := pairwise_sum (length l) l.

(** [np.where(arr >= target)[0]]. *)
Fixpoint where_ge_from (i : nat) (arr : list float) (target : float)
    : list nat :=
  match arr with
  | [] => []
  | c :: t =>
      if (target <=? c)%float then i :: where_ge_from (S i) t target
      else where_ge_from (S i) t target
  end.

Definition where_ge (arr : list float) (target : float) : list nat :=
  where_ge_from 0 arr target.

(** Array indexing [arr[i]] in range, and [arr[-1]]. *)
Definition at_ (arr : list float) (i : nat) : float := nth i arr 0%float.

Definition at_last (arr : list float) : float := List.last arr 0%float.

Definition calculate_vwap (levels : list DepthLevel) (target_notional : float)
    (side : string) : VWAPResult :=
  match levels with
  | [] => mkVWAPResult 0 0 0 false
  | _ :: _ =>
    if (target_notional <=? 0)%float then mkVWAPResult 0 0 0 false
    else
      let prices := map price levels in
      let amounts := map amount levels in
      let notionals := np_mul prices amounts in
      let cumulative_notionals := cumsum notionals in
      let cumulative_amounts := cumsum amounts in
      let fill_indices := where_ge cumulative_notionals target_notional in
      match fill_indices with
      | [] =>
          let total_notional := at_last cumulative_notionals in
          let total_amount := at_last cumulative_amounts in
          let vwap :=
            if (0 <? total_amount)%float
            then (total_notional / total_amount)%float
            else 0%float in
          mkVWAPResult vwap total_amount (length levels) false
      | fill_index :: _ =>
          if Nat.eqb fill_index 0 then
            let price := at_ prices 0 in
            let amount_needed := (target_notional / price)%float in
            mkVWAPResult price amount_needed 1 true
          else
            let full_levels_notional :=
              at_ cumulative_notionals (fill_index - 1) in
            let remaining_notional :=
              (target_notional - full_levels_notional)%float in
            let last_level_price := at_ prices fill_index in
            let partial_amount :=
              (remaining_notional / last_level_price)%float in
            let total_amount_filled :=
              (at_ cumulative_amounts (fill_index - 1) + partial_amount)%float in
            let total_weighted :=
              if Nat.ltb 0 fill_index then
                let full_levels_weighted :=
                  np_sum (np_mul (firstn fill_index prices)
                                 (firstn fill_index amounts)) in
                let partial_weighted :=
                  (last_level_price * partial_amount)%float in
                (full_levels_weighted + partial_weighted)%float
              else (last_level_price * partial_amount)%float in
            let vwap :=
              if (0 <? total_amount_filled)%float
              then (total_weighted / total_amount_filled)%float
              else 0%float in
            mkVWAPResult vwap total_amount_filled (fill_index + 1) true
      end
  end.

Definition calculate_buy_vwap (asks : list DepthLevel)
    (target_notional : float) : VWAPResult :=
  calculate_vwap asks target_notional "buy".

Definition calculate_sell_vwap (bids : list DepthLevel)
    (target_notional : float) : VWAPResult :=
  calculate_vwap bids target_notional "sell".

(** The running notional of a side, as [calculate_vwap] computes it, and the
    fact that it reaches the target at level [i] (counted from zero). *)
Definition cumulative_notionals (levels : list DepthLevel) : list float :=
  cumsum (np_mul (map price levels) (map amount levels)).


(** The rational a finite binary64 number is; zero for the others. *)
Definition exact (x : float) : Q :=
  match FloatOps.Prim2SF x with
  | SpecFloat.S754_finite s m e =>
      (if s then -1 else 1) * inject_Z (Zpos m) * Qpower 2 e
  | _ => 0
  end.


End Float64.

(** ** config.py *)

Module Config.

(** The settings the detectors read, as loaded from the environment. *)
Record Config := mkConfig {
  MIN_SPREAD_BPS : Q;
  MIN_TRI_GAIN_BPS : Q;
  MIN_NOTIONAL : Q;
  TRI_BASES : list string;
  TRI_EXCLUDE_QUOTES : list string
}.

Section Overrides.

(** [float(value)]: [None] stands for [ValueError]. *)
Variable py_float : string -> option Q.

(** One round of the loop of [get_fee_overrides] over [os.environ.items()]:
    a name that contains one of the two markers and splits into at least
    three parts addresses the venue [parts[0].lower()] and the fee kind
    [parts[1].lower()]. *)
Definition override_step (overrides : gmap string (gmap string Q))
    (kv : string * string) : gmap string (gmap string Q) :=
  let '(key, value) := kv in
  if Runtime.contains "_TAKER_FEE" key || Runtime.contains "_MAKER_FEE" key
  then
    let parts := Runtime.split_on "_" key in
    if (3 <=? length parts)%nat then
      let exchange := Runtime.lower (nth 0 parts EmptyString) in
      let fee_type := Runtime.lower (nth 1 parts EmptyString) in
      let overrides1 :=
        match overrides !! exchange with
        | Some _ => overrides
        | None => <[exchange := ∅]> overrides
        end in
      match py_float value with
      | Some v =>
          <[exchange := <[fee_type := v]> (default ∅ (overrides1 !! exchange))]>
            overrides1
      | None => overrides1
      end
    else overrides
  else overrides.

Definition get_fee_overrides (environ : list (string * string))
    : gmap string (gmap string Q) :=
  fold_left override_step environ ∅.

End Overrides.

(** The override table holds the value [q] for the venue [V] and the fee
    kind [kk]. *)
Definition holds (overrides : gmap string (gmap string Q)) (V kk : string)
    (q : Q) : Prop :=
  exists m, overrides !! V = Some m /\ m !! kk = Some q.

(** The venue and fee kind an environment variable name addresses in
    [override_step], if any. *)
Definition override_target (key : string) : option (string * string) :=
  if Runtime.contains "_TAKER_FEE" key || Runtime.contains "_MAKER_FEE" key
  then
    let parts := Runtime.split_on "_" key in
    if (3 <=? length parts)%nat
    then Some (Runtime.lower (nth 0 parts EmptyString),
               Runtime.lower (nth 1 parts EmptyString))
    else None
  else None.

End Config.

(** ** registry.py *)

Module Registry.
Import Models.

(** What [d.get(key, default)] finds for a fee entry of a ccxt table: the
    key is missing, or it is there with the value [None], as it is where
    ccxt does not know the fee, or it is there with a number. *)
Inductive FeeEntry :=
  | Missing
  | Null
  | Rate (rate : Q).

(** What the code reads of a ccxt exchange object: the [fees['trading']]
    table when it is there and non-empty, with its [maker] and [taker]
    entries, and the same two entries of each raw market. *)
Record CcxtExchange := mkCcxtExchange {
  trading_fees : option (FeeEntry * FeeEntry);
  ccxt_markets : gmap string (FeeEntry * FeeEntry)
}.

Record ExchangeRegistry := mkExchangeRegistry {
  exchanges : gmap string CcxtExchange;
  markets : gmap string (list (string * MarketMeta))
}.

Definition get_exchange (self : ExchangeRegistry) (exchange_name : string)
    : option CcxtExchange :=
  exchanges self !! exchange_name.

Definition get_markets (self : ExchangeRegistry) (exchange_name : string)
    : list (string * MarketMeta) :=
  default [] (markets self !! exchange_name).

(** [d[k].append(v)], creating the list when [k] is new. *)
Definition append_to (k v : string) (d : gmap string (list string))
    : gmap string (list string) :=
  <[k := default [] (d !! k) ++ [v]]> d.

(** The loop that groups the active markets by base and by quote. *)
Definition group_step (exclude_quotes : gset string)
    (acc : gmap string (list string) * gmap string (list string))
    (item : string * MarketMeta)
    : gmap string (list string) * gmap string (list string) :=
  let '(symbols_by_base, symbols_by_quote) := acc in
  let market := snd item in
  if negb (mm_active market) then acc
  else
    let base := mm_base market in
    let quote := mm_quote market in
    if bool_decide (quote ∈ exclude_quotes) then acc
    else (append_to base quote symbols_by_base,
          append_to quote base symbols_by_quote).

Definition get_triangular_symbols (self : ExchangeRegistry)
    (TRI_EXCLUDE_QUOTES : list string)
    (exchange_name : string) (base_assets : list string)
    : list (string * string * string) :=
  match markets self !! exchange_name with
  | None => []
  | Some markets =>
    let exclude_quotes : gset string := list_to_set TRI_EXCLUDE_QUOTES in
    let '(symbols_by_base, symbols_by_quote) :=
      fold_left (group_step exclude_quotes) markets (∅, ∅) in
    flat_map (fun base =>
      match symbols_by_base !! base with
      | None => []
      | Some reachable_from_base =>
        flat_map (fun asset2 =>
          if String.eqb asset2 base then []
          else if bool_decide (asset2 ∈ exclude_quotes) then []
          else
            match symbols_by_base !! asset2 with
            | None => []
            | Some reachable_from_asset2 =>
              flat_map (fun asset3 =>
                if String.eqb asset3 base || String.eqb asset3 asset2 then []
                else if bool_decide (asset3 ∈ exclude_quotes) then []
                else
                  match symbols_by_quote !! asset3 with
                  | Some bases =>
                      if bool_decide (base ∈ bases)
                      then [(base, asset2, asset3)] else []
                  | None => []
                  end) reachable_from_asset2
            end) reachable_from_base
      end) base_assets
  end.

(** The venue lists an active market with the given base and quote. *)
Definition offers (markets : list (string * MarketMeta)) (base quote : string)
    : Prop :=
  exists item, In item markets /\ mm_active (snd item) = true /\
               mm_base (snd item) = base /\ mm_quote (snd item) = quote.

(** Every pair the grouping loop has recorded comes from an active market
    of the venue. *)
Definition grouped_from (all : list (string * MarketMeta))
    (acc : gmap string (list string) * gmap string (list string)) : Prop :=
  (forall b l q, acc.1 !! b = Some l -> In q l -> offers all b q) /\
  (forall q l b, acc.2 !! q = Some l -> In b l -> offers all b q).

(** A hop [from_asset -> to_asset] can be traded on the venue: it lists the
    direct market [from_asset/to_asset] or the inverse one. *)
Definition enables_hop (markets : list (string * MarketMeta))
    (from_asset to_asset : string) : Prop :=
  offers markets from_asset to_asset \/ offers markets to_asset from_asset.

(** The grouping loop has recorded the market [base/quote] in both of its
    tables. *)
Definition recorded
    (acc : gmap string (list string) * gmap string (list string))
    (base quote : string) : Prop :=
  (exists l, acc.1 !! base = Some l /\ In quote l) /\
  (exists l, acc.2 !! quote = Some l /\ In base l).

(** [get_common_symbols]: one count per active market of each venue, then
    the symbols whose count reaches [min_exchanges]. A venue's markets are
    a dict, so [markets[symbol]] is the value the key comes with. *)
Definition count_step (symbol_counts : gmap string Z)
    (item : string * MarketMeta) : gmap string Z :=
  let symbol := fst item in
  if mm_active (snd item)
  then <[symbol := (default 0 (symbol_counts !! symbol) + 1)%Z]> symbol_counts
  else symbol_counts.

Definition count_symbols (entries : list (string * list (string * MarketMeta)))
    (symbol_counts : gmap string Z) : gmap string Z :=
  fold_left (fun acc (entry : string * list (string * MarketMeta)) =>
               fold_left count_step (snd entry) acc)
            entries symbol_counts.

Definition get_common_symbols (self : ExchangeRegistry) (min_exchanges : Z)
    : gset string :=
  let symbol_counts := count_symbols (map_to_list (markets self)) ∅ in
  dom (filter (fun sc : string * Z => (min_exchanges <= sc.2)%Z) symbol_counts).

(** The venue's markets list the symbol as active. *)
Definition is_listing (symbol : string) (item : string * MarketMeta) : bool :=
  String.eqb (fst item) symbol && mm_active (snd item).

Definition lists_active (ms : list (string * MarketMeta)) (symbol : string)
    : bool :=
  existsb (is_listing symbol) ms.

(** The number of venues of the registry that list the symbol as active. *)
Definition venues_listing (self : ExchangeRegistry) (symbol : string) : nat :=
  length (List.filter
            (fun entry : string * list (string * MarketMeta) =>
               lists_active (snd entry) symbol)
            (map_to_list (markets self))).

(** Each venue's market table has one entry per symbol, as a dict has. *)
Definition unique_symbols (self : ExchangeRegistry) : Prop :=
  forall venue ms, markets self !! venue = Some ms -> NoDup (map fst ms).

(** Every count of the table is at least one. *)
Definition counts_positive (symbol_counts : gmap string Z) : Prop :=
  forall s c, symbol_counts !! s = Some c -> (1 <= c)%Z.

End Registry.

(** ** fees.py *)

Module Fees.
Import Models Runtime.

(** [self.default_fees]. *)
Definition default_maker : Q := 0.0008.
Definition default_taker : Q := 0.0015.

(** [self.known_fees]: venue name to (maker, taker). *)
Definition known_fees : gmap string (Q * Q) :=
  list_to_map
    [("binance", (0.0002, 0.0005)); ("okx", (0.0008, 0.0010));
     ("bybit", (0.0001, 0.0006)); ("coinbase", (0.0040, 0.0060));
     ("kraken", (0.0016, 0.0026)); ("kucoin", (0.0008, 0.0010));
     ("gateio", (0.0015, 0.0020)); ("huobi", (0.0015, 0.0020));
     ("bitfinex", (0.0010, 0.0020)); ("mexc", (0.0000, 0.0020))].

(** The attributes of a [FeeManager] that change or depend on the
    environment. *)
Record FeeManager := mkFeeManager {
  fee_cache : gmap string FeesPublic;
  env_overrides : gmap string (gmap string Q)
}.

(** [FeeManager.__init__] under the environment [environ]. *)
Definition init (py_float : string -> option Q)
    (environ : list (string * string)) : FeeManager :=
  mkFeeManager ∅ (Config.get_fee_overrides py_float environ).

Definition _get_fallback_fees (exchange_name : string) : FeesPublic :=
  match known_fees !! exchange_name with
  | Some known =>
      mkFeesPublic (fst known) (snd known) SrcDefault exchange_name ∅
  | None =>
      mkFeesPublic default_maker default_taker SrcDefault exchange_name ∅
  end.

(** [entry.get(key, default)]: the result [None] is Python's [None]. *)
Definition entry_get (entry : Registry.FeeEntry) (default : option Q)
    : option Q :=
  match entry with
  | Registry.Missing => default
  | Registry.Null => None
  | Registry.Rate rate => Some rate
  end.

(** [a != b] on two values that are floats or [None]. *)
Definition differs (a b : option Q) : bool :=
  match a, b with
  | Some x, Some y => negb (Qeq_bool x y)
  | None, None => false
  | _, _ => true
  end.

(** The loop of [_fetch_public_fees] that collects the markets whose own fees
    differ from the venue's. *)
Definition symbol_fee_step (exchange : Registry.CcxtExchange)
    (maker taker : option Q)
    (symbol_specific : gmap string (option Q * option Q))
    (item : string * MarketMeta) : gmap string (option Q * option Q) :=
  let symbol := fst item in
  match Registry.ccxt_markets exchange !! symbol with
  | Some (market_maker, market_taker) =>
      let symbol_maker := entry_get market_maker maker in
      let symbol_taker := entry_get market_taker taker in
      if differs symbol_maker maker || differs symbol_taker taker
      then <[symbol := (symbol_maker, symbol_taker)]> symbol_specific
      else symbol_specific
  | None => symbol_specific
  end.

(** The validation the model [FeesPublic] runs when it is built: [maker] and
    [taker] must be floats, and so must both members of every pair of
    [symbol_specific].  [None] stands for the [ValidationError]. *)
Definition validated_pair (fees : option Q * option Q) : option (Q * Q) :=
  match fees with
  | (Some symbol_maker, Some symbol_taker) => Some (symbol_maker, symbol_taker)
  | _ => None
  end.

Definition new_FeesPublic (maker taker : option Q) (source : FeeSource)
    (exchange : string) (symbol_specific : gmap string (option Q * option Q))
    : option FeesPublic :=
  match maker, taker with
  | Some maker, Some taker =>
      let validated := omap validated_pair symbol_specific in
      if bool_decide (dom validated = dom symbol_specific)
      then Some (mkFeesPublic maker taker source exchange validated)
      else None
  | _, _ => None
  end.

(** [_fetch_public_fees]; an exception raised under its [try] leads to the
    fallback fees. *)
Definition _fetch_public_fees (registry : Registry.ExchangeRegistry)
    (exchange_name : string) : FeesPublic :=
  match Registry.get_exchange registry exchange_name with
  | None => _get_fallback_fees exchange_name
  | Some exchange =>
      match Registry.trading_fees exchange with
      | Some (fee_maker, fee_taker) =>
          let maker := entry_get fee_maker (Some default_maker) in
          let taker := entry_get fee_taker (Some default_taker) in
          let markets := Registry.get_markets registry exchange_name in
          let symbol_specific :=
            fold_left (symbol_fee_step exchange maker taker) markets ∅ in
          match new_FeesPublic maker taker SrcPublic exchange_name
                  symbol_specific with
          | Some fees => fees
          | None => _get_fallback_fees exchange_name
          end
      | None => _get_fallback_fees exchange_name
      end
  end.

(** The two kinds of fee an environment variable can override: the marker
    its name carries, the key of the override table, and the field of the
    fee record. *)
Inductive FeeKind := Taker | Maker.

Definition kind_marker (k : FeeKind) : string :=
  match k with Taker => "_TAKER_FEE" | Maker => "_MAKER_FEE" end.

Definition kind_key (k : FeeKind) : string :=
  match k with Taker => "taker" | Maker => "maker" end.

Definition kind_fee (k : FeeKind) (fees : FeesPublic) : Q :=
  match k with Taker => taker fees | Maker => maker fees end.

(** [fees.maker = v; fees.source = 'env'] and its taker twin. *)
Definition set_maker (v : Q) (fees : FeesPublic) : FeesPublic :=
  mkFeesPublic v (taker fees) SrcEnv (fp_exchange fees) (symbol_specific fees).

Definition set_taker (v : Q) (fees : FeesPublic) : FeesPublic :=
  mkFeesPublic (maker fees) v SrcEnv (fp_exchange fees) (symbol_specific fees).

(** [symbol or 'default']. *)
Definition symbol_or_default (symbol : option string) : string :=
  match symbol with
  | Some s => if str_truthy s then s else "default"
  | None => "default"
  end.

(** [FeeManager.get_fees]: the cached record when there is one, else the
    fetched record with the environment overrides applied, which is cached. *)
Definition get_fees (registry : Registry.ExchangeRegistry)
    (exchange_name : string) (symbol : option string)
    : St FeeManager FeesPublic :=
  fun self =>
  let cache_key := exchange_name +:+ "_" +:+ symbol_or_default symbol in
  match fee_cache self !! cache_key with
  | Some cached => (cached, self)
  | None =>
      let fees := _fetch_public_fees registry exchange_name in
      let fees :=
        match env_overrides self !! exchange_name with
        | Some overrides =>
            let fees :=
              match overrides !! "maker" with
              | Some v => set_maker v fees
              | None => fees
              end in
            match overrides !! "taker" with
            | Some v => set_taker v fees
            | None => fees
            end
        | None => fees
        end in
      (fees, mkFeeManager (<[cache_key := fees]> (fee_cache self))
                          (env_overrides self))
  end.

(** What the loop of [_fetch_public_fees] reads for a symbol from the raw
    markets of the exchange: the pair of its fees, each the venue's where
    the entry is missing and [None] where the entry is [None]. *)
Definition market_own_fees (exchange : Registry.CcxtExchange)
    (maker taker : option Q) (symbol : string)
    : option (option Q * option Q) :=
  match Registry.ccxt_markets exchange !! symbol with
  | Some (market_maker, market_taker) =>
      Some (entry_get market_maker maker, entry_get market_taker taker)
  | None => None
  end.

(** The rate of an entry, [default] where the entry holds none. *)
Definition rate_or (default : Q) (entry : Registry.FeeEntry) : Q :=
  match entry with
  | Registry.Rate rate => rate
  | _ => default
  end.

(** None of the fee entries [_fetch_public_fees] reads for the venue is
    [None]: not the venue's own, not those of a raw market of a listed
    symbol. *)
Definition fees_numeric (registry : Registry.ExchangeRegistry) (V : string)
    (exchange : Registry.CcxtExchange)
    (fee_maker fee_taker : Registry.FeeEntry) : Prop :=
  fee_maker ≠ Registry.Null /\ fee_taker ≠ Registry.Null /\
  forall symbol market_maker market_taker,
    In symbol (map fst (Registry.get_markets registry V)) ->
    Registry.ccxt_markets exchange !! symbol
      = Some (market_maker, market_taker) ->
    market_maker ≠ Registry.Null /\ market_taker ≠ Registry.Null.

(** One of those entries is [None]. *)
Definition some_fee_null (registry : Registry.ExchangeRegistry) (V : string)
    (exchange : Registry.CcxtExchange)
    (fee_maker fee_taker : Registry.FeeEntry) : Prop :=
  fee_maker = Registry.Null \/ fee_taker = Registry.Null \/
  exists symbol market_maker market_taker,
    In symbol (map fst (Registry.get_markets registry V)) /\
    Registry.ccxt_markets exchange !! symbol
      = Some (market_maker, market_taker) /\
    (market_maker = Registry.Null \/ market_taker = Registry.Null).

(** No variable of the environment sets a fee of the venue: each one that
    addresses the venue has a value [float] rejects. *)
Definition no_override_for (py_float : string -> option Q) (V : string)
    (environ : list (string * string)) : Prop :=
  Forall (fun kv : string * string =>
            forall kk, Config.override_target kv.1 = Some (V, kk) ->
                       py_float kv.2 = None) environ.

(** The override table holds nothing for the venue. *)
Definition untouched (ov : gmap string (gmap string Q)) (V : string) : Prop :=
  forall m, ov !! V = Some m -> m = ∅.

End Fees.

(** ** engine.py *)

Module Engine.
Import Models Runtime.

Record ArbitrageEngine := mkArbitrageEngine {
  order_books : gmap (string * string) OrderBook;
  last_scan_time : Z
}.

(** [ArbitrageEngine.update_order_book]: the engine after the call. *)
Definition update_order_book (order_book : OrderBook) (self : ArbitrageEngine)
    : ArbitrageEngine :=
  let key := (ob_exchange order_book, ob_symbol order_book) in
  mkArbitrageEngine (<[key := order_book]> (order_books self))
                    (last_scan_time self).

Section Scanner.

Variable config : Config.Config.
Variable registry : Registry.ExchangeRegistry.
Variable clock : Clock.

(** [_is_websocket_data]: none of the given books is older than five seconds. *)
Definition _is_websocket_data {T} (books : list OrderBook)
    : St (T * nat) bool :=
  now ← utcnow clock;
  mret (forallb (fun book =>
          negb (seconds 5 <? now - ob_timestamp book)%Z) books).

(** [_check_opportunity]; the object threaded through is the module-level
    [fee_manager]. *)
Definition _check_opportunity (symbol buy_exchange sell_exchange : string)
    (symbol_books : gmap string OrderBook)
    : St (Fees.FeeManager * nat) (option Opportunity) :=
  match symbol_books !! buy_exchange, symbol_books !! sell_exchange with
  | Some buy_book, Some sell_book =>
    match asks buy_book, bids sell_book with
    | _ :: _, _ :: _ =>
      buy_fees ← on_object (Fees.get_fees registry buy_exchange (Some symbol));
      sell_fees ← on_object (Fees.get_fees registry sell_exchange (Some symbol));
      let target_notional := Config.MIN_NOTIONAL config in
      let buy_vwap := Depth.calculate_buy_vwap (asks buy_book) target_notional in
      if negb (fully_filled buy_vwap) then mret None else
      let sell_vwap := Depth.calculate_sell_vwap (bids sell_book) target_notional in
      if negb (fully_filled sell_vwap) then mret None else
      let buy_price_before_fees := vwap_price buy_vwap in
      let sell_price_before_fees := vwap_price sell_vwap in
      let buy_taker_fee := snd (fp_get_fees buy_fees (Some symbol)) in
      let buy_price_after_fees := buy_price_before_fees * (1 + buy_taker_fee) in
      let sell_taker_fee := snd (fp_get_fees sell_fees (Some symbol)) in
      let sell_price_after_fees := sell_price_before_fees * (1 - sell_taker_fee) in
      if Qle_bool sell_price_after_fees buy_price_after_fees then mret None else
      let mid_price := (buy_price_after_fees + sell_price_after_fees) / 2 in
      let spread_bps :=
        (sell_price_after_fees - buy_price_after_fees) / mid_price * 10000 in
      if negb (Qle_bool (Config.MIN_SPREAD_BPS config) spread_bps)
      then mret None else
      timestamp ← utcnow (T := Fees.FeeManager) clock;
      is_ws ← _is_websocket_data (T := Fees.FeeManager) [buy_book; sell_book];
      mret (Some (mkOpportunity symbol buy_exchange sell_exchange
                    buy_price_before_fees sell_price_before_fees
                    buy_price_after_fees sell_price_after_fees
                    spread_bps target_notional
                    (levels_used buy_vwap) (levels_used sell_vwap)
                    (fp_get_fees buy_fees (Some symbol))
                    (fp_get_fees sell_fees (Some symbol))
                    timestamp
                    (if (is_ws : bool) then ModeWs else ModeRest)))
    | _, _ => mret None
    end
  | _, _ => mret None
  end.

(** The body of the first loop of [_scan_symbol_opportunities]: the stored
    book of the exchange enters [symbol_books] when it is at most sixty
    seconds old and has both sides. *)
Definition collect_book (self : ArbitrageEngine) (symbol : string)
    (symbol_books : list (string * OrderBook)) (exchange : string)
    : St (Fees.FeeManager * nat) (list (string * OrderBook)) :=
  let key := (exchange, symbol) in
  match order_books self !! key with
  | Some book =>
      now ← utcnow clock;
      if (now - ob_timestamp book <=? seconds 60)%Z
         && negb (bool_decide (bids book = []))
         && negb (bool_decide (asks book = []))
      then mret (dict_set exchange book symbol_books)
      else mret symbol_books
  | None => mret symbol_books
  end.

(** The pairs [(names[i], names[j])] with [i < j], in the order the two
    nested loops visit them. *)
Fixpoint exchange_pairs (exchange_names : list string)
    : list (string * string) :=
  match exchange_names with
  | [] => []
  | name :: rest => map (pair name) rest ++ exchange_pairs rest
  end.

Definition append_found (opportunities : list Opportunity)
    (opp : option Opportunity) : list Opportunity :=
  match opp with
  | Some o => opportunities ++ [o]
  | None => opportunities
  end.

(** The body of the pair loops: both directions are checked. *)
Definition check_pair (symbol : string)
    (symbol_books : list (string * OrderBook))
    (opportunities : list Opportunity) (names : string * string)
    : St (Fees.FeeManager * nat) (list Opportunity) :=
  let '(buy_exchange, sell_exchange) := names in
  opp1 ← _check_opportunity symbol buy_exchange sell_exchange
            (list_to_map symbol_books);
  let opportunities := append_found opportunities opp1 in
  opp2 ← _check_opportunity symbol sell_exchange buy_exchange
            (list_to_map symbol_books);
  mret (append_found opportunities opp2).

Definition _scan_symbol_opportunities (self : ArbitrageEngine)
    (symbol : string) (exchanges : list string)
    : St (Fees.FeeManager * nat) (list Opportunity) :=
  symbol_books ← for_each (collect_book self symbol) exchanges [];
  if (length symbol_books <? 2)%nat then mret []
  else
    let exchange_names := map fst symbol_books in
    for_each (check_pair symbol symbol_books)
             (exchange_pairs exchange_names) [].

(** [scan_opportunities]: the opportunities found and the engine after the
    call, whose [last_scan_time] is the time the scan ended. *)
Definition scan_opportunities (self : ArbitrageEngine)
    (symbols exchanges : list string)
    : St (Fees.FeeManager * nat) (list Opportunity * ArbitrageEngine) :=
  opportunities ←
    for_each (fun opportunities symbol =>
                symbol_opportunities ←
                  _scan_symbol_opportunities self symbol exchanges;
                mret (opportunities ++ symbol_opportunities))
             symbols [];
  now ← utcnow clock;
  mret (opportunities, mkArbitrageEngine (order_books self) now).

(** What the first loop guarantees of [symbol_books]: each exchange occurs
    once and is one of those asked for, and its book is the stored one, has
    both sides and was at most sixty seconds old at one of the clock
    readings [first .. last - 1]. *)
Definition collected (self : ArbitrageEngine) (symbol : string)
    (exchanges : list string) (first last : nat)
    (symbol_books : list (string * OrderBook)) : Prop :=
  NoDup (map fst symbol_books) /\
  forall exchange book, In (exchange, book) symbol_books ->
    In exchange exchanges /\
    order_books self !! (exchange, symbol) = Some book /\
    bids book <> [] /\ asks book <> [] /\
    exists i, (first <= i < last)%nat /\
              (clock i - ob_timestamp book <= seconds 60)%Z.

(** What holds of an opportunity the scan of a symbol returns. *)
Definition scanned (self : ArbitrageEngine) (symbol : string)
    (exchanges : list string) (first last : nat) (opp : Opportunity) : Prop :=
  op_symbol opp = symbol /\
  In (buy_exchange opp) exchanges /\ In (sell_exchange opp) exchanges /\
  buy_exchange opp <> sell_exchange opp /\
  exists buy_book sell_book,
    order_books self !! (buy_exchange opp, symbol) = Some buy_book /\
    order_books self !! (sell_exchange opp, symbol) = Some sell_book /\
    (exists i, (first <= i < last)%nat /\
               (clock i - ob_timestamp buy_book <= seconds 60)%Z) /\
    (exists i, (first <= i < last)%nat /\
               (clock i - ob_timestamp sell_book <= seconds 60)%Z) /\
    buy_price_before_fees opp
      = vwap_price (Depth.calculate_buy_vwap (asks buy_book)
                      (Config.MIN_NOTIONAL config)) /\
    sell_price_before_fees opp
      = vwap_price (Depth.calculate_sell_vwap (bids sell_book)
                      (Config.MIN_NOTIONAL config)).

End Scanner.

End Engine.

(** ** tri_engine.py *)

Module TriEngine.
Import Models Runtime.

Record TriangularArbitrageEngine := mkTriangularArbitrageEngine {
  order_books : gmap (string * string) OrderBook;
  triangular_paths : gmap string (list (string * string * string));
  last_scan_time : Z;
  path_cache_time : gmap string Z
}.

(** [TriangularArbitrageEngine.update_order_book]: the engine after the
    call. *)
Definition update_order_book (order_book : OrderBook)
    (self : TriangularArbitrageEngine) : TriangularArbitrageEngine :=
  let key := (ob_exchange order_book, ob_symbol order_book) in
  mkTriangularArbitrageEngine
    (<[key := order_book]> (order_books self))
    (triangular_paths self) (last_scan_time self) (path_cache_time self).

(** What [_execute_leg] returns when it succeeds:
    (resulting amount, symbol, price, side). *)
Definition LegResult : Type := Q * string * Q * Side.

Section Scanner.

Variable config : Config.Config.
Variable clock : Clock.

(** [_get_order_book]: the stored book when it is at most sixty seconds old
    and has both sides. *)
Definition _get_order_book (exchange symbol : string)
    : St (TriangularArbitrageEngine * nat) (option OrderBook) :=
  self ← self_;
  match order_books self !! (exchange, symbol) with
  | None => mret None
  | Some book =>
      now ← utcnow clock;
      if (seconds 60 <? now - ob_timestamp book)%Z then mret None
      else
        match bids book, asks book with
        | _ :: _, _ :: _ => mret (Some book)
        | _, _ => mret None
        end
  end.

(** [book.bids[0].price] of a non-empty side. *)
Definition best_price (levels : list DepthLevel) : Q :=
  match levels with
  | l :: _ => price l
  | [] => 0
  end.

(** The block of [_execute_leg] under [if book:] for the symbol
    [from_asset/to_asset].  [Some r]: the method returns [r] there;
    [None]: control goes on to the reverse symbol. *)
Definition direct_block (symbol : string) (book : OrderBook) (amount : Q)
    (preferred_side : string) (fees : FeesPublic)
    : option (option LegResult) :=
  if String.eqb preferred_side "buy" then
    let target_notional := amount in
    let vwap := Depth.calculate_buy_vwap (asks book) target_notional in
    if fully_filled vwap then
      let taker_fee := snd (fp_get_fees fees (Some symbol)) in
      let gross_to_asset := target_notional / vwap_price vwap in
      let net_to_asset := gross_to_asset * (1 - taker_fee) in
      Some (Some (net_to_asset, symbol, vwap_price vwap, Buy))
    else None
  else
    match bids book with
    | [] => Some None
    | _ :: _ =>
      let best_bid := best_price (bids book) in
      let target_notional := amount * best_bid in
      let vwap := Depth.calculate_sell_vwap (bids book) target_notional in
      if fully_filled vwap then
        let taker_fee := snd (fp_get_fees fees (Some symbol)) in
        let gross_to_asset := total_volume vwap * vwap_price vwap in
        let net_to_asset := gross_to_asset * (1 - taker_fee) in
        Some (Some (net_to_asset, symbol, vwap_price vwap, Sell))
      else None
    end.

(** The block under the second [if book:], for the symbol
    [to_asset/from_asset]; [None]: control reaches the final
    [return None]. *)
Definition reverse_block (reverse_symbol : string) (book : OrderBook)
    (amount : Q) (preferred_side : string) (fees : FeesPublic)
    : option (option LegResult) :=
  if String.eqb preferred_side "buy" then
    match bids book with
    | [] => Some None
    | _ :: _ =>
      let best_bid := best_price (bids book) in
      let target_notional := amount / best_bid in
      let vwap := Depth.calculate_sell_vwap (bids book) target_notional in
      if fully_filled vwap then
        let taker_fee := snd (fp_get_fees fees (Some reverse_symbol)) in
        let gross_to_asset := total_volume vwap in
        let net_to_asset := gross_to_asset * (1 - taker_fee) in
        Some (Some (net_to_asset, reverse_symbol, vwap_price vwap, Sell))
      else None
    end
  else
    let target_notional := amount in
    let vwap := Depth.calculate_buy_vwap (asks book) target_notional in
    if fully_filled vwap then
      let taker_fee := snd (fp_get_fees fees (Some reverse_symbol)) in
      let gross_to_asset := target_notional / vwap_price vwap in
      let net_to_asset := gross_to_asset * (1 - taker_fee) in
      Some (Some (net_to_asset, reverse_symbol, vwap_price vwap, Buy))
    else None.

Definition _execute_leg (exchange from_asset to_asset : string) (amount : Q)
    (preferred_side : string) (fees : FeesPublic)
    : St (TriangularArbitrageEngine * nat) (option LegResult) :=
  let symbol := from_asset +:+ "/" +:+ to_asset in
  book ← _get_order_book exchange symbol;
  match book ≫= (fun b => direct_block symbol b amount preferred_side fees) with
  | Some returned => mret returned
  | None =>
      let reverse_symbol := to_asset +:+ "/" +:+ from_asset in
      book ← _get_order_book exchange reverse_symbol;
      match book ≫=
            (fun b => reverse_block reverse_symbol b amount preferred_side fees)
      with
      | Some returned => mret returned
      | None => mret None
      end
  end.

Definition _check_triangular_opportunity (exchange base asset2 asset3 : string)
    (fees : FeesPublic)
    : St (TriangularArbitrageEngine * nat) (option TriOpportunity) :=
  let start_amount := Config.MIN_NOTIONAL config in
  leg1_result ← _execute_leg exchange base asset2 start_amount "buy" fees;
  match leg1_result with
  | None => mret None
  | Some (asset2_amount, leg1_symbol, leg1_price, leg1_side) =>
  leg2_result ← _execute_leg exchange asset2 asset3 asset2_amount "buy" fees;
  match leg2_result with
  | None => mret None
  | Some (asset3_amount, leg2_symbol, leg2_price, leg2_side) =>
  leg3_result ← _execute_leg exchange asset3 base asset3_amount "sell" fees;
  match leg3_result with
  | None => mret None
  | Some (final_base_amount, leg3_symbol, leg3_price, leg3_side) =>
  if Qle_bool final_base_amount start_amount then mret None else
  let gain_bps := (final_base_amount / start_amount - 1) * 10000 in
  if negb (Qle_bool (Config.MIN_TRI_GAIN_BPS config) gain_bps)
  then mret None else
  timestamp ← utcnow clock;
  mret (Some (mkTriOpportunity exchange base (base, asset2, asset3)
                start_amount final_base_amount gain_bps start_amount
                leg1_symbol leg1_price leg1_side
                leg2_symbol leg2_price leg2_side
                leg3_symbol leg3_price leg3_side
                (fp_get_fees fees None) timestamp))
  end end end.

Variable registry : Registry.ExchangeRegistry.

(** [(exchange, symbol) in self.order_books]. *)
Definition has_book (self : TriangularArbitrageEngine)
    (exchange symbol : string) : bool :=
  bool_decide (is_Some (order_books self !! (exchange, symbol))).

(** The test of [_update_triangular_paths] on one path: each of the three
    hops has a book under its symbol or under the reverse symbol. *)
Definition has_all_symbols (self : TriangularArbitrageEngine)
    (exchange : string) (p : string * string * string) : bool :=
  let '(base, asset2, asset3) := p in
  let required_symbols :=
    [base +:+ "/" +:+ asset2; asset2 +:+ "/" +:+ asset3;
     asset3 +:+ "/" +:+ base] in
  let alt_symbols :=
    [asset2 +:+ "/" +:+ base; asset3 +:+ "/" +:+ asset2;
     base +:+ "/" +:+ asset3] in
  forallb (fun names : string * string =>
             has_book self exchange names.1 || has_book self exchange names.2)
          (combine required_symbols alt_symbols).

(** [_update_triangular_paths]: nothing within five minutes of the last
    update for the exchange; otherwise the registry's cycles that have
    their books replace the exchange's paths. *)
Definition _update_triangular_paths (exchange : string)
    : St (TriangularArbitrageEngine * nat) unit :=
  now ← utcnow clock;
  self ← self_;
  let cached_recently :=
    match path_cache_time self !! exchange with
    | Some cached => (now - cached <? seconds 300)%Z
    | None => false
    end in
  if cached_recently then mret tt
  else
    let paths :=
      Registry.get_triangular_symbols registry
        (Config.TRI_EXCLUDE_QUOTES config) exchange (Config.TRI_BASES config) in
    let valid_paths := List.filter (has_all_symbols self exchange) paths in
    on_object (put (mkTriangularArbitrageEngine
                      (order_books self)
                      (<[exchange := valid_paths]> (triangular_paths self))
                      (last_scan_time self)
                      (<[exchange := now]> (path_cache_time self)))).

(** The scan works on the engine and on the module-level [fee_manager]. *)
Definition with_engine {A} (m : St (TriangularArbitrageEngine * nat) A)
    : St (TriangularArbitrageEngine * Fees.FeeManager * nat) A :=
  fun '((self, fm), i) =>
    let '(a, (self', i')) := m (self, i) in (a, ((self', fm), i')).

Definition with_fees {A} (m : St Fees.FeeManager A)
    : St (TriangularArbitrageEngine * Fees.FeeManager * nat) A :=
  fun '((self, fm), i) => let '(a, fm') := m fm in (a, ((self, fm'), i)).

Definition append_tri (opportunities : list TriOpportunity)
    (opportunity : option TriOpportunity) : list TriOpportunity :=
  match opportunity with
  | Some o => opportunities ++ [o]
  | None => opportunities
  end.

Definition _scan_exchange_opportunities (exchange : string)
    : St (TriangularArbitrageEngine * Fees.FeeManager * nat)
         (list TriOpportunity) :=
  _ ← with_engine (_update_triangular_paths exchange);
  self ← with_engine self_;
  match triangular_paths self !! exchange with
  | None => mret []
  | Some paths =>
      fees ← with_fees (Fees.get_fees registry exchange None);
      for_each (fun opportunities (p : string * string * string) =>
                  let '(base, asset2, asset3) := p in
                  opportunity ←
                    with_engine (_check_triangular_opportunity exchange base
                                   asset2 asset3 fees);
                  mret (append_tri opportunities opportunity))
               paths []
  end.

Definition scan_opportunities (exchanges : list string)
    : St (TriangularArbitrageEngine * Fees.FeeManager * nat)
         (list TriOpportunity) :=
  opportunities ←
    for_each (fun opportunities exchange =>
                exchange_opportunities ← _scan_exchange_opportunities exchange;
                mret (opportunities ++ exchange_opportunities))
             exchanges [];
  now ← utcnow clock;
  self ← with_engine self_;
  _ ← with_engine (on_object (put (mkTriangularArbitrageEngine
                                     (order_books self) (triangular_paths self)
                                     now (path_cache_time self))));
  mret opportunities.

(** Every path the engine holds for an exchange has its books. *)
Definition paths_have_books (self : TriangularArbitrageEngine) : Prop :=
  forall exchange paths p,
    triangular_paths self !! exchange = Some paths -> In p paths ->
    has_all_symbols self exchange p = true.

(** The hop [from_asset -> to_asset] was traded under [symbol]: the symbol
    is that of the hop or its reverse, and the engine stores a two-sided
    book for it that was at most sixty seconds old at one of the clock
    readings [first .. last - 1]. *)
Definition leg_on_book (self : TriangularArbitrageEngine)
    (exchange from_asset to_asset : string) (first last : nat)
    (symbol : string) : Prop :=
  (symbol = from_asset +:+ "/" +:+ to_asset \/
   symbol = to_asset +:+ "/" +:+ from_asset) /\
  exists book,
    order_books self !! (exchange, symbol) = Some book /\
    bids book <> [] /\ asks book <> [] /\
    exists i, (first <= i < last)%nat /\
              (clock i - ob_timestamp book <= seconds 60)%Z.

(** What holds of a triangular opportunity found on an exchange. *)
Definition tri_found (self : TriangularArbitrageEngine) (exchange : string)
    (first last : nat) (opp : TriOpportunity) : Prop :=
  tri_exchange opp = exchange /\
  base_asset opp = (path opp).1.1 /\
  start_amount opp = Config.MIN_NOTIONAL config /\
  tri_notional opp = Config.MIN_NOTIONAL config /\
  start_amount opp < end_amount opp /\
  Config.MIN_TRI_GAIN_BPS config <= gain_bps opp /\
  gain_bps opp == (end_amount opp / start_amount opp - 1) * 10000 /\
  leg_on_book self exchange (path opp).1.1 (path opp).1.2 first last
    (leg1_symbol opp) /\
  leg_on_book self exchange (path opp).1.2 (path opp).2 first last
    (leg2_symbol opp) /\
  leg_on_book self exchange (path opp).2 (path opp).1.1 first last
    (leg3_symbol opp).

(** The scan of one exchange leaves the books alone; what it has found
    holds of the books the engine had when the scan began. *)
Definition scan_state_ok (self : TriangularArbitrageEngine) (first : nat)
    (found : TriOpportunity -> nat -> Prop)
    (acc : list TriOpportunity)
    (s : TriangularArbitrageEngine * Fees.FeeManager * nat) : Prop :=
  order_books s.1.1 = order_books self /\ (first <= s.2)%nat /\
  Forall (fun o => found o s.2) acc.

End Scanner.

End TriEngine.

(** ** alert.py *)

Module Alert.
Import Models Runtime.

(** The attributes of an [AlertManager] the producer side works on;
    [send_queue] holds the queued messages, oldest first. *)
Record AlertManager := mkAlertManager {
  enabled : bool;
  sent_alerts : gmap string Z;
  last_send_time : Z;
  send_queue : list string
}.

(** [self.alert_ttl = timedelta(seconds=30)], set once by [__init__]. *)
Definition alert_ttl : Z := seconds 30.

(** [AlertManager.__init__] at time [now]; [enabled] is what
    [_initialize_bot] found. *)
Definition init (enabled : bool) (now : Z) : AlertManager :=
  mkAlertManager enabled ∅ now [].

Definition with_sent_alerts (sent : gmap string Z) (self : AlertManager)
    : AlertManager :=
  mkAlertManager (enabled self) sent (last_send_time self) (send_queue self).

(** The dedup table without the entries [_clean_old_alerts] removes: those
    with [now - timestamp > self.alert_ttl]. *)
Definition cleaned (now : Z) (sent : gmap string Z) : gmap string Z :=
  filter (fun kt : string * Z => ¬ (alert_ttl < now - kt.2)%Z) sent.

(** [_clean_old_alerts]: drop the entries older than the TTL. *)
Definition _clean_old_alerts (now : Z) : St AlertManager unit :=
  fun self => (tt, with_sent_alerts (cleaned now (sent_alerts self)) self).

(** [await self.send_queue.put(message)] on the unbounded queue. *)
Definition queue_put (message : string) : St AlertManager unit :=
  fun self =>
  (tt, mkAlertManager (enabled self) (sent_alerts self) (last_send_time self)
         (send_queue self ++ [message])).

(** The table of the manager records the key [k] at a time not before
    [since]. *)
Definition recorded (k : string) (since : Z) (st : AlertManager * nat) : Prop :=
  exists t, sent_alerts st.1 !! k = Some t /\ (since <= t)%Z.

(** An alert handed to the manager: a cross-exchange or a triangular
    opportunity. *)
Inductive Submission :=
  | CrossAlert (opportunity : Opportunity)
  | TriAlert (opportunity : TriOpportunity).

Definition submission_key (s : Submission) : string :=
  match s with
  | CrossAlert o => dedupe_key o
  | TriAlert o => tri_dedupe_key o
  end.

Section Producer.

Variable clock : Clock.

(** [_format_cross_exchange_message] and [_format_triangular_message]: the
    text of an alert. *)
Variable _format_cross_exchange_message : Opportunity -> string.
Variable _format_triangular_message : TriOpportunity -> string.

Definition _is_duplicate (dedupe_key : string)
    : St (AlertManager * nat) bool :=
  now ← utcnow clock;
  _ ← on_object (_clean_old_alerts now);
  self ← self_;
  match sent_alerts self !! dedupe_key with
  | Some sent =>
      let age := (now - sent)%Z in
      mret (age <? alert_ttl)%Z
  | None => mret false
  end.

Definition _mark_sent (dedupe_key : string) : St (AlertManager * nat) unit :=
  now ← utcnow clock;
  on_object (fun self =>
    (tt, with_sent_alerts (<[dedupe_key := now]> (sent_alerts self)) self)).

Definition send_cross_exchange_alert (opportunity : Opportunity)
    : St (AlertManager * nat) bool :=
  self ← self_;
  if negb (enabled self) then mret false else
  duplicate ← _is_duplicate (dedupe_key opportunity);
  if (duplicate : bool) then mret false else
  let message := _format_cross_exchange_message opportunity in
  _ ← on_object (queue_put message);
  _ ← _mark_sent (dedupe_key opportunity);
  mret true.

Definition send_triangular_alert (opportunity : TriOpportunity)
    : St (AlertManager * nat) bool :=
  self ← self_;
  if negb (enabled self) then mret false else
  duplicate ← _is_duplicate (tri_dedupe_key opportunity);
  if (duplicate : bool) then mret false else
  let message := _format_triangular_message opportunity in
  _ ← on_object (queue_put message);
  _ ← _mark_sent (tri_dedupe_key opportunity);
  mret true.

(** The text queued for a submission. *)
Definition message (s : Submission) : string :=
  match s with
  | CrossAlert o => _format_cross_exchange_message o
  | TriAlert o => _format_triangular_message o
  end.

(** One submission by the single producer. *)
Definition submit (s : Submission) : St (AlertManager * nat) bool :=
  match s with
  | CrossAlert o => send_cross_exchange_alert o
  | TriAlert o => send_triangular_alert o
  end.

(** What is observed of a submission: its dedup key, its arrival time (the
    clock value at its start) and the value the call returned. *)
Record Outcome := mkOutcome {
  out_key : string;
  out_arrival : Z;
  out_queued : bool
}.

(** A sequence of submissions, one after the other, from the state [st]. *)
Fixpoint run (subs : list Submission) (st : AlertManager * nat)
    : list Outcome * (AlertManager * nat) :=
  match subs with
  | [] => ([], st)
  | s :: rest =>
      let arrival := clock (snd st) in
      let '(queued, st') := submit s st in
      let '(outs, st'') := run rest st' in
      (mkOutcome (submission_key s) arrival queued :: outs, st'')
  end.

End Producer.

End Alert.

(** ** connectors/base.py: parsing a raw order book *)

Module Connector.
Import Models Runtime.

(** A value of a raw level as [float(...)] reads it: [None] when [float]
    raises. *)
Definition RawValue : Type := option Q.

(** The entry under ['timestamp']: a number of milliseconds, or a value of
    another type with its truth value. *)
Inductive RawTimestamp :=
  | TsNumber (ms : Q)
  | TsOther (truthy : bool).

(** The raw data of an exchange: the sequences under ['bids'] and ['asks']
    (empty when the key is missing), the entry under ['timestamp'] and the
    integer under ['nonce'], when present. *)
Record RawBook := mkRawBook {
  raw_bids : list (list RawValue);
  raw_asks : list (list RawValue);
  raw_timestamp : option RawTimestamp;
  raw_nonce : option Z
}.

(** The outcome of [datetime.fromtimestamp]: a time, a [ValueError] or
    [TypeError] (which the code passes over), or another exception. *)
Inductive TsResult :=
  | TsOk (t : Z)
  | TsIgnored
  | TsRaised.

(** One of the two loops over the raw levels: entries shorter than two are
    skipped, an entry whose price and amount are positive is appended;
    [None] when [float] raises. *)
Fixpoint parse_levels (raw : list (list RawValue)) : option (list DepthLevel) :=
  match raw with
  | [] => Some []
  | entry :: rest =>
      match entry with
      | v0 :: v1 :: _ =>
          match v0, v1 with
          | Some p, Some a =>
              match parse_levels rest with
              | Some levels =>
                  if Depth.Qpos_bool p && Depth.Qpos_bool a
                  then Some (mkDepthLevel p a :: levels)
                  else Some levels
              | None => None
              end
          | _, _ => None
          end
      | _ => parse_levels rest
      end
  end.

(** [list.sort(key=lambda x: x.price)]: a stable sort by ascending price. *)
Fixpoint insert_ascending (x : DepthLevel) (l : list DepthLevel)
    : list DepthLevel :=
  match l with
  | [] => [x]
  | y :: t =>
      if Qle_bool (price x) (price y) then x :: y :: t
      else y :: insert_ascending x t
  end.

Definition sort_ascending (l : list DepthLevel) : list DepthLevel :=
  fold_right insert_ascending [] l.

(** [list.sort(key=lambda x: x.price, reverse=True)]: a stable sort by
    descending price. *)
Fixpoint insert_descending (x : DepthLevel) (l : list DepthLevel)
    : list DepthLevel :=
  match l with
  | [] => [x]
  | y :: t =>
      if Qle_bool (price y) (price x) then x :: y :: t
      else y :: insert_descending x t
  end.

Definition sort_descending (l : list DepthLevel) : list DepthLevel :=
  fold_right insert_descending [] l.

Section Parsing.

Variable clock : Clock.

(** [datetime.fromtimestamp], applied to a number of seconds. *)
Variable fromtimestamp : Q -> TsResult.

(** The time stamp of the parsed book given the clock reading [now]; [None]
    when an exception other than [ValueError] and [TypeError] escapes the
    inner [try]. *)
Definition book_timestamp (now : Z) (ts : option RawTimestamp) : option Z :=
  match ts with
  | None => Some now
  | Some (TsNumber ms) =>
      if Qeq_bool ms 0 then Some now
      else match fromtimestamp (ms / 1000) with
           | TsOk t => Some t
           | TsIgnored => Some now
           | TsRaised => None
           end
  | Some (TsOther truthy) => Some now
  end.

(** [_parse_order_book_data] of the connector named [exchange_name]. *)
Definition _parse_order_book_data {T} (exchange_name : string) (data : RawBook)
    (symbol : string) : St (T * nat) (option OrderBook) :=
  match parse_levels (raw_bids data) with
  | None => mret None
  | Some bids =>
      match parse_levels (raw_asks data) with
      | None => mret None
      | Some asks =>
          let bids := sort_descending bids in
          let asks := sort_ascending asks in
          now ← utcnow (T := T) clock;
          match book_timestamp now (raw_timestamp data) with
          | Some timestamp =>
              mret (Some (mkOrderBook symbol exchange_name bids asks timestamp
                            (raw_nonce data)))
          | None => mret None
          end
      end
  end.

End Parsing.

(** The levels of a raw side that the parser keeps: price and amount read
    and positive. *)
Definition kept_levels (raw : list (list RawValue)) : list DepthLevel :=
  flat_map (fun entry =>
              match entry with
              | Some p :: Some a :: _ =>
                  if Depth.Qpos_bool p && Depth.Qpos_bool a
                  then [mkDepthLevel p a] else []
              | _ => []
              end) raw.

End Connector.

(** ** app.py: the per-stream queue and the coalescer *)

Module App.
Import Models Runtime.

(** [asyncio.Queue(maxsize=2)]. *)
Definition queue_maxsize : nat := 2.

(** The block "queue for coalescing" of [_watch_order_book_ws] and
    [_poll_order_book_rest]: [put_nowait], and on [QueueFull] drop the
    oldest entry and put again.  The queue is listed oldest first; [None]
    when the second [put_nowait] raises [QueueFull]. *)
Definition enqueue_for_coalescing (order_book : OrderBook)
    (queue : list OrderBook) : option (list OrderBook) :=
  if (length queue <? queue_maxsize)%nat then Some (queue ++ [order_book])
  else
    match queue with
    | [] => Some queue
    | _ :: rest =>
        if (length rest <? queue_maxsize)%nat then Some (rest ++ [order_book])
        else None
    end.

(** A run of such blocks, as long as none raises. *)
Fixpoint enqueue_all (order_books : list OrderBook) (queue : list OrderBook)
    : option (list OrderBook) :=
  match order_books with
  | [] => Some queue
  | b :: rest =>
      match enqueue_for_coalescing b queue with
      | Some queue' => enqueue_all rest queue'
      | None => None
      end
  end.

(** The loop of [_coalesce_order_books] that empties the queue with
    [get_nowait], keeping the last book taken. *)
Fixpoint drain_latest (latest_book : OrderBook) (queue : list OrderBook)
    : OrderBook :=
  match queue with
  | [] => latest_book
  | b :: rest => drain_latest b rest
  end.

(** The two engines of the application. *)
Record Engines := mkEngines {
  arbitrage_engine : Engine.ArbitrageEngine;
  tri_engine : TriEngine.TriangularArbitrageEngine
}.

(** The part of [_coalesce_order_books] after the coalescing window, for the
    book [order_book] taken before it: drain the queue and hand the latest
    book to both engines.  Returns the engines and the (empty) queue. *)
Definition coalesce_publish (order_book : OrderBook) (queue : list OrderBook)
    (engines : Engines) : Engines * list OrderBook :=
  let latest_book := drain_latest order_book queue in
  (mkEngines (Engine.update_order_book latest_book (arbitrage_engine engines))
             (TriEngine.update_order_book latest_book (tri_engine engines)),
   []).

End App.

(** ** Symbol names ([symbolmap.py]) *)

Module SymbolMap.
Import Runtime.

(** [self.symbol_mappings]: exchange symbol to standard symbol, per
    exchange. *)
Definition symbol_mappings : list (string * list (string * string)) :=
  [("kraken",
    [("XBTUSD", "BTC/USD"); ("XBTUSDT", "BTC/USDT"); ("XETHZUSD", "ETH/USD");
     ("XETHZUSDT", "ETH/USDT"); ("XXBTZUSD", "BTC/USD");
     ("XXBTZUSDT", "BTC/USDT"); ("XETHXXBT", "ETH/BTC")]);
   ("bitfinex",
    [("BTCUSD", "BTC/USD"); ("BTCUSDT", "BTC/USDT"); ("ETHUSD", "ETH/USD");
     ("ETHUSDT", "ETH/USDT"); ("ETHBTC", "ETH/BTC")]);
   ("binance",
    [("BTCUSDT", "BTC/USDT"); ("ETHUSDT", "ETH/USDT"); ("BNBUSDT", "BNB/USDT");
     ("ADAUSDT", "ADA/USDT")])].

(** [{v: k for k, v in mappings.items()}]: a later item replaces an
    earlier one with the same standard symbol. *)
Definition invert (mappings : list (string * string))
    : list (string * string) :=
  fold_left (fun acc (kv : string * string) => dict_set kv.2 kv.1 acc)
            mappings [].

(** [self.reverse_mappings], as [__init__] builds it. *)
Definition reverse_mappings : list (string * list (string * string)) :=
  map (fun em : string * list (string * string) => (em.1, invert em.2))
      symbol_mappings.

Section Normalize.

(** [_auto_normalize], the rewriting by patterns of symbols without a
    separator. *)
Variable _auto_normalize : string -> string.

Definition normalize_symbol (symbol exchange : string) : string :=
  match dict_get exchange symbol_mappings ≫= dict_get symbol with
  | Some standard => standard
  | None =>
      if contains "/" symbol then symbol else _auto_normalize symbol
  end.

End Normalize.

Definition get_exchange_symbol (standard_symbol exchange : string) : string :=
  match dict_get exchange reverse_mappings ≫= dict_get standard_symbol with
  | Some exchange_symbol => exchange_symbol
  | None => standard_symbol
  end.

End SymbolMap.

(** ** The specification's wording, where it is compared with the code *)

Module SpecText.
Import Models Runtime.

(** The dedup key of a cross opportunity as the specification writes it:
    [CROSS|buy_venue|sell_venue|symbol|floor(notional)]. *)
Definition spec_cross_key (o : Opportunity) : string :=
  join "|" ["CROSS"; buy_exchange o; sell_exchange o; op_symbol o;
            py_str_int (Qfloor (op_notional o))].

(** The dedup key of a triangular opportunity as the specification writes
    it: [TRI|venue|base|a2|a3|floor(notional)]. *)
Definition spec_tri_key (t : TriOpportunity) : string :=
  join "|" (["TRI"; tri_exchange t] ++ path_items (path t)
            ++ [py_str_int (Qfloor (tri_notional t))]).

(** A cycle as the specification's enumeration rule describes it: [b] is a
    configured base, [a2] is outside the bases and the excluded quotes, [a3]
    is outside the bases, the excluded quotes and [a2], and the venue's
    markets enable the three hops. *)
Definition spec_cycle (bases exclude_quotes : list string)
    (markets : list (string * MarketMeta))
    (cycle : string * string * string) : Prop :=
  let '(b, a2, a3) := cycle in
  In b bases /\
  ~ In a2 (bases ++ exclude_quotes) /\
  ~ In a3 (bases ++ exclude_quotes ++ [a2]) /\
  Registry.enables_hop markets b a2 /\
  Registry.enables_hop markets a2 a3 /\
  Registry.enables_hop markets a3 b.



End SpecText.

(** ** Example data: the scenarios of the specification *)

Module Scenarios.
Import Models Runtime.

Definition level (p a : Q) : DepthLevel := mkDepthLevel p a.

(** [asks = [(100, 1), (101, 2), (102, 3)]]. *)
Definition three_asks : list DepthLevel :=
  [level 100 1; level 101 2; level 102 3].

(** A clock that stands still at the time the example books were taken, and
    one that advances a second per reading. *)
Definition still_clock : Clock := fun _ => 0%Z.
Definition second_clock : Clock := fun i => seconds (Z.of_nat i).

(** A clock that is set back by a second after its first reading: it reads
    0 s, then -1 s, then 29.5 s from the third reading on. *)
Definition backward_clock : Clock := fun i =>
  match i with
  | 0%nat => 0%Z
  | 1%nat => (- seconds 1)%Z
  | _ => 29500000%Z
  end.

(** Cross detection: venue A asks 50 000, venue B bids 50 200, taker 0.001 on
    both, notional 100, threshold 10 bps. *)
Definition book_a : OrderBook :=
  mkOrderBook "BTC/USDT" "exchange_a" [level 49900 1] [level 50000 1] 0 None.

Definition book_b : OrderBook :=
  mkOrderBook "BTC/USDT" "exchange_b" [level 50200 1] [level 50300 1] 0 None.

Definition cross_books : gmap string OrderBook :=
  {[ "exchange_a" := book_a; "exchange_b" := book_b ]}.

Definition cross_config : Config.Config :=
  Config.mkConfig 10 30 100 ["USDT"; "USDC"; "BTC"] [].

Definition flat_fee_exchange : Registry.CcxtExchange :=
  Registry.mkCcxtExchange
    (Some (Registry.Rate 0.001, Registry.Rate 0.001)) ∅.

Definition cross_registry : Registry.ExchangeRegistry :=
  Registry.mkExchangeRegistry
    {[ "exchange_a" := flat_fee_exchange; "exchange_b" := flat_fee_exchange ]}
    ∅.

Definition cross_start : Fees.FeeManager * nat :=
  (Fees.init decimal_literal [], 0%nat).

(** The opportunity the scanner emits there: buy on A, sell on B. *)
Definition cross_opportunity : Opportunity :=
  Eval vm_compute in
    default
      (mkOpportunity "" "" "" 0 0 0 0 0 0 0 0 (0, 0) (0, 0) 0 ModeRest)
      (Engine._check_opportunity cross_config cross_registry still_clock
         "BTC/USDT" "exchange_a" "exchange_b" cross_books cross_start).1.

(** One venue with the direct market BTC/USDT on the book. *)
Definition plain_fees (venue : string) : FeesPublic :=
  mkFeesPublic 0.001 0.001 SrcDefault venue ∅.

Definition btc_usdt_book : OrderBook :=
  mkOrderBook "BTC/USDT" "venue" [level 49990 10] [level 50000 10] 0 None.

Definition tri_engine : TriEngine.TriangularArbitrageEngine :=
  TriEngine.update_order_book btc_usdt_book
    (TriEngine.mkTriangularArbitrageEngine ∅ ∅ 0 ∅).

(** A triangular opportunity on that venue, as the alert manager would
    receive it. *)
Definition tri_opportunity : TriOpportunity :=
  mkTriOpportunity "venue" "USDT" ("USDT", "BTC", "ETH") 100 (1004 # 10) 40 100
    "BTC/USDT" 50000 Sell "ETH/BTC" (5 # 100) Sell "ETH/USDT" 2510 Buy
    (0.001, 0.001) 0.

(** A venue listing BTC/USDT, USDT/TRY and BTC/TRY. *)
Definition market (symbol base quote : string) : string * MarketMeta :=
  (symbol, mkMarketMeta symbol base quote true 8 8 None None "venue").

Definition try_markets : list (string * MarketMeta) :=
  [market "BTC/USDT" "BTC" "USDT"; market "USDT/TRY" "USDT" "TRY";
   market "BTC/TRY" "BTC" "TRY"].

Definition try_registry : Registry.ExchangeRegistry :=
  Registry.mkExchangeRegistry ∅ {[ "venue" := try_markets ]}.

Definition default_bases : list string := ["USDT"; "USDC"; "BTC"].

(** An environment with the override of the specification's scenario, and
    one that also keeps an older setting under a longer name. *)
Definition override_environ : list (string * string) :=
  [("PATH", "/usr/bin"); ("BINANCE_TAKER_FEE", "0.0005")].

Definition shadowed_environ : list (string * string) :=
  [("BINANCE_TAKER_FEE", "0.0005"); ("BINANCE_TAKER_FEE_OLD", "0.002")].

Definition no_exchanges : Registry.ExchangeRegistry :=
  Registry.mkExchangeRegistry ∅ ∅.

(** Alert texts reduced to the symbol or the venue. *)
Definition cross_text (o : Opportunity) : string := op_symbol o.
Definition tri_text (o : TriOpportunity) : string := tri_exchange o.

(** A raw book with unsorted sides, a level without amount and a short
    entry, and the book parsed from it. *)
Definition raw_book : Connector.RawBook :=
  Connector.mkRawBook
    [[Some 99; Some 1]; [Some 100; Some 2]; [Some 98; Some 0]]
    [[Some 102; Some 1]; [Some 101; Some 3]; [Some 103]]
    (Some (Connector.TsNumber 1700000000000)) (Some 7%Z).

Definition utc_fromtimestamp (s : Q) : Connector.TsResult :=
  Connector.TsOk (Qfloor (s * 1000000)).

Definition parsed_book : OrderBook :=
  mkOrderBook "BTC/USDT" "venue" [level 100 2; level 99 1]
    [level 101 3; level 102 1] 1700000000000000 (Some 7%Z).

(** A venue with public fees and one market that carries fees of its own,
    under an environment that overrides the venue's taker fee. *)
Definition kraken_exchange : Registry.CcxtExchange :=
  Registry.mkCcxtExchange
    (Some (Registry.Rate 0.0016, Registry.Rate 0.0026))
    {[ "BTC/USD" := (Registry.Rate 0.001, Registry.Rate 0.002);
       "ETH/USD" := (Registry.Missing, Registry.Rate 0.0026) ]}.

Definition kraken_registry : Registry.ExchangeRegistry :=
  Registry.mkExchangeRegistry
    {[ "kraken" := kraken_exchange ]}
    {[ "kraken" := [market "BTC/USD" "BTC" "USD"; market "ETH/USD" "ETH" "USD"] ]}.

(** The same venue as ccxt describes it when it does not know the maker
    fee: the entry is there and holds [None]. *)
Definition unknown_maker_registry : Registry.ExchangeRegistry :=
  Registry.mkExchangeRegistry
    {[ "kraken" :=
         Registry.mkCcxtExchange
           (Some (Registry.Null, Registry.Rate 0.0026)) ∅ ]}
    {[ "kraken" := [market "BTC/USD" "BTC" "USD"] ]}.

Definition kraken_environ : list (string * string) :=
  [("KRAKEN_TAKER_FEE", "0.0005")].

(** Two venues that share one symbol; the second lists an inactive market
    too. *)
Definition two_venues : Registry.ExchangeRegistry :=
  Registry.mkExchangeRegistry ∅
    {[ "venue" := try_markets;
       "other" := [market "BTC/USDT" "BTC" "USDT";
                   ("ETH/USDT",
                    mkMarketMeta "ETH/USDT" "ETH" "USDT" false 8 8 None None
                      "other")] ]}.

(** The cross-exchange engine holding the books of venue A and venue B. *)
Definition cross_engine : Engine.ArbitrageEngine :=
  Engine.update_order_book book_b
    (Engine.update_order_book book_a (Engine.mkArbitrageEngine ∅ 0)).

(** A venue whose three books make the cycle USDT -> BTC -> ETH -> USDT end
    with more than it started with under the arithmetic of the legs, the
    opportunity the engine finds there, and a registry that lists the
    markets of the cycle. *)
Definition eth_btc_book : OrderBook :=
  mkOrderBook "ETH/BTC" "venue" [level 0.05 100] [level 0.051 100] 0 None.

Definition eth_usdt_book : OrderBook :=
  mkOrderBook "ETH/USDT" "venue" [level 7000000 1] [level 7000010 1] 0 None.

Definition gain_engine : TriEngine.TriangularArbitrageEngine :=
  TriEngine.update_order_book eth_usdt_book
    (TriEngine.update_order_book eth_btc_book tri_engine).

(** That engine with the cycle USDT -> BTC -> ETH cached for the venue. *)
Definition cached_engine : TriEngine.TriangularArbitrageEngine :=
  TriEngine.mkTriangularArbitrageEngine
    (TriEngine.order_books gain_engine)
    {[ "venue" := [("USDT", "BTC", "ETH")] ]} 0 {[ "venue" := 0%Z ]}.

Definition gain_opportunity : TriOpportunity :=
  Eval vm_compute in
    default tri_opportunity
      (TriEngine._check_triangular_opportunity cross_config still_clock
         "venue" "USDT" "BTC" "ETH" (plain_fees "venue")
         (gain_engine, 0%nat)).1.

Definition gain_registry : Registry.ExchangeRegistry :=
  Registry.mkExchangeRegistry ∅
    {[ "venue" := [market "USDT/BTC" "USDT" "BTC"; market "BTC/ETH" "BTC" "ETH";
                   market "USDT/ETH" "USDT" "ETH"] ]}.

(** An opportunity on BTC/USDT between two venues, for a notional. *)
Definition plain_opportunity (buy sell : string) (notional : Q) : Opportunity :=
  mkOpportunity "BTC/USDT" buy sell 50000 50200 50050 50150 20 notional 1 1
    (0.001, 0.001) (0.001, 0.001) 0 ModeRest.

(** A manager that queued the cross alert at time zero. *)
Definition alerted_manager : Alert.AlertManager :=
  Alert.mkAlertManager true
    {[ "CROSS_exchange_a_exchange_b_BTC/USDT_100" := 0%Z ]} 0 ["BTC/USDT"].

(** Sides of a book as the running program holds them, in binary64: the
    three asks of the specification; two asks holding the notional 26.88
    that the rounded running sum misses; two asks at one price. *)
Import PrimFloat.

Definition level64 (p a : float) : Float64.DepthLevel :=
  Float64.mkDepthLevel p a.

Definition three_asks64 : list Float64.DepthLevel :=
  [level64 100 1; level64 101 2; level64 102 3]%float.





End Scenarios.

(** * Properties *)

(** Unfold the state-passing combinators. *)
Ltac run_st :=
  unfold mbind, Runtime.St_bind, mret, Runtime.St_ret, Runtime.on_object,
    Runtime.self_, Runtime.utcnow, Runtime.get, Runtime.put in *.

(** ** Python string operations *)

Module StringProps.
Import Runtime.

Example split_on_example :
  split_on "_" "BINANCE_TAKER_FEE" = ["BINANCE"; "TAKER"; "FEE"] /\
  split_on "_" "PATH" = ["PATH"] /\
  lower "BINANCE" = "binance" /\
  contains "_TAKER_FEE" "BINANCE_TAKER_FEE_OLD" = true /\
  contains "_TAKER_FEE" "TAKER_FEE" = false.
Proof. repeat split; reflexivity. Qed.

Example py_int_example :
  py_int (7 # 2) = 3%Z /\ py_int (-7 # 2) = (-3)%Z /\
  py_str_int (py_int 100) = "100".
Proof. repeat split; reflexivity. Qed.

Lemma plain_char_not_sep c : plain_char c = true -> Ascii.eqb (ascii_upper c) "_" = false.
Proof. destruct c as [[] [] [] [] [] [] [] []]; vm_compute; congruence. Qed.

Lemma plain_char_round_trip c : plain_char c = true -> ascii_lower (ascii_upper c) = c.
Proof. destruct c as [[] [] [] [] [] [] [] []]; vm_compute; congruence. Qed.

Lemma lower_upper_plain s : plain_name s = true -> lower (upper s) = s.
Proof.
  induction s as [|c t IH]; simpl; [done|].
  intros [Hc Ht]%andb_prop. unfold lower, upper in *. simpl.
  by rewrite plain_char_round_trip, IH.
Qed.

Lemma split_on_plain_prefix s tail rest :
  plain_name s = true -> split_on "_" tail = EmptyString :: rest ->
  split_on "_" (upper s +:+ tail) = upper s :: rest.
Proof.
  intros Hs Htail. induction s as [|c t IH]; [done|].
  simpl in Hs. apply andb_prop in Hs as [Hc Ht].
  change (upper (String c t) +:+ tail)
    with (String (ascii_upper c) (upper t +:+ tail)).
  cbn [split_on]. rewrite (plain_char_not_sep c Hc), (IH Ht). done.
Qed.

Lemma prefix_refl s : String.prefix s s = true.
Proof.
  induction s as [|c t IH]; [done|]. simpl.
  destruct (Ascii.ascii_dec c c); [done|congruence].
Qed.

Lemma contains_of_prefix sub s : String.prefix sub s = true -> contains sub s = true.
Proof. intros H. destruct s; cbn [contains]; by rewrite H. Qed.

Lemma contains_suffix s marker : contains marker (s +:+ marker) = true.
Proof.
  induction s as [|c t IH].
  - apply contains_of_prefix. exact (prefix_refl marker).
  - change (String c t +:+ marker) with (String c (t +:+ marker)).
    cbn [contains]. rewrite IH. apply orb_true_r.
Qed.

End StringProps.


(** ** depth.py: the VWAP primitive *)

Module DepthProps.
Import Models Depth.

Lemma cumsum_from_length acc l : length (cumsum_from acc l) = length l.
Proof. revert acc. induction l as [|x t IH]; intros acc; simpl; [done|]. by rewrite IH. Qed.

Lemma cumsum_length l : length (cumsum l) = length l.
Proof. destruct l; simpl; [done|]. by rewrite cumsum_from_length. Qed.

Lemma cumsum_from_nth acc l j :
  (j < length l)%nat ->
  nth j (cumsum_from acc l) 0 == acc + np_sum (firstn (S j) l).
Proof.
  revert acc j. induction l as [|x t IH]; intros acc j Hj; simpl in *; [lia|].
  destruct j as [|j].
  - unfold np_sum; simpl. destruct t; simpl; lra.
  - rewrite IH by lia. unfold np_sum. simpl. lra.
Qed.

Lemma cumsum_nth l j :
  (j < length l)%nat -> at_ (cumsum l) j == np_sum (firstn (S j) l).
Proof.
  unfold at_. destruct l as [|x t]; simpl; [lia|]. intros Hj.
  destruct j as [|j].
  - unfold np_sum; simpl. destruct t; simpl; lra.
  - rewrite cumsum_from_nth by lia. unfold np_sum; simpl. lra.
Qed.

Lemma where_ge_from_head i arr t k rest :
  where_ge_from i arr t = k :: rest ->
  exists j, k = (i + j)%nat /\ (j < length arr)%nat /\ t <= nth j arr 0 /\
            forall j', (j' < j)%nat -> nth j' arr 0 < t.
Proof.
  revert i. induction arr as [|c arr IH]; intros i H; simpl in *; [done|].
  destruct (Qle_bool t c) eqn:Hc.
  - injection H as <- _. exists 0%nat. repeat split; [lia|lia| |intros; lia].
    simpl. by apply Qle_bool_iff.
  - destruct (IH _ H) as (j & -> & Hj & Hge & Hlt).
    exists (S j). repeat split; [lia|lia|done|].
    intros [|j'] Hj'; simpl.
    + apply Qnot_le_lt. intros Hle. apply Qle_bool_iff in Hle. congruence.
    + apply Hlt. lia.
Qed.

Lemma where_ge_from_nil i arr t :
  where_ge_from i arr t = [] ->
  forall j, (j < length arr)%nat -> nth j arr 0 < t.
Proof.
  revert i. induction arr as [|c arr IH]; intros i H j Hj; simpl in *; [lia|].
  destruct (Qle_bool t c) eqn:Hc; [done|].
  destruct j as [|j].
  - apply Qnot_le_lt. intros Hle. apply Qle_bool_iff in Hle. congruence.
  - eapply IH; [done|lia].
Qed.


Lemma np_mul_levels (l : list DepthLevel) :
  np_mul (map price l) (map amount l) = map (fun x => price x * amount x) l.
Proof. induction l as [|x t IH]; simpl; [done|]. by rewrite IH. Qed.

Lemma firstn_levels_sum (f : DepthLevel -> Q) k (l : list DepthLevel) :
  np_sum (firstn k (map f l)) = np_sum (map f (firstn k l)).
Proof. by rewrite firstn_map. Qed.

(** A weighted sum of prices lies between the extreme prices times the total
    weight. *)
Lemma weighted_sum_bounds lo hi (l : list DepthLevel) :
  Forall (fun x => lo <= price x <= hi /\ 0 <= amount x) l ->
  lo * np_sum (map amount l) <= np_sum (map (fun x => price x * amount x) l)
  /\ np_sum (map (fun x => price x * amount x) l) <= hi * np_sum (map amount l).
Proof.
  induction 1 as [|x t [[Hlo Hhi] Ha] _ [IHlo IHhi]]; unfold np_sum in *; simpl.
  - split; lra.
  - split; nra.
Qed.

Lemma amounts_sum_pos (l : list DepthLevel) :
  l <> [] -> Forall (fun x => 0 < amount x) l -> 0 < np_sum (map amount l).
Proof.
  intros Hne Hall. destruct Hall as [|x t Hx Ht]; [done|].
  assert (0 <= np_sum (map amount t)) as Hnn.
  { clear Hne Hx. induction Ht as [|y t Hy _ IH]; unfold np_sum in *; simpl; lra. }
  unfold np_sum in *; simpl. lra.
Qed.

Lemma ascending_nth (l : list DepthLevel) i j d :
  ascending l -> (i <= j < length l)%nat ->
  price (nth i l d) <= price (nth j l d).
Proof.
  intros Hs. apply Sorted_StronglySorted in Hs;
    [|intros a b c Hab Hbc; by apply Qle_trans with (price b)].
  revert i j. induction Hs as [|x t Ht IH Hx]; intros i j [Hij Hj]; simpl in *; [lia|].
  destruct i as [|i], j as [|j]; try lia.
  - apply Qle_refl.
  - rewrite Forall_forall in Hx. apply Hx, list_elem_of_In, nth_In. lia.
  - apply IH. lia.
Qed.


Lemma notionals_length (l : list DepthLevel) :
  length (cumsum (np_mul (map price l) (map amount l))) = length l.
Proof. by rewrite cumsum_length, np_mul_levels, length_map. Qed.

Lemma target_positive N : 0 < N -> Qle_bool N 0 = false.
Proof.
  intros HN. destruct (Qle_bool N 0) eqn:E; [|done].
  apply Qle_bool_iff in E. lra.
Qed.

Lemma Qpos_bool_true x : 0 < x -> Qpos_bool x = true.
Proof. intros Hx. unfold Qpos_bool. by rewrite target_positive. Qed.

(** With exact arithmetic, that is without the rounding of binary64: on a
    non-empty side with positive prices and amounts, ascending in price,
    that holds at least the target notional [N > 0], the formula of
    [calculate_vwap] gives a full fill, uses between one and all levels,
    and its VWAP lies between the price of the first level and the price of
    the last level used (index [levels_used - 1]). *)
Theorem calculate_vwap_fills_within_prices
    (levels : list DepthLevel) (N : Q) (side : string) :
  levels <> [] -> valid_levels levels -> ascending levels ->
  0 < N -> N <= book_notional levels ->
  fully_filled (calculate_vwap levels N side) = true /\
  (1 <= levels_used (calculate_vwap levels N side) <= length levels)%nat /\
  price_at levels 0 <= vwap_price (calculate_vwap levels N side) /\
  vwap_price (calculate_vwap levels N side)
    <= price_at levels (levels_used (calculate_vwap levels N side) - 1).
Proof.
  intros Hne Hvalid Hasc HN Htotal.
  unfold calculate_vwap.
  destruct levels as [|l0 rest] eqn:E; [done|]. rewrite <- E in *.
  assert (0 < length levels)%nat as Hlen by (subst; simpl; lia).
  clear E l0 rest.
  rewrite (target_positive N HN). cbv zeta.
  pose proof (notionals_length levels) as HlenN.
  destruct (where_ge _ N) as [|k tl] eqn:Hw.
  - (* the book holds N, so some cumulative notional reaches it *)
    exfalso. unfold where_ge in Hw.
    pose proof (where_ge_from_nil _ _ _ Hw (length levels - 1)%nat) as Hlt.
    rewrite HlenN in Hlt. specialize (Hlt ltac:(lia)).
    change (nth ?j ?a 0) with (at_ a j) in Hlt.
    rewrite cumsum_nth in Hlt by (rewrite np_mul_levels, length_map; lia).
    rewrite np_mul_levels in Hlt.
    replace (S (length levels - 1)) with (length (map (fun x => price x * amount x) levels))
      in Hlt by (rewrite length_map; lia).
    rewrite firstn_all in Hlt. unfold book_notional in Htotal. lra.
  - unfold where_ge in Hw.
    destruct (where_ge_from_head _ _ _ _ _ Hw) as (j & Hk & Hj & Hge & Hmin).
    simpl in Hk. subst j. rewrite HlenN in Hj.
    destruct (Nat.eqb k 0) eqn:Hk0.
    + apply Nat.eqb_eq in Hk0. subst k. simpl.
      repeat split; [lia|lia|apply Qle_refl|apply Qle_refl].
    + apply Nat.eqb_neq in Hk0.
      assert (Nat.ltb 0 k = true) as -> by (apply Nat.ltb_lt; lia).
      cbn [fully_filled levels_used vwap_price].
      replace (k + 1 - 1)%nat with k by lia.
      split; [done|]. split; [lia|].
      (* the levels before the last one, filled in full *)
      set (full := firstn k levels).
      assert (at_ (cumsum (np_mul (map price levels) (map amount levels))) (k - 1)
              == np_sum (map (fun x => price x * amount x) full)) as HF.
      { rewrite cumsum_nth by (rewrite np_mul_levels, length_map; lia).
        replace (S (k - 1)) with k by lia.
        by rewrite np_mul_levels, firstn_map. }
      assert (at_ (cumsum (map amount levels)) (k - 1)
              == np_sum (map amount full)) as HA.
      { rewrite cumsum_nth by (rewrite length_map; lia).
        replace (S (k - 1)) with k by lia. by rewrite firstn_map. }
      assert (np_sum (np_mul (firstn k (map price levels))
                             (firstn k (map amount levels)))
              == np_sum (map (fun x => price x * amount x) full)) as HW.
      { by rewrite !firstn_map, np_mul_levels. }
      assert (at_ (cumsum (np_mul (map price levels) (map amount levels))) (k - 1) < N)
        as Hbelow.
      { apply (Hmin (k - 1)%nat). lia. }
      (* prices of the levels used, against the first and the last *)
      set (d := mkDepthLevel 0 0).
      assert (forall i, price_at levels i = price (nth i levels d)) as Hat.
      { intros i. exact (map_nth price levels d i). }
      assert (0 < price_at levels k) as Hpk.
      { rewrite Hat. unfold valid_levels in Hvalid. rewrite List.Forall_forall in Hvalid.
        apply Hvalid, nth_In. lia. }
      assert (price_at levels 0 <= price_at levels k) as H0k.
      { rewrite !Hat. apply ascending_nth; [done|lia]. }
      assert (Forall (fun x => price_at levels 0 <= price x <= price_at levels k
                               /\ 0 <= amount x) full) as Hfull.
      { apply List.Forall_forall. intros x Hx.
        apply (In_nth _ _ d) in Hx as (i & Hi & <-).
        unfold full in Hi. rewrite length_firstn in Hi.
        unfold full. rewrite nth_firstn.
        assert (Nat.ltb i k = true) as -> by (apply Nat.ltb_lt; lia).
        rewrite !Hat. repeat split.
        - apply ascending_nth; [done|lia].
        - apply ascending_nth; [done|lia].
        - unfold valid_levels in Hvalid. rewrite List.Forall_forall in Hvalid.
          apply Qlt_le_weak, (Hvalid (nth i levels d)), nth_In. lia. }
      destruct (weighted_sum_bounds _ _ _ Hfull) as [Hlo Hhi].
      assert (0 < np_sum (map amount full)) as HApos.
      { apply amounts_sum_pos.
        - unfold full. destruct levels; [simpl in Hlen; lia|]. destruct k; [lia|done].
        - apply List.Forall_forall. intros x Hx. unfold full in Hx.
          unfold valid_levels in Hvalid. rewrite List.Forall_forall in Hvalid.
          apply Hvalid. rewrite <- (firstn_skipn k levels).
          apply in_or_app. by left. }
      fold (price_at levels k).
      set (cn := at_ (cumsum (np_mul (map price levels) (map amount levels))) (k - 1)) in *.
      set (ca := at_ (cumsum (map amount levels)) (k - 1)) in *.
      set (w := np_sum (np_mul (firstn k (map price levels)) (firstn k (map amount levels)))) in *.
      set (F := np_sum (map (fun x => price x * amount x) full)) in *.
      set (A := np_sum (map amount full)) in *.
      set (pk := price_at levels k) in *.
      set (p0 := price_at levels 0) in *.
      set (x := (N - cn) / pk).
      assert (0 < x) as Hx.
      { unfold x. apply Qlt_shift_div_l; lra. }
      assert (pk * x == N - cn) as Hpx.
      { unfold x. field. lra. }
      rewrite Qpos_bool_true by lra.
      split.
      * apply Qle_shift_div_l; [lra|]. nra.
      * apply Qle_shift_div_r; [lra|]. nra.
Qed.

(** The scenario [asks = [(100, 1), (101, 2), (102, 3)]], [N = 250]: the
    fill takes two levels and its VWAP lies between 100 and 101. *)
Lemma calculate_vwap_fills_within_prices_witness :
  fully_filled (calculate_vwap Scenarios.three_asks 250 "buy") = true /\
  (1 <= levels_used (calculate_vwap Scenarios.three_asks 250 "buy")
     <= length Scenarios.three_asks)%nat /\
  price_at Scenarios.three_asks 0
    <= vwap_price (calculate_vwap Scenarios.three_asks 250 "buy") /\
  vwap_price (calculate_vwap Scenarios.three_asks 250 "buy")
    <= price_at Scenarios.three_asks
         (levels_used (calculate_vwap Scenarios.three_asks 250 "buy") - 1).
Proof.
  apply calculate_vwap_fills_within_prices.
  - discriminate.
  - repeat constructor.
  - repeat constructor; unfold Qle; simpl; lia.
  - reflexivity.
  - unfold Qle; simpl; lia.
Defined.

(** C4. When the first level alone holds the target notional [N > 0],
    [calculate_vwap] returns exactly the first price as VWAP, the volume
    [N / price_1], one level used and a full fill, whatever the other levels
    are. *)
Theorem calculate_vwap_first_level_suffices
    (l : DepthLevel) (rest : list DepthLevel) (N : Q) (side : string) :
  0 < N -> N <= price l * amount l ->
  calculate_vwap (l :: rest) N side
  = mkVWAPResult (price l) (N / price l) 1 true.
Proof.
  intros HN Hfirst. unfold calculate_vwap.
  rewrite (target_positive N HN). cbv zeta.
  unfold where_ge. cbn [map np_mul cumsum where_ge_from].
  apply Qle_bool_iff in Hfirst. rewrite Hfirst. reflexivity.
Qed.

(** The scenario [asks = [(100, 1), (101, 2), (102, 3)]], [N = 50]:
    the result is (100, 0.5, 1, true). *)
Lemma calculate_vwap_first_level_witness :
  calculate_vwap Scenarios.three_asks 50 "buy"
    = mkVWAPResult 100 (50 / 100) 1 true /\
  50 / 100 == 0.5.
Proof.
  split; [|reflexivity].
  apply (calculate_vwap_first_level_suffices
           (Scenarios.level 100 1)
           [Scenarios.level 101 2; Scenarios.level 102 3] 50 "buy").
  - reflexivity.
  - unfold Qle; simpl; lia.
Defined.

(** C9. The [side] argument of [calculate_vwap] has no influence on the
    result, so [calculate_buy_vwap] and [calculate_sell_vwap] are the same
    function of the levels and the notional. *)
Theorem calculate_vwap_ignores_side
    (levels : list DepthLevel) (N : Q) (side1 side2 : string) :
  calculate_vwap levels N side1 = calculate_vwap levels N side2 /\
  calculate_buy_vwap levels N = calculate_sell_vwap levels N.
Proof. split; reflexivity. Qed.

(** The insufficient-liquidity scenario: [asks = [(100, 1)]], [N = 200]. *)
Example calculate_vwap_insufficient :
  calculate_vwap [Scenarios.level 100 1] 200 "buy"
  = mkVWAPResult (100 / 1) 1 1 false.
Proof. reflexivity. Qed.

End DepthProps.

(** ** engine.py and tri_engine.py: the cross scanner and the book store *)

Module EngineProps.
Import Models Runtime.


(** C1. Whenever [_check_opportunity] returns an opportunity, its selling
    price after fees exceeds its buying price after fees, its spread reaches
    [MIN_SPREAD_BPS], and the spread is the price difference over the
    midpoint [(buy + sell) / 2], times 10000. *)
Theorem check_opportunity_profitable
    (config : Config.Config) (registry : Registry.ExchangeRegistry)
    (clock : Clock) (symbol buy_exchange sell_exchange : string)
    (symbol_books : gmap string OrderBook)
    (st st' : Fees.FeeManager * nat) (opp : Opportunity) :
  Engine._check_opportunity config registry clock symbol buy_exchange
    sell_exchange symbol_books st = (Some opp, st') ->
  buy_price_after_fees opp < sell_price_after_fees opp /\
  Config.MIN_SPREAD_BPS config <= spread_bps opp /\
  spread_bps opp ==
    (sell_price_after_fees opp - buy_price_after_fees opp)
    / ((buy_price_after_fees opp + sell_price_after_fees opp) / 2) * 10000.
Proof.
  unfold Engine._check_opportunity, Engine._is_websocket_data.
  destruct (symbol_books !! buy_exchange) as [buy_book|]; [|run_st; done].
  destruct (symbol_books !! sell_exchange) as [sell_book|]; [|run_st; done].
  destruct (asks buy_book) as [|a0 asks_]; [run_st; done|].
  destruct (bids sell_book) as [|b0 bids_]; [run_st; done|].
  run_st. destruct st as [fm i].
  destruct (Fees.get_fees registry buy_exchange (Some symbol) fm) as [buy_fees fm1].
  destruct (Fees.get_fees registry sell_exchange (Some symbol) fm1) as [sell_fees fm2].
  set (buy_vwap := Depth.calculate_buy_vwap (a0 :: asks_) _).
  set (sell_vwap := Depth.calculate_sell_vwap (b0 :: bids_) _).
  destruct (fully_filled buy_vwap); simpl; [|done].
  destruct (fully_filled sell_vwap); simpl; [|done].
  destruct (Qle_bool _ _) eqn:Hgain; [done|].
  destruct (Qle_bool (Config.MIN_SPREAD_BPS config) _) eqn:Hmin; simpl; [|done].
  intros [= <- _]. cbn [buy_price_after_fees sell_price_after_fees spread_bps].
  split; [|split].
  - apply Qnot_le_lt. intros Hle. apply Qle_bool_iff in Hle. congruence.
  - by apply Qle_bool_iff.
  - reflexivity.
Qed.

(** The cross-detection scenario: buying on A at 50 050 and selling on B at
    50 149.8 after fees, a spread of about 19.9 bps over the threshold 10. *)
Lemma check_opportunity_profitable_witness :
  (Engine._check_opportunity Scenarios.cross_config Scenarios.cross_registry
     Scenarios.still_clock "BTC/USDT" "exchange_a" "exchange_b"
     Scenarios.cross_books Scenarios.cross_start).1
    = Some Scenarios.cross_opportunity /\
  buy_price_after_fees Scenarios.cross_opportunity
    < sell_price_after_fees Scenarios.cross_opportunity /\
  Config.MIN_SPREAD_BPS Scenarios.cross_config
    <= spread_bps Scenarios.cross_opportunity /\
  spread_bps Scenarios.cross_opportunity ==
    (sell_price_after_fees Scenarios.cross_opportunity
       - buy_price_after_fees Scenarios.cross_opportunity)
    / ((buy_price_after_fees Scenarios.cross_opportunity
          + sell_price_after_fees Scenarios.cross_opportunity) / 2) * 10000.
Proof.
  split; [vm_compute; reflexivity|].
  apply (check_opportunity_profitable
           Scenarios.cross_config Scenarios.cross_registry
           Scenarios.still_clock "BTC/USDT" "exchange_a" "exchange_b"
           Scenarios.cross_books Scenarios.cross_start
           (Engine._check_opportunity Scenarios.cross_config
              Scenarios.cross_registry Scenarios.still_clock "BTC/USDT"
              "exchange_a" "exchange_b" Scenarios.cross_books
              Scenarios.cross_start).2
           Scenarios.cross_opportunity).
  vm_compute. reflexivity.
Defined.

(** With the threshold at 30 bps the same books yield nothing. *)
Example check_opportunity_below_threshold :
  (Engine._check_opportunity (Config.mkConfig 30 30 100 [] [])
     Scenarios.cross_registry Scenarios.still_clock "BTC/USDT" "exchange_a"
     "exchange_b" Scenarios.cross_books Scenarios.cross_start).1 = None.
Proof. vm_compute. reflexivity. Qed.

(** C10. [update_order_book], on the cross-exchange engine and on the
    triangular engine, stores the snapshot under its own
    (exchange, symbol) key and changes nothing else: the book under every
    other key and every other field of the engine stay as they were. *)
Theorem update_order_book_frame (B : OrderBook) :
  (forall (e : Engine.ArbitrageEngine),
     Engine.order_books (Engine.update_order_book B e)
       !! (ob_exchange B, ob_symbol B) = Some B /\
     (forall key, key <> (ob_exchange B, ob_symbol B) ->
        Engine.order_books (Engine.update_order_book B e) !! key
        = Engine.order_books e !! key) /\
     Engine.last_scan_time (Engine.update_order_book B e)
       = Engine.last_scan_time e) /\
  (forall (e : TriEngine.TriangularArbitrageEngine),
     TriEngine.order_books (TriEngine.update_order_book B e)
       !! (ob_exchange B, ob_symbol B) = Some B /\
     (forall key, key <> (ob_exchange B, ob_symbol B) ->
        TriEngine.order_books (TriEngine.update_order_book B e) !! key
        = TriEngine.order_books e !! key) /\
     TriEngine.triangular_paths (TriEngine.update_order_book B e)
       = TriEngine.triangular_paths e /\
     TriEngine.path_cache_time (TriEngine.update_order_book B e)
       = TriEngine.path_cache_time e /\
     TriEngine.last_scan_time (TriEngine.update_order_book B e)
       = TriEngine.last_scan_time e).
Proof.
  split; intros e; simpl.
  - split; [apply lookup_insert_eq|]. split; [|done].
    intros key Hkey. by apply lookup_insert_ne.
  - split; [apply lookup_insert_eq|]. split; [|done].
    intros key Hkey. by apply lookup_insert_ne.
Qed.

End EngineProps.

(** ** config.py and fees.py: environment overrides *)

Module FeeProps.
Import Models Runtime StringProps Fees.

Lemma override_name_target (V : string) (k : FeeKind) :
  plain_name V = true ->
  Config.override_target (upper V +:+ kind_marker k) = Some (V, kind_key k).
Proof.
  intros HV. unfold Config.override_target.
  assert (contains "_TAKER_FEE" (upper V +:+ kind_marker k)
          || contains "_MAKER_FEE" (upper V +:+ kind_marker k) = true) as ->.
  { destruct k; cbn [kind_marker].
    - by rewrite contains_suffix.
    - rewrite (contains_suffix _ "_MAKER_FEE"). apply orb_true_r. }
  destruct k; cbn [kind_marker kind_key].
  - rewrite (split_on_plain_prefix V "_TAKER_FEE" ["TAKER"; "FEE"]) by done.
    simpl. by rewrite lower_upper_plain.
  - rewrite (split_on_plain_prefix V "_MAKER_FEE" ["MAKER"; "FEE"]) by done.
    simpl. by rewrite lower_upper_plain.
Qed.

(** [override_step] in terms of the slot the name addresses. *)
Lemma override_step_target py_float ov key value :
  Config.override_step py_float ov (key, value) =
  match Config.override_target key with
  | None => ov
  | Some (exchange, fee_type) =>
      let ov1 := match ov !! exchange with
                 | Some _ => ov
                 | None => <[exchange := ∅]> ov
                 end in
      match py_float value with
      | Some v => <[exchange := <[fee_type := v]> (default ∅ (ov1 !! exchange))]> ov1
      | None => ov1
      end
  end.
Proof.
  unfold Config.override_step, Config.override_target.
  destruct (_ || _); [|done]. by destruct (3 <=? _)%nat.
Qed.

Lemma override_step_sets py_float ov key value V kk q :
  Config.override_target key = Some (V, kk) -> py_float value = Some q ->
  Config.holds (Config.override_step py_float ov (key, value)) V kk q.
Proof.
  intros Ht Hv. rewrite override_step_target, Ht. cbn zeta. rewrite Hv.
  eexists. rewrite lookup_insert_eq. split; [done|]. by rewrite lookup_insert_eq.
Qed.

Lemma override_step_keeps py_float ov key value V kk q :
  Config.override_target key <> Some (V, kk) ->
  Config.holds ov V kk q ->
  Config.holds (Config.override_step py_float ov (key, value)) V kk q.
Proof.
  intros Ht (m & Hm & Hq). rewrite override_step_target.
  destruct (Config.override_target key) as [[ex ft]|]; [|by exists m].
  cbn zeta. destruct (decide (ex = V)) as [->|Hex].
  - rewrite Hm. destruct (py_float value) as [v|]; [|by exists m].
    eexists. rewrite lookup_insert_eq. split; [done|].
    rewrite Hm. simpl. rewrite lookup_insert_ne; [done|]. congruence.
  - exists m. split; [|done].
    destruct (py_float value) as [v|]; destruct (ov !! ex);
      rewrite ?lookup_insert_ne by done; done.
Qed.

Lemma overrides_fold_keeps py_float post ov V kk q :
  Forall (fun kv : string * string =>
            Config.override_target kv.1 <> Some (V, kk)) post ->
  Config.holds ov V kk q ->
  Config.holds (fold_left (Config.override_step py_float) post ov) V kk q.
Proof.
  intros Hpost. revert ov.
  induction Hpost as [|[key value] post Hkv _ IH]; intros ov Hov; simpl; [done|].
  apply IH. by apply override_step_keeps.
Qed.

Lemma get_fee_overrides_last py_float pre post key value V kk q :
  Config.override_target key = Some (V, kk) -> py_float value = Some q ->
  Forall (fun kv : string * string =>
            Config.override_target kv.1 <> Some (V, kk)) post ->
  Config.holds (Config.get_fee_overrides py_float (pre ++ (key, value) :: post)) V kk q.
Proof.
  intros Ht Hv Hpost. unfold Config.get_fee_overrides.
  rewrite fold_left_app. simpl.
  apply overrides_fold_keeps; [done|]. by apply override_step_sets.
Qed.

(** A lookup that misses the cache applies the override table. *)
Lemma get_fees_applies_override registry V symbol fm k q :
  fee_cache fm !! (V +:+ "_" +:+ symbol_or_default symbol) = None ->
  Config.holds (env_overrides fm) V (kind_key k) q ->
  kind_fee k (get_fees registry V symbol fm).1 = q /\
  source (get_fees registry V symbol fm).1 = SrcEnv.
Proof.
  intros Hmiss (m & Hm & Hq). unfold get_fees. rewrite Hmiss, Hm. simpl.
  destruct k; cbn [kind_key kind_fee] in *.
  - rewrite Hq. done.
  - rewrite Hq. by destruct (m !! "taker").
Qed.

(** A repeated lookup returns the cached record. *)
Lemma get_fees_cached registry V symbol fm :
  (get_fees registry V symbol (get_fees registry V symbol fm).2).1
  = (get_fees registry V symbol fm).1.
Proof.
  unfold get_fees at 2 3.
  destruct (fee_cache fm !! _) as [cached|] eqn:E; simpl.
  - unfold get_fees. by rewrite E.
  - unfold get_fees. simpl. by rewrite lookup_insert_eq.
Qed.

(** C8, amended. For a venue name [V] without underscore and upper-case
    letter, when the environment defines [UPPER(V)_TAKER_FEE] (respectively
    [UPPER(V)_MAKER_FEE]) with a value that parses as a real in [0, 1), and
    no later variable of the environment addresses the same venue and fee
    kind, the fee lookup for [V] on a fee manager created under that
    environment returns that value as the taker (respectively maker) fee
    with provenance [env], whatever the public or built-in fees are. *)
Theorem env_fee_override_applies
    (py_float : string -> option Q) (registry : Registry.ExchangeRegistry)
    (pre post : list (string * string)) (V value : string) (q : Q)
    (k : FeeKind) (symbol : option string) :
  plain_name V = true ->
  py_float value = Some q -> 0 <= q < 1 ->
  Forall (fun kv : string * string =>
            Config.override_target kv.1 <> Some (V, kind_key k)) post ->
  kind_fee k
    (get_fees registry V symbol
       (init py_float (pre ++ (upper V +:+ kind_marker k, value) :: post))).1
    = q /\
  source
    (get_fees registry V symbol
       (init py_float (pre ++ (upper V +:+ kind_marker k, value) :: post))).1
    = SrcEnv.
Proof.
  intros HV Hparse _ Hpost.
  apply get_fees_applies_override; [done|].
  apply get_fee_overrides_last; [|done|done].
  by apply override_name_target.
Qed.

(** The scenario [BINANCE_TAKER_FEE=0.0005]: the taker fee of binance is
    0.0005 with provenance [env], not the built-in one. *)
Lemma env_fee_override_witness :
  kind_fee Taker
    (get_fees Scenarios.no_exchanges "binance" None
       (init decimal_literal Scenarios.override_environ)).1 = 0.0005 /\
  source
    (get_fees Scenarios.no_exchanges "binance" None
       (init decimal_literal Scenarios.override_environ)).1 = SrcEnv.
Proof.
  apply (env_fee_override_applies decimal_literal Scenarios.no_exchanges
           [("PATH", "/usr/bin")] [] "binance" "0.0005" 0.0005 Taker None).
  - reflexivity.
  - reflexivity.
  - split; unfold Qle, Qlt; simpl; lia.
  - constructor.
Defined.

(** Without the proviso on later variables the override can be lost: a later
    variable of the environment may address the same venue and fee kind; with [BINANCE_TAKER_FEE=0.0005]
    followed by [BINANCE_TAKER_FEE_OLD=0.002] the lookup returns 0.002. *)
Lemma env_fee_override_shadowed :
  In ("BINANCE_TAKER_FEE", "0.0005") Scenarios.shadowed_environ /\
  decimal_literal "0.0005" = Some 0.0005 /\
  0 <= 0.0005 /\ 0.0005 < 1 /\
  ~ taker
      (get_fees Scenarios.no_exchanges "binance" None
         (init decimal_literal Scenarios.shadowed_environ)).1 == 0.0005.
Proof.
  split; [by left|]. split; [reflexivity|].
  split; [unfold Qle; simpl; lia|]. split; [reflexivity|].
  vm_compute. discriminate.
Qed.

(** A venue name with an underscore is never addressed: the name splits into
    the venue [gate] and the fee kind [io]. *)
Example env_fee_override_underscore :
  Config.override_target "GATE_IO_TAKER_FEE" = Some ("gate", "io") /\
  source
    (get_fees Scenarios.no_exchanges "gate_io" None
       (init decimal_literal [("GATE_IO_TAKER_FEE", "0.001")])).1 = SrcDefault.
Proof. split; vm_compute; reflexivity. Qed.

End FeeProps.

(** ** registry.py: the enumeration of triangular cycles *)

Module RegistryProps.
Import Models Runtime SpecText Registry.

Lemma append_to_lookup k v d k' (l : list string) :
  append_to k v d !! k' = Some l ->
  (k' = k /\ l = default [] (d !! k) ++ [v]) \/ (k' <> k /\ d !! k' = Some l).
Proof.
  unfold append_to. intros H. destruct (decide (k = k')) as [->|Hne].
  - rewrite lookup_insert_eq in H. left. by injection H as <-.
  - rewrite lookup_insert_ne in H by done. right. split; [congruence|done].
Qed.

Lemma group_step_sound X all acc item :
  In item all -> grouped_from all acc -> grouped_from all (group_step X acc item).
Proof.
  intros Hin [Hb Hq]. unfold group_step. destruct acc as [sbb sbq].
  destruct (mm_active item.2) eqn:Hact; simpl; [|by split].
  case_bool_decide; [by split|].
  assert (offers all (mm_base item.2) (mm_quote item.2)) as Hoff.
  { by exists item. }
  split; simpl in *.
  - intros b l q Hl Hql.
    apply append_to_lookup in Hl as [[-> ->]|[_ Hl]]; [|by eapply Hb].
    apply in_app_or in Hql as [Hql|[<-|[]]]; [|done].
    destruct (sbb !! mm_base item.2) as [l0|] eqn:E; simpl in Hql; [|done].
    by eapply Hb.
  - intros q l b Hl Hbl.
    apply append_to_lookup in Hl as [[-> ->]|[_ Hl]]; [|by eapply Hq].
    apply in_app_or in Hbl as [Hbl|[<-|[]]]; [|done].
    destruct (sbq !! mm_quote item.2) as [l0|] eqn:E; simpl in Hbl; [|done].
    by eapply Hq.
Qed.

Lemma group_fold_sound X all ms acc :
  (forall item, In item ms -> In item all) ->
  grouped_from all acc -> grouped_from all (fold_left (group_step X) ms acc).
Proof.
  revert acc. induction ms as [|item ms IH]; intros acc Hsub Hacc; simpl; [done|].
  apply IH.
  - intros i Hi. apply Hsub. by right.
  - apply group_step_sound; [|done]. apply Hsub. by left.
Qed.

Lemma not_excluded (X : list string) (a : string) :
  bool_decide (a ∈ (list_to_set X : gset string)) = false -> ~ In a X.
Proof.
  intros H Hin. apply bool_decide_eq_false in H. apply H.
  apply elem_of_list_to_set, list_elem_of_In. done.
Qed.

(** C7, amended. Every cycle [(b, a2, a3)] that [get_triangular_symbols]
    returns has [b] among the configured bases, [a2] different from [b] and
    not an excluded quote, [a3] different from [b] and from [a2] and not an
    excluded quote, and the venue lists the active markets [b/a2], [a2/a3]
    and [b/a3], which enable the hops [b -> a2], [a2 -> a3] and
    [a3 -> b]. *)
Theorem triangular_cycles_sound
    (self : ExchangeRegistry) (X : list string) (venue : string)
    (B : list string) (b a2 a3 : string) :
  In (b, a2, a3) (get_triangular_symbols self X venue B) ->
  In b B /\
  a2 <> b /\ ~ In a2 X /\
  a3 <> b /\ a3 <> a2 /\ ~ In a3 X /\
  exists ms, markets self !! venue = Some ms /\
    offers ms b a2 /\ offers ms a2 a3 /\ offers ms b a3 /\
    enables_hop ms b a2 /\ enables_hop ms a2 a3 /\ enables_hop ms a3 b.
Proof.
  unfold get_triangular_symbols.
  destruct (markets self !! venue) as [ms|]; [|done].
  pose proof (group_fold_sound (list_to_set X) ms ms (∅, ∅) (fun _ H => H)) as Hg.
  destruct (fold_left _ ms (∅, ∅)) as [sbb sbq].
  destruct Hg as [Hbase Hquote].
  { split; intros ? ? ? Hl; simpl in Hl; by rewrite lookup_empty in Hl. }
  simpl in Hbase, Hquote.
  intros Hin. apply in_flat_map in Hin as (base & HbaseB & Hin).
  destruct (sbb !! base) as [reach1|] eqn:E1; [|done].
  apply in_flat_map in Hin as (asset2 & Hr1 & Hin).
  destruct (String.eqb asset2 base) eqn:Eab; [done|].
  destruct (bool_decide (asset2 ∈ _)) eqn:Ex2; [done|].
  destruct (sbb !! asset2) as [reach2|] eqn:E2; [|done].
  apply in_flat_map in Hin as (asset3 & Hr2 & Hin).
  destruct (String.eqb asset3 base) eqn:Ecb; [done|].
  destruct (String.eqb asset3 asset2) eqn:Eca; [done|]. simpl in Hin.
  destruct (bool_decide (asset3 ∈ _)) eqn:Ex3; [done|].
  destruct (sbq !! asset3) as [bases|] eqn:E3; [|done].
  case_bool_decide as Hbb; [|done].
  destruct Hin as [[= -> -> ->]|[]].
  apply String.eqb_neq in Eab, Ecb, Eca.
  apply not_excluded in Ex2, Ex3.
  assert (offers ms b a2) as H1 by (by eapply Hbase).
  assert (offers ms a2 a3) as H2 by (by eapply Hbase).
  assert (offers ms b a3) as H3.
  { eapply Hquote; [done|]. by apply list_elem_of_In. }
  repeat split; try done.
  exists ms. repeat split; try done; unfold enables_hop; auto.
Qed.

(** The venue listing BTC/USDT, USDT/TRY and BTC/TRY has the cycle
    BTC -> USDT -> TRY. *)
Lemma triangular_cycles_sound_witness :
  In "BTC" Scenarios.default_bases /\
  "USDT" <> "BTC" /\ ~ In "USDT" [] /\
  "TRY" <> "BTC" /\ "TRY" <> "USDT" /\ ~ In "TRY" [] /\
  exists ms, markets Scenarios.try_registry !! "venue" = Some ms /\
    offers ms "BTC" "USDT" /\ offers ms "USDT" "TRY" /\ offers ms "BTC" "TRY" /\
    enables_hop ms "BTC" "USDT" /\ enables_hop ms "USDT" "TRY" /\
    enables_hop ms "TRY" "BTC".
Proof.
  apply (triangular_cycles_sound Scenarios.try_registry [] "venue"
           Scenarios.default_bases "BTC" "USDT" "TRY").
  vm_compute. left. reflexivity.
Defined.

(** The enumeration rule of the specification does not hold there: the
    cycle returned passes through USDT, which is one of the configured
    bases. *)
Lemma triangular_cycle_through_base :
  In ("BTC", "USDT", "TRY")
     (get_triangular_symbols Scenarios.try_registry [] "venue"
        Scenarios.default_bases) /\
  ~ spec_cycle Scenarios.default_bases [] Scenarios.try_markets
      ("BTC", "USDT", "TRY").
Proof.
  split.
  - vm_compute. by left.
  - intros (_ & Ha2 & _). apply Ha2. simpl. by left.
Qed.

End RegistryProps.

(** ** models.py: dedup keys *)

Module KeyProps.
Import Models Runtime SpecText.

Lemma append_assoc (a b c : string) : (a +:+ b) +:+ c = a +:+ (b +:+ c).
Proof.
  induction a as [|x a IH]; [done|].
  change (String x ((a +:+ b) +:+ c) = String x (a +:+ (b +:+ c))).
  by rewrite IH.
Qed.

Lemma py_int_floor_or_ceiling (x : Q) :
  py_int x = if Qle_bool 0 x then Qfloor x else Qceiling x.
Proof.
  destruct x as [n d]. unfold py_int, Qceiling, Qfloor, Qle_bool, Qopp. simpl.
  rewrite ?Z.mul_1_r. change (0 * Z.pos d)%Z with 0%Z.
  destruct (Z.leb_spec 0 n) as [Hn|Hn].
  - apply Z.quot_div_nonneg; lia.
  - rewrite <- (Z.opp_involutive n) at 1. rewrite Z.quot_opp_l by lia.
    f_equal. apply Z.quot_div_nonneg; lia.
Qed.

Example cross_key_example :
  dedupe_key Scenarios.cross_opportunity
    = "CROSS_exchange_a_exchange_b_BTC/USDT_100" /\
  tri_dedupe_key Scenarios.tri_opportunity = "TRI_venue_USDT_BTC_ETH_100".
Proof. split; reflexivity. Qed.

(** C6, amended. The dedup key of a cross opportunity is
    [CROSS_buy_venue_sell_venue_symbol_n] and that of a triangular
    opportunity is [TRI_venue_base_a2_a3_n]: the fields joined by the
    underscore character, where [n] is the notional truncated toward zero
    as [int] does (its floor when the notional is not negative, its ceiling
    otherwise). *)
Theorem dedupe_keys_join_with_underscore (o : Opportunity) (t : TriOpportunity) :
  dedupe_key o
    = join "_" ["CROSS"; buy_exchange o; sell_exchange o; op_symbol o;
                py_str_int (py_int (op_notional o))] /\
  tri_dedupe_key t
    = join "_" ["TRI"; tri_exchange t; (path t).1.1; (path t).1.2; (path t).2;
                py_str_int (py_int (tri_notional t))] /\
  py_int (op_notional o)
    = (if Qle_bool 0 (op_notional o) then Qfloor (op_notional o)
       else Qceiling (op_notional o)) /\
  py_int (tri_notional t)
    = (if Qle_bool 0 (tri_notional t) then Qfloor (tri_notional t)
       else Qceiling (tri_notional t)).
Proof.
  split; [reflexivity|]. split; [|split; apply py_int_floor_or_ceiling].
  unfold tri_dedupe_key. destruct (path t) as [[b a2] a3].
  cbn [join path_items fst snd].
  rewrite !append_assoc. reflexivity.
Qed.

(** The keys of the example opportunities are not the pipe-separated keys
    the specification writes. *)
Lemma dedupe_key_differs_from_spec :
  dedupe_key Scenarios.cross_opportunity
    <> spec_cross_key Scenarios.cross_opportunity /\
  tri_dedupe_key Scenarios.tri_opportunity
    <> spec_tri_key Scenarios.tri_opportunity.
Proof. split; vm_compute; discriminate. Qed.

End KeyProps.

(** ** alert.py: deduplication on the producer side *)

Module AlertProps.
Import Models Runtime Alert.


Section Dedup.

Variable clock : Clock.
Variable format_cross : Opportunity -> string.
Variable format_tri : TriOpportunity -> string.

Abbreviation submit := (Alert.submit clock format_cross format_tri).
Abbreviation run := (Alert.run clock format_cross format_tri).

Abbreviation message := (Alert.message format_cross format_tri).

(** The three ways a submission ends. *)
Lemma submit_cases (s : Submission) (am : AlertManager) (n : nat) :
  submit s (am, n) =
    if negb (enabled am) then (false, (am, n))
    else
      match cleaned (clock n) (sent_alerts am) !! submission_key s with
      | Some t =>
          if (clock n - t <? alert_ttl)%Z
          then (false, (with_sent_alerts (cleaned (clock n) (sent_alerts am)) am, S n))
          else (true,
                (mkAlertManager (enabled am)
                   (<[submission_key s := clock (S n)]>
                      (cleaned (clock n) (sent_alerts am)))
                   (last_send_time am) (send_queue am ++ [message s]),
                 S (S n)))
      | None =>
          (true,
           (mkAlertManager (enabled am)
              (<[submission_key s := clock (S n)]>
                 (cleaned (clock n) (sent_alerts am)))
              (last_send_time am) (send_queue am ++ [message s]),
            S (S n)))
      end.
Proof.
  destruct am as [en sent last queue]. cbn [enabled sent_alerts last_send_time send_queue].
  destruct s as [o|o].
  - set (key := submission_key (CrossAlert o)).
    unfold Alert.submit, send_cross_exchange_alert, _is_duplicate, _mark_sent,
      _clean_old_alerts, queue_put, with_sent_alerts, Alert.message; run_st.
    simpl. destruct en; simpl; [|done].
    change (dedupe_key o) with key.
    destruct (cleaned (clock n) sent !! key) as [t|]; simpl; [|done].
    by destruct (clock n - t <? alert_ttl)%Z.
  - set (key := submission_key (TriAlert o)).
    unfold Alert.submit, send_triangular_alert, _is_duplicate, _mark_sent,
      _clean_old_alerts, queue_put, with_sent_alerts, Alert.message; run_st.
    simpl. destruct en; simpl; [|done].
    change (tri_dedupe_key o) with key.
    destruct (cleaned (clock n) sent !! key) as [t|]; simpl; [|done].
    by destruct (clock n - t <? alert_ttl)%Z.
Qed.


Hypothesis clock_monotone : forall a b, (a <= b)%nat -> (clock a <= clock b)%Z.

Lemma submit_tick (s : Submission) (am : AlertManager) (n : nat) :
  (n <= (submit s (am, n)).2.2)%nat.
Proof.
  rewrite submit_cases. destruct (negb _); simpl; [lia|].
  destruct (cleaned _ _ !! _) as [t|]; simpl; [|lia].
  destruct (_ <? _)%Z; simpl; lia.
Qed.

(** An outcome of a run arrived at a clock reading not before the start. *)
Lemma run_arrival (subs : list Submission) (am : AlertManager) (n : nat) j oj :
  (run subs (am, n)).1 !! j = Some oj ->
  exists n', (n <= n')%nat /\ out_arrival oj = clock n'.
Proof.
  revert am n j. induction subs as [|s rest IH]; intros am n j; simpl; [done|].
  pose proof (submit_tick s am n) as Htick.
  destruct (submit s (am, n)) as [queued [am' n']] eqn:Es.
  destruct (run rest (am', n')) as [outs st''] eqn:Er. simpl in *.
  destruct j as [|j]; simpl.
  - intros [= <-]. exists n. simpl. split; [lia|done].
  - intros Hj. specialize (IH am' n' j). rewrite Er in IH.
    destruct (IH Hj) as (m & Hm & ->). exists m. split; [lia|done].
Qed.

Lemma cleaned_keeps now sent k t :
  sent !! k = Some t -> (now - t < alert_ttl)%Z -> cleaned now sent !! k = Some t.
Proof.
  intros Hk Hage. unfold cleaned. apply map_lookup_filter_Some. split; [done|].
  simpl. lia.
Qed.

(** While a key is recorded less than the TTL ago, a submission with that
    key is dropped, and the record stays whatever is submitted. *)
Lemma submit_recorded (s : Submission) (st : AlertManager * nat) k since :
  recorded k since st -> (clock st.2 - since < alert_ttl)%Z ->
  recorded k since (submit s st).2 /\
  (submission_key s = k -> (submit s st).1 = false).
Proof.
  destruct st as [am n]. intros (t & Hk & Ht) Hage. simpl in *.
  rewrite submit_cases. destruct (negb (enabled am)); simpl.
  { split; [by exists t|done]. }
  assert (cleaned (clock n) (sent_alerts am) !! k = Some t) as Hkept.
  { apply cleaned_keeps; [done|lia]. }
  destruct (decide (submission_key s = k)) as [->|Hne].
  - rewrite Hkept.
    assert ((clock n - t <? alert_ttl)%Z = true) as -> by (apply Z.ltb_lt; lia).
    simpl. split; [by exists t|done].
  - split; [|done].
    destruct (cleaned _ _ !! submission_key s) as [t'|]; simpl.
    + destruct (_ <? _)%Z; simpl; exists t; (split; [|done]); simpl;
        rewrite ?lookup_insert_ne by done; exact Hkept.
    + exists t. split; [|done]. simpl. by rewrite lookup_insert_ne.
Qed.

Lemma run_suppressed (subs : list Submission) (st : AlertManager * nat) k since j oj :
  recorded k since st ->
  (run subs st).1 !! j = Some oj -> out_key oj = k ->
  (out_arrival oj - since < alert_ttl)%Z ->
  out_queued oj = false.
Proof.
  revert st j. induction subs as [|s rest IH]; intros [am n] j Hrec; simpl; [done|].
  pose proof (submit_tick s am n) as Htick.
  destruct (submit s (am, n)) as [queued [am' n']] eqn:Es.
  destruct (run rest (am', n')) as [outs st''] eqn:Er. simpl in *.
  destruct j as [|j]; simpl.
  - intros [= <-]. simpl. intros Hkey Hage.
    destruct (submit_recorded s (am, n) k since Hrec Hage) as [_ Hdrop].
    rewrite Es in Hdrop. by apply Hdrop.
  - intros Hj Hkey Hage.
    assert (outs = (run rest (am', n')).1) as Houts by (by rewrite Er).
    rewrite Houts in Hj.
    destruct (run_arrival _ _ _ _ _ Hj) as (m & Hm & Harr).
    assert (clock n <= clock m)%Z by (apply clock_monotone; lia).
    destruct (submit_recorded s (am, n) k since Hrec) as [Hrec' _];
      [simpl; lia|].
    rewrite Es in Hrec'. by apply (IH (am', n') j Hrec').
Qed.

(** A queued submission leaves its key recorded at its arrival or later. *)
Lemma submit_queued_recorded (s : Submission) (am : AlertManager) (n : nat) :
  (submit s (am, n)).1 = true ->
  recorded (submission_key s) (clock n) (submit s (am, n)).2.
Proof.
  rewrite submit_cases. destruct (negb _); simpl; [done|].
  assert (clock n <= clock (S n))%Z by (apply clock_monotone; lia).
  destruct (cleaned _ _ !! _) as [t|]; simpl.
  - destruct (_ <? _)%Z; simpl; [done|]. intros _.
    exists (clock (S n)). split; [simpl; apply lookup_insert_eq|done].
  - intros _. exists (clock (S n)). split; [simpl; apply lookup_insert_eq|done].
Qed.

Lemma run_no_duplicate (subs : list Submission) (st : AlertManager * nat)
    (i j : nat) (oi oj : Outcome) :
  (run subs st).1 !! i = Some oi -> (run subs st).1 !! j = Some oj ->
  (i < j)%nat -> out_key oi = out_key oj -> out_queued oi = true ->
  (out_arrival oj - out_arrival oi < alert_ttl)%Z ->
  out_queued oj = false.
Proof.
  revert st i j. induction subs as [|s rest IH]; intros [am n] i j; simpl; [done|].
  destruct (submit s (am, n)) as [queued [am' n']] eqn:Es.
  destruct (run rest (am', n')) as [outs st''] eqn:Er. simpl.
  assert (outs = (run rest (am', n')).1) as Houts by (by rewrite Er).
  destruct i as [|i], j as [|j]; simpl; try lia.
  - intros [= <-] Hj _. simpl. intros Hkey -> Hage.
    pose proof (submit_queued_recorded s am n) as Hrec.
    rewrite Es in Hrec. specialize (Hrec eq_refl). simpl in Hrec.
    rewrite Houts in Hj. by eapply run_suppressed.
  - intros Hi Hj Hij. rewrite Houts in Hi, Hj.
    apply (IH (am', n') i j Hi Hj). lia.
Qed.

(** C5, amended. Under a clock that does not run backwards, in any
    sequence of submissions by the single producer, from any state of the
    manager, no two submissions with the same dedup key are both queued
    when the second arrives less than 30 seconds after the first; and a
    submission whose key the table records less than 30 seconds before its
    arrival returns [False] and queues nothing. *)
Theorem alerts_deduplicated_within_ttl :
  (forall (subs : list Submission) (st : AlertManager * nat)
          (i j : nat) (oi oj : Outcome),
     (run subs st).1 !! i = Some oi -> (run subs st).1 !! j = Some oj ->
     (i < j)%nat -> out_key oi = out_key oj ->
     (out_arrival oj - out_arrival oi < seconds 30)%Z ->
     ~ (out_queued oi = true /\ out_queued oj = true)) /\
  (forall (s : Submission) (am : AlertManager) (n : nat) (t : Z),
     sent_alerts am !! submission_key s = Some t ->
     (clock n - t < seconds 30)%Z ->
     (submit s (am, n)).1 = false /\
     send_queue (submit s (am, n)).2.1 = send_queue am).
Proof.
  split.
  - intros subs st i j oi oj Hi Hj Hij Hkey Hage [Hqi Hqj].
    pose proof (run_no_duplicate subs st i j oi oj Hi Hj Hij Hkey Hqi Hage).
    congruence.
  - intros s am n t Hk Hage. rewrite submit_cases.
    destruct (negb (enabled am)); simpl; [done|].
    rewrite (cleaned_keeps _ _ _ _ Hk Hage).
    assert ((clock n - t <? alert_ttl)%Z = true) as -> by (by apply Z.ltb_lt).
    done.
Qed.

End Dedup.

Lemma second_clock_monotone (a b : nat) :
  (a <= b)%nat -> (Scenarios.second_clock a <= Scenarios.second_clock b)%Z.
Proof. unfold Scenarios.second_clock, seconds. lia. Qed.

(** The dedup scenario: the same cross opportunity submitted three times
    within a few seconds is queued once. *)
Lemma alerts_deduplicated_witness :
  map out_queued
    (Alert.run Scenarios.second_clock Scenarios.cross_text Scenarios.tri_text
       [CrossAlert Scenarios.cross_opportunity;
        CrossAlert Scenarios.cross_opportunity;
        CrossAlert Scenarios.cross_opportunity]
       (Alert.init true 0, 0%nat)).1 = [true; false; false] /\
  ~ (out_queued
       (mkOutcome "CROSS_exchange_a_exchange_b_BTC/USDT_100" 0 true) = true /\
     out_queued
       (mkOutcome "CROSS_exchange_a_exchange_b_BTC/USDT_100" 2000000 false)
       = true).
Proof.
  split; [vm_compute; reflexivity|].
  apply (proj1 (alerts_deduplicated_within_ttl Scenarios.second_clock
                  Scenarios.cross_text Scenarios.tri_text
                  second_clock_monotone)
           [CrossAlert Scenarios.cross_opportunity;
            CrossAlert Scenarios.cross_opportunity;
            CrossAlert Scenarios.cross_opportunity]
           (Alert.init true 0, 0%nat) 0%nat 1%nat).
  - vm_compute. reflexivity.
  - vm_compute. reflexivity.
  - lia.
  - reflexivity.
  - vm_compute. reflexivity.
Defined.

(** When the clock is set back between the check and the recording of the
    first submission, the same alert is queued twice, 29.5 seconds apart:
    the key is recorded at -1 s and has left the table, 30.5 seconds old,
    when the second submission arrives. *)
Lemma alerts_duplicated_under_backward_clock :
  exists oi oj : Outcome,
    (Alert.run Scenarios.backward_clock Scenarios.cross_text Scenarios.tri_text
       [CrossAlert Scenarios.cross_opportunity;
        CrossAlert Scenarios.cross_opportunity]
       (Alert.init true 0, 0%nat)).1 = [oi; oj] /\
    out_key oi = out_key oj /\
    (out_arrival oj - out_arrival oi < seconds 30)%Z /\
    out_queued oi = true /\ out_queued oj = true.
Proof.
  eexists _, _. split; [vm_compute; reflexivity|].
  repeat split; vm_compute; reflexivity.
Qed.

End AlertProps.

(** ** tri_engine.py: the leg simulator *)

Module TriProps.
Import Models Runtime Scenarios.

(** The side [_execute_leg] reports follows the caller's preferred side and
    the market it found: on the direct market [from/to] the preferred side
    itself, on the inverse market [to/from] the other one. *)
Lemma execute_leg_side (clock : Clock) (exchange from_asset to_asset : string)
    (amount : Q) (preferred_side : string) (fees : FeesPublic)
    (st st' : TriEngine.TriangularArbitrageEngine * nat)
    (got : Q) (symbol : string) (p : Q) (side : Side) :
  TriEngine._execute_leg clock exchange from_asset to_asset amount
    preferred_side fees st = (Some (got, symbol, p, side), st') ->
  (symbol = from_asset +:+ "/" +:+ to_asset /\
   side = if String.eqb preferred_side "buy" then Buy else Sell) \/
  (symbol = to_asset +:+ "/" +:+ from_asset /\
   side = if String.eqb preferred_side "buy" then Sell else Buy).
Proof.
  unfold TriEngine._execute_leg. run_st.
  destruct (TriEngine._get_order_book clock exchange _ st) as [book1 st1].
  destruct book1 as [book1|]; simpl.
  - unfold TriEngine.direct_block at 1.
    destruct (String.eqb preferred_side "buy") eqn:Hside.
    + destruct (fully_filled _).
      { intros [= <- <- <- <- <-]. by left. }
      destruct (TriEngine._get_order_book clock exchange _ st1) as [book2 st2].
      destruct book2 as [book2|]; simpl; [|done].
      unfold TriEngine.reverse_block. rewrite Hside.
      destruct (bids book2); [done|]. destruct (fully_filled _); [|done].
      intros [= <- <- <- <- <-]. by right.
    + destruct (bids book1); [done|]. destruct (fully_filled _).
      { intros [= <- <- <- <- <-]. by left. }
      destruct (TriEngine._get_order_book clock exchange _ st1) as [book2 st2].
      destruct book2 as [book2|]; simpl; [|done].
      unfold TriEngine.reverse_block. rewrite Hside.
      destruct (fully_filled _); [|done].
      intros [= <- <- <- <- <-]. by right.
  - destruct (TriEngine._get_order_book clock exchange _ st1) as [book2 st2].
    destruct book2 as [book2|]; simpl; [|done].
    unfold TriEngine.reverse_block.
    destruct (String.eqb preferred_side "buy") eqn:Hside.
    + destruct (bids book2); [done|]. destruct (fully_filled _); [|done].
      intros [= <- <- <- <- <-]. by right.
    + destruct (fully_filled _); [|done].
      intros [= <- <- <- <- <-]. by right.
Qed.

(** C3, the code at a hop whose direct market is on the book. The venue
    holds the book of BTC/USDT (best bid 49 990, best ask 50 000) and the hop
    is BTC -> USDT for 1 BTC. Issued the way hops 1 and 2 are, with preferred
    side [buy], the simulator executes it as a buy against the asks, at
    50 000, and returns 1 / 50 000 less the fee; issued the way hop 3 is,
    with preferred side [sell], it executes it as a sell against the bids,
    at 49 990, and returns 49 990 less the fee. *)
Theorem execute_leg_direct_market_by_preference :
  (TriEngine._execute_leg still_clock "venue" "BTC" "USDT" 1 "buy"
     (plain_fees "venue") (tri_engine, 0%nat)).1
    = Some (999 # 50000000, "BTC/USDT", 50000, Buy) /\
  (TriEngine._execute_leg still_clock "venue" "BTC" "USDT" 1 "sell"
     (plain_fees "venue") (tri_engine, 0%nat)).1
    = Some (2496501099900 # 49990000, "BTC/USDT", 49990, Sell) /\
  2496501099900 # 49990000 == 49990 * (1 - 0.001).
Proof. repeat split; vm_compute; reflexivity. Qed.

(** The same book serving the hop USDT -> BTC for 100 USDT through the
    inverse market: with preferred side [buy] the simulator sells against
    the bids, with preferred side [sell] it buys against the asks. *)
Example execute_leg_inverse_market_by_preference :
  (TriEngine._execute_leg still_clock "venue" "USDT" "BTC" 100 "buy"
     (plain_fees "venue") (tri_engine, 0%nat)).1
    = Some (99900 # 2499000100000, "BTC/USDT", 49990, Sell) /\
  (TriEngine._execute_leg still_clock "venue" "USDT" "BTC" 100 "sell"
     (plain_fees "venue") (tri_engine, 0%nat)).1
    = Some (99900 # 50000000, "BTC/USDT", 50000, Buy).
Proof. split; vm_compute; reflexivity. Qed.

End TriProps.

(** * Further properties of the code *)

(** ** depth.py: the VWAP primitive in binary64 *)

Module Float64Facts.
Import PrimFloat Float64.













(** What [calculate_vwap] returns on those asks for the targets 50 and
    250. *)
#[warnings="-inexact-float"]
Example calculate_vwap_three_asks :
  calculate_vwap Scenarios.three_asks64 50%float "buy"
  = mkVWAPResult 100%float 0.5%float 1 true /\
  calculate_vwap Scenarios.three_asks64 250%float "buy"
  = mkVWAPResult 100.59760956175299%float 2.4851485148514851%float 2 true.
Proof. split; vm_compute; reflexivity. Qed.


End Float64Facts.

(** ** depth.py: fills, partial fills and the helpers built on the VWAP *)

Module DepthFacts.
Import Models Depth DepthProps.

Lemma cumulative_notional_at (levels : list DepthLevel) k :
  (k < length levels)%nat ->
  at_ (cumsum (np_mul (map price levels) (map amount levels))) k
  == book_notional (firstn (S k) levels).
Proof.
  intros Hk. rewrite cumsum_nth by (rewrite np_mul_levels, length_map; lia).
  unfold book_notional. by rewrite np_mul_levels, firstn_map.
Qed.

Lemma cumulative_amount_at (levels : list DepthLevel) k :
  (k < length levels)%nat ->
  at_ (cumsum (map amount levels)) k == book_amount (firstn (S k) levels).
Proof.
  intros Hk. rewrite cumsum_nth by (rewrite length_map; lia).
  unfold book_amount. by rewrite firstn_map.
Qed.

Lemma valid_firstn k levels : valid_levels levels -> valid_levels (firstn k levels).
Proof.
  unfold valid_levels. rewrite !List.Forall_forall. intros H x Hx. apply H.
  rewrite <- (firstn_skipn k levels). apply in_or_app. by left.
Qed.

Lemma book_notional_nonneg levels : valid_levels levels -> 0 <= book_notional levels.
Proof.
  induction 1 as [|x t [Hp Ha] _ IH]; unfold book_notional, np_sum in *; simpl;
    [lra|nra].
Qed.

Lemma book_amount_nonneg levels : valid_levels levels -> 0 <= book_amount levels.
Proof.
  induction 1 as [|x t [Hp Ha] _ IH]; unfold book_amount, np_sum in *; simpl; lra.
Qed.

Lemma book_notional_app l1 l2 :
  book_notional (l1 ++ l2) == book_notional l1 + book_notional l2.
Proof.
  unfold book_notional, np_sum. induction l1 as [|x t IH]; simpl; [lra|].
  rewrite IH. lra.
Qed.

(** The notional of a prefix never exceeds that of the whole side. *)
Lemma book_notional_prefix k levels :
  valid_levels levels -> book_notional (firstn k levels) <= book_notional levels.
Proof.
  intros Hv. rewrite <- (firstn_skipn k levels) at 2. rewrite book_notional_app.
  assert (0 <= book_notional (skipn k levels)); [|lra].
  apply book_notional_nonneg. unfold valid_levels in *.
  rewrite !List.Forall_forall in *. intros x Hx. apply Hv.
  rewrite <- (firstn_skipn k levels). apply in_or_app. by right.
Qed.

Lemma price_at_nth levels k d : price_at levels k = price (nth k levels d) \/ (length levels <= k)%nat.
Proof.
  destruct (Nat.lt_ge_cases k (length levels)) as [Hk|Hk]; [left|by right].
  unfold price_at, at_. rewrite (nth_indep _ 0 (price d)) by (by rewrite length_map).
  apply map_nth.
Qed.

Lemma calculate_vwap_shape (levels : list DepthLevel) (N : Q) (side : string) :
  valid_levels levels -> 0 < N -> N <= book_notional levels ->
  exists k, fill_shape levels N (calculate_vwap levels N side) k.
Proof.
  intros Hvalid HN Htotal.
  assert (0 < length levels)%nat as Hlen.
  { destruct levels; simpl; [|lia].
    unfold book_notional, np_sum in Htotal. simpl in Htotal. lra. }
  unfold calculate_vwap.
  destruct levels as [|l0 rest] eqn:E; [simpl in Hlen; lia|]. rewrite <- E in *.
  clear E l0 rest.
  rewrite (target_positive N HN). cbv zeta.
  pose proof (notionals_length levels) as HlenN.
  set (d := mkDepthLevel 0 0).
  assert (forall i, (i < length levels)%nat ->
            0 < price_at levels i /\ 0 < amount (nth i levels d)
            /\ price_at levels i = price (nth i levels d)) as Hlevel.
  { intros i Hi. destruct (price_at_nth levels i d) as [Hp|]; [|lia].
    rewrite Hp. unfold valid_levels in Hvalid. rewrite List.Forall_forall in Hvalid.
    destruct (Hvalid (nth i levels d)) as [? ?]; [by apply nth_In|]. done. }
  destruct (where_ge _ N) as [|k tl] eqn:Hw.
  - exfalso. unfold where_ge in Hw.
    pose proof (where_ge_from_nil _ _ _ Hw (length levels - 1)%nat) as Hlt.
    rewrite HlenN in Hlt. specialize (Hlt ltac:(lia)).
    change (nth ?j ?a 0) with (at_ a j) in Hlt.
    rewrite cumulative_notional_at in Hlt by lia.
    replace (S (length levels - 1)) with (length levels) in Hlt by lia.
    rewrite firstn_all in Hlt. lra.
  - unfold where_ge in Hw.
    destruct (where_ge_from_head _ _ _ _ _ Hw) as (j & Hk & Hj & Hge & Hmin).
    simpl in Hk. subst j. rewrite HlenN in Hj.
    change (nth ?j ?a 0) with (at_ a j) in Hge.
    rewrite cumulative_notional_at in Hge by lia.
    exists k. destruct (Hlevel k Hj) as (Hpk & Hak & Hpk_eq).
    destruct (Nat.eqb k 0) eqn:Hk0.
    + apply Nat.eqb_eq in Hk0. subst k.
      fold (price_at levels 0).
      split; cbn [fully_filled levels_used total_volume vwap_price].
      * reflexivity.
      * lia.
      * reflexivity.
      * unfold book_notional, np_sum. simpl. lra.
      * exact Hge.
      * unfold book_amount, book_notional, np_sum. simpl. field. lra.
      * field. lra.
    + apply Nat.eqb_neq in Hk0.
      assert (Nat.ltb 0 k = true) as -> by (apply Nat.ltb_lt; lia).
      fold (price_at levels k).
      assert (at_ (cumsum (np_mul (map price levels) (map amount levels))) (k - 1)
              == book_notional (firstn k levels)) as HF.
      { rewrite cumulative_notional_at by lia. by replace (S (k - 1)) with k by lia. }
      assert (at_ (cumsum (map amount levels)) (k - 1)
              == book_amount (firstn k levels)) as HA.
      { rewrite cumulative_amount_at by lia. by replace (S (k - 1)) with k by lia. }
      assert (np_sum (np_mul (firstn k (map price levels))
                             (firstn k (map amount levels)))
              == book_notional (firstn k levels)) as HW.
      { unfold book_notional. by rewrite !firstn_map, np_mul_levels. }
      assert (book_notional (firstn k levels) < N) as Hbelow.
      { rewrite <- HF. apply (Hmin (k - 1)%nat). lia. }
      assert (0 < book_amount (firstn k levels)) as HApos.
      { unfold book_amount. apply amounts_sum_pos.
        - destruct levels; [simpl in Hlen; lia|]. destruct k; [lia|done].
        - pose proof (valid_firstn k levels Hvalid) as Hv. unfold valid_levels in Hv.
          rewrite List.Forall_forall in *. intros x Hx. by apply Hv. }
      set (cn := at_ (cumsum (np_mul (map price levels) (map amount levels))) (k - 1)) in *.
      set (ca := at_ (cumsum (map amount levels)) (k - 1)) in *.
      set (w := np_sum (np_mul (firstn k (map price levels)) (firstn k (map amount levels)))) in *.
      set (F := book_notional (firstn k levels)) in *.
      set (A := book_amount (firstn k levels)) in *.
      set (pk := price_at levels k) in *.
      assert (0 < (N - cn) / pk) as Hx.
      { apply Qlt_shift_div_l; lra. }
      assert (0 < ca + (N - cn) / pk) as HT by lra.
      rewrite (Qpos_bool_true _ HT).
      split; cbn [fully_filled levels_used total_volume vwap_price].
      * reflexivity.
      * lia.
      * lia.
      * exact Hbelow.
      * exact Hge.
      * rewrite HA, HF. reflexivity.
      * assert (pk * ((N - cn) / pk) == N - cn) as Hpart by (field; lra).
        rewrite Qmult_comm, Qmult_div_r by lra. rewrite Hpart, HW, HF. ring.
Qed.


Lemma where_ge_from_all_below i arr t :
  (forall j, (j < length arr)%nat -> nth j arr 0 < t) -> where_ge_from i arr t = [].
Proof.
  revert i. induction arr as [|c arr IH]; intros i H; simpl; [done|].
  destruct (Qle_bool t c) eqn:Hc.
  - apply Qle_bool_iff in Hc. specialize (H 0%nat ltac:(simpl; lia)). simpl in H. lra.
  - apply IH. intros j Hj. apply (H (S j)). simpl. lia.
Qed.

Lemma at_last_nth (arr : list Q) : at_last arr = at_ arr (length arr - 1).
Proof.
  unfold at_last, at_. induction arr as [|x t IH]; [done|].
  destruct t as [|y t]; [done|].
  change (List.last (x :: y :: t) 0) with (List.last (y :: t) 0).
  rewrite IH. simpl. by rewrite Nat.sub_0_r.
Qed.

(** What a partial fill returns. *)
Lemma calculate_vwap_partial (levels : list DepthLevel) (N : Q) (side : string) :
  levels <> [] -> valid_levels levels -> 0 < N -> book_notional levels < N ->
  fully_filled (calculate_vwap levels N side) = false /\
  levels_used (calculate_vwap levels N side) = length levels /\
  total_volume (calculate_vwap levels N side) == book_amount levels /\
  vwap_price (calculate_vwap levels N side)
    * total_volume (calculate_vwap levels N side) == book_notional levels.
Proof.
  intros Hne Hvalid HN Hshort. unfold calculate_vwap.
  destruct levels as [|l0 rest] eqn:E; [done|]. rewrite <- E in *.
  assert (0 < length levels)%nat as Hlen by (subst; simpl; lia).
  clear E l0 rest.
  rewrite (target_positive N HN). cbv zeta.
  pose proof (notionals_length levels) as HlenN.
  assert (where_ge (cumsum (np_mul (map price levels) (map amount levels))) N = [])
    as ->.
  { apply where_ge_from_all_below. intros j Hj. rewrite HlenN in Hj.
    change (nth ?j ?a 0) with (at_ a j). rewrite cumulative_notional_at by lia.
    pose proof (book_notional_prefix (S j) levels Hvalid). lra. }
  assert (at_last (cumsum (np_mul (map price levels) (map amount levels)))
          == book_notional levels) as HF.
  { rewrite at_last_nth, HlenN, cumulative_notional_at by lia.
    replace (S (length levels - 1)) with (length levels) by lia.
    by rewrite firstn_all. }
  assert (at_last (cumsum (map amount levels)) == book_amount levels) as HA.
  { rewrite at_last_nth, cumsum_length, length_map, cumulative_amount_at by lia.
    replace (S (length levels - 1)) with (length levels) by lia.
    by rewrite firstn_all. }
  assert (0 < book_amount levels) as HApos.
  { unfold book_amount. apply amounts_sum_pos; [by destruct levels|].
    unfold valid_levels in Hvalid. rewrite List.Forall_forall in *.
    intros x Hx. by apply Hvalid. }
  cbn [fully_filled levels_used total_volume vwap_price].
  rewrite Qpos_bool_true by lra.
  repeat split; [done|].
  rewrite Qmult_comm, Qmult_div_r by lra. done.
Qed.

Lemma filled_when_held (levels : list DepthLevel) (N : Q) (side : string) :
  valid_levels levels ->
  (fully_filled (calculate_vwap levels N side) = true
   <-> 0 < N /\ N <= book_notional levels).
Proof.
  intros Hv. split.
  - intros Hfill.
    destruct (Qlt_le_dec 0 N) as [HN|HN].
    + split; [done|].
      destruct (Qlt_le_dec (book_notional levels) N) as [Hshort|]; [|done].
      destruct levels as [|l0 rest] eqn:E; [done|]. rewrite <- E in *.
      destruct (calculate_vwap_partial levels N side) as [Hf _]; try done.
      { by rewrite E. }
      congruence.
    + unfold calculate_vwap in Hfill. apply Qle_bool_iff in HN.
      rewrite HN in Hfill. by destruct levels.
  - intros [HN Ht].
    destruct (calculate_vwap_shape levels N side Hv HN Ht) as [k Hk]. apply Hk.
Qed.

Lemma vwap_positive (levels : list DepthLevel) (N : Q) (r : VWAPResult) k :
  valid_levels levels -> 0 < N -> fill_shape levels N r k -> 0 < vwap_price r.
Proof.
  intros Hvalid HN Hk.
  set (d := mkDepthLevel 0 0).
  pose proof (shape_index _ _ _ _ Hk) as Hi.
  destruct (price_at_nth levels k d) as [Hpk|]; [|lia].
  assert (0 < price_at levels k) as Hpos.
  { rewrite Hpk. unfold valid_levels in Hvalid. rewrite List.Forall_forall in Hvalid.
    apply (Hvalid (nth k levels d)). by apply nth_In. }
  pose proof (book_amount_nonneg _ (valid_firstn k levels Hvalid)) as HA.
  pose proof (shape_below _ _ _ _ Hk) as Hb.
  pose proof (shape_volume _ _ _ _ Hk) as Hvol.
  pose proof (shape_spent _ _ _ _ Hk) as Hsp.
  assert (0 < (N - book_notional (firstn k levels)) / price_at levels k) as Hx
    by (apply Qlt_shift_div_l; lra).
  assert (0 < total_volume r) as HT by lra.
  apply Qnot_le_lt. intros Hle.
  assert (vwap_price r * total_volume r <= 0 * total_volume r) as Hprod
    by (apply Qmult_le_compat_r; lra).
  lra.
Qed.

(** X7. On positive levels and for a fee rate in [0, 1), the effective
    prices are the zero sentinel exactly when the fill is partial; on a full
    fill the selling price is positive and the VWAP lies between it and the
    buying price. *)
Theorem effective_price_brackets_vwap
    (levels : list DepthLevel) (N fee_rate : Q) (side : string) :
  valid_levels levels -> 0 <= fee_rate -> fee_rate < 1 ->
  (fully_filled (calculate_vwap levels N side) = true ->
   0 < get_effective_price_after_fees (calculate_vwap levels N side) fee_rate "sell"
   /\ get_effective_price_after_fees (calculate_vwap levels N side) fee_rate "sell"
      <= vwap_price (calculate_vwap levels N side)
   /\ vwap_price (calculate_vwap levels N side)
      <= get_effective_price_after_fees (calculate_vwap levels N side) fee_rate "buy")
  /\
  (fully_filled (calculate_vwap levels N side) = false ->
   get_effective_price_after_fees (calculate_vwap levels N side) fee_rate "sell" = 0
   /\ get_effective_price_after_fees (calculate_vwap levels N side) fee_rate "buy" = 0).
Proof.
  intros Hv Hf0 Hf1. split.
  - intros Hfill.
    destruct (proj1 (filled_when_held levels N side Hv) Hfill) as [HN Ht].
    destruct (calculate_vwap_shape levels N side Hv HN Ht) as [k Hk].
    pose proof (vwap_positive levels N _ k Hv HN Hk) as Hpos.
    unfold get_effective_price_after_fees. rewrite Hfill. simpl.
    rewrite (target_positive _ Hpos). simpl.
    set (v := vwap_price _) in *. repeat split; nra.
  - intros Hfill. unfold get_effective_price_after_fees. by rewrite Hfill.
Qed.

Lemma effective_price_brackets_vwap_witness :
  (fully_filled (calculate_vwap Scenarios.three_asks 250 "buy") = true ->
   0 < get_effective_price_after_fees
         (calculate_vwap Scenarios.three_asks 250 "buy") 0.001 "sell"
   /\ get_effective_price_after_fees
        (calculate_vwap Scenarios.three_asks 250 "buy") 0.001 "sell"
      <= vwap_price (calculate_vwap Scenarios.three_asks 250 "buy")
   /\ vwap_price (calculate_vwap Scenarios.three_asks 250 "buy")
      <= get_effective_price_after_fees
           (calculate_vwap Scenarios.three_asks 250 "buy") 0.001 "buy")
  /\
  (fully_filled (calculate_vwap Scenarios.three_asks 250 "buy") = false ->
   get_effective_price_after_fees
     (calculate_vwap Scenarios.three_asks 250 "buy") 0.001 "sell" = 0
   /\ get_effective_price_after_fees
        (calculate_vwap Scenarios.three_asks 250 "buy") 0.001 "buy" = 0).
Proof.
  apply effective_price_brackets_vwap.
  - repeat constructor.
  - unfold Qle; simpl; lia.
  - reflexivity.
Defined.

End DepthFacts.

(** ** connectors/base.py: the parsed book is normalised *)

Module ConnectorFacts.
Import Models Runtime Depth Connector.

Lemma parse_levels_kept raw levels :
  parse_levels raw = Some levels -> levels = kept_levels raw.
Proof.
  revert levels. induction raw as [|entry rest IH]; intros levels; simpl.
  { by intros [= <-]. }
  destruct entry as [|v0 [|v1 tl]].
  { simpl. by apply IH. }
  { destruct v0; simpl; by apply IH. }
  destruct v0 as [p|], v1 as [a|]; try done.
  unfold kept_levels. simpl. fold (kept_levels rest).
  destruct (parse_levels rest) as [ls|]; [|done].
  specialize (IH ls eq_refl). subst ls.
  destruct (Qpos_bool p && Qpos_bool a); by intros [= <-].
Qed.

Lemma Qpos_bool_pos x : Qpos_bool x = true -> 0 < x.
Proof.
  unfold Qpos_bool. intros H. apply negb_true_iff in H.
  apply Qnot_le_lt. intros Hle. apply Qle_bool_iff in Hle. congruence.
Qed.

Lemma kept_levels_valid raw : valid_levels (kept_levels raw).
Proof.
  unfold valid_levels, kept_levels. apply List.Forall_forall. intros x Hx.
  apply in_flat_map in Hx as (entry & _ & Hx).
  destruct entry as [|[p|] [|[a|] tl]]; try done.
  destruct (Qpos_bool p && Qpos_bool a) eqn:Hpos; [|done].
  destruct Hx as [<-|[]]. apply andb_prop in Hpos as [Hp Ha]. simpl.
  split; by apply Qpos_bool_pos.
Qed.

Lemma insert_ascending_perm x l : Permutation (insert_ascending x l) (x :: l).
Proof.
  induction l as [|y t IH]; simpl; [done|].
  destruct (Qle_bool (price x) (price y)); [done|].
  rewrite IH. apply perm_swap.
Qed.

Lemma sort_ascending_perm l : Permutation (sort_ascending l) l.
Proof.
  induction l as [|x t IH]; simpl; [done|].
  rewrite insert_ascending_perm. by constructor.
Qed.

Lemma insert_descending_perm x l : Permutation (insert_descending x l) (x :: l).
Proof.
  induction l as [|y t IH]; simpl; [done|].
  destruct (Qle_bool (price y) (price x)); [done|].
  rewrite IH. apply perm_swap.
Qed.

Lemma sort_descending_perm l : Permutation (sort_descending l) l.
Proof.
  induction l as [|x t IH]; simpl; [done|].
  rewrite insert_descending_perm. by constructor.
Qed.

Lemma insert_ascending_sorted x l : ascending l -> ascending (insert_ascending x l).
Proof.
  unfold ascending. induction 1 as [|y t Ht IH Hy]; simpl.
  { repeat constructor. }
  destruct (Qle_bool (price x) (price y)) eqn:Hxy.
  - apply Qle_bool_iff in Hxy. repeat constructor; done.
  - assert (price y <= price x) as Hyx.
    { apply Qlt_le_weak, Qnot_le_lt. intros Hle.
      apply Qle_bool_iff in Hle. congruence. }
    constructor; [done|].
    destruct t as [|z t]; simpl in *; [by constructor|].
    destruct (Qle_bool (price x) (price z)); constructor; [done|].
    by inversion Hy.
Qed.

Lemma sort_ascending_sorted l : ascending (sort_ascending l).
Proof.
  induction l as [|x t IH]; simpl; [constructor|].
  by apply insert_ascending_sorted.
Qed.

Lemma insert_descending_sorted x l : descending l -> descending (insert_descending x l).
Proof.
  unfold descending. induction 1 as [|y t Ht IH Hy]; simpl.
  { repeat constructor. }
  destruct (Qle_bool (price y) (price x)) eqn:Hxy.
  - apply Qle_bool_iff in Hxy. repeat constructor; done.
  - assert (price x <= price y) as Hyx.
    { apply Qlt_le_weak, Qnot_le_lt. intros Hle.
      apply Qle_bool_iff in Hle. congruence. }
    constructor; [done|].
    destruct t as [|z t]; simpl in *; [by constructor|].
    destruct (Qle_bool (price z) (price x)); constructor; [done|].
    by inversion Hy.
Qed.

Lemma sort_descending_sorted l : descending (sort_descending l).
Proof.
  induction l as [|x t IH]; simpl; [constructor|].
  by apply insert_descending_sorted.
Qed.

Lemma valid_levels_perm l l' :
  Permutation l l' -> valid_levels l' -> valid_levels l.
Proof.
  unfold valid_levels. intros Hp Hv. rewrite List.Forall_forall in *.
  intros x Hx. apply Hv. by apply (Permutation_in _ Hp).
Qed.

(** What a successful parse is made of. *)
Lemma parse_order_book_inv {T} clock fromtimestamp exchange_name data symbol
    (st st' : T * nat) book :
  _parse_order_book_data clock fromtimestamp exchange_name data symbol st
    = (Some book, st') ->
  ob_symbol book = symbol /\ ob_exchange book = exchange_name /\
  nonce book = raw_nonce data /\
  bids book = sort_descending (kept_levels (raw_bids data)) /\
  asks book = sort_ascending (kept_levels (raw_asks data)).
Proof.
  unfold _parse_order_book_data.
  destruct (parse_levels (raw_bids data)) as [bs|] eqn:Hb; [|run_st; done].
  destruct (parse_levels (raw_asks data)) as [as_|] eqn:Ha; [|run_st; done].
  apply parse_levels_kept in Hb, Ha. subst. run_st. destruct st as [s i].
  destruct (book_timestamp _ _ _) as [t|]; [|done].
  intros [= <- _]. done.
Qed.

(** X9. A book that [_parse_order_book_data] returns is normalised. *)
Theorem parsed_book_is_normalised {T} (clock : Clock)
    (fromtimestamp : Q -> TsResult) (exchange_name : string) (data : RawBook)
    (symbol : string) (st st' : T * nat) (book : OrderBook) :
  _parse_order_book_data clock fromtimestamp exchange_name data symbol st
    = (Some book, st') ->
  ob_symbol book = symbol /\ ob_exchange book = exchange_name /\
  valid_levels (bids book) /\ valid_levels (asks book) /\
  descending (bids book) /\ ascending (asks book).
Proof.
  intros H. apply parse_order_book_inv in H as (Hs & He & _ & Hb & Ha).
  rewrite Hb, Ha. repeat split; try done.
  - eapply valid_levels_perm; [apply sort_descending_perm|apply kept_levels_valid].
  - eapply valid_levels_perm; [apply sort_ascending_perm|apply kept_levels_valid].
  - apply sort_descending_sorted.
  - apply sort_ascending_sorted.
Qed.

Lemma parsed_book_is_normalised_witness :
  ob_symbol Scenarios.parsed_book = "BTC/USDT" /\
  ob_exchange Scenarios.parsed_book = "venue" /\
  valid_levels (bids Scenarios.parsed_book) /\
  valid_levels (asks Scenarios.parsed_book) /\
  descending (bids Scenarios.parsed_book) /\
  ascending (asks Scenarios.parsed_book).
Proof.
  apply (parsed_book_is_normalised (T := unit) Scenarios.still_clock
           Scenarios.utc_fromtimestamp "venue" Scenarios.raw_book "BTC/USDT"
           (tt, 0%nat) (tt, 1%nat)).
  vm_compute. reflexivity.
Defined.

(** X10. Parsing keeps every level with a positive price and amount, and
    nothing else. *)
Theorem parsed_book_keeps_positive_levels {T} (clock : Clock)
    (fromtimestamp : Q -> TsResult) (exchange_name : string) (data : RawBook)
    (symbol : string) (st st' : T * nat) (book : OrderBook) :
  _parse_order_book_data clock fromtimestamp exchange_name data symbol st
    = (Some book, st') ->
  Permutation (bids book) (kept_levels (raw_bids data)) /\
  Permutation (asks book) (kept_levels (raw_asks data)).
Proof.
  intros H. apply parse_order_book_inv in H as (_ & _ & _ & Hb & Ha).
  rewrite Hb, Ha. split; [apply sort_descending_perm|apply sort_ascending_perm].
Qed.

Lemma parsed_book_keeps_positive_levels_witness :
  Permutation (bids Scenarios.parsed_book)
    (kept_levels (raw_bids Scenarios.raw_book)) /\
  Permutation (asks Scenarios.parsed_book)
    (kept_levels (raw_asks Scenarios.raw_book)).
Proof.
  apply (parsed_book_keeps_positive_levels (T := unit) Scenarios.still_clock
           Scenarios.utc_fromtimestamp "venue" Scenarios.raw_book "BTC/USDT"
           (tt, 0%nat) (tt, 1%nat)).
  vm_compute. reflexivity.
Defined.

(** A value that [float] rejects makes the parse fail, before the clock is
    read. *)
Example parse_rejects_bad_number :
  _parse_order_book_data (T := unit) Scenarios.still_clock
    Scenarios.utc_fromtimestamp "venue"
    (mkRawBook [[Some 99; None]] [] None None) "BTC/USDT" (tt, 0%nat)
  = (None, (tt, 0%nat)).
Proof. reflexivity. Qed.

End ConnectorFacts.

(** ** app.py: the bounded queue and the coalescer *)

Module AppFacts.
Import Models Runtime App.

Lemma last_cons_default {A} (x : A) (l : list A) d :
  List.last (x :: l) d = List.last l x.
Proof.
  revert x d. induction l as [|y t IH]; intros x d; [done|].
  change (List.last (x :: y :: t) d) with (List.last (y :: t) d).
  by rewrite (IH y d), (IH y x).
Qed.

Lemma drain_latest_last latest queue :
  drain_latest latest queue = List.last queue latest.
Proof.
  revert latest. induction queue as [|b rest IH]; intros latest; [done|].
  simpl drain_latest. rewrite IH. symmetry. apply last_cons_default.
Qed.

Lemma enqueue_step (order_book : OrderBook) (queue : list OrderBook) :
  (length queue <= queue_maxsize)%nat ->
  exists queue',
    enqueue_for_coalescing order_book queue = Some queue' /\
    (length queue' <= queue_maxsize)%nat /\
    (exists dropped, queue ++ [order_book] = dropped ++ queue' /\
                     (length dropped <= 1)%nat) /\
    List.last queue' order_book = order_book /\ queue' <> [].
Proof.
  unfold enqueue_for_coalescing, queue_maxsize. intros Hlen.
  destruct (length queue <? 2)%nat eqn:Hfull.
  - apply Nat.ltb_lt in Hfull. exists (queue ++ [order_book]).
    split; [done|]. split; [rewrite length_app; simpl; lia|].
    split; [exists []; split; [done|simpl; lia]|]. split; [apply last_last|by destruct queue].
  - apply Nat.ltb_ge in Hfull. destruct queue as [|oldest rest]; [simpl in *; lia|].
    simpl in *. assert ((length rest <? 2)%nat = true) as -> by (apply Nat.ltb_lt; lia).
    exists (rest ++ [order_book]).
    split; [done|]. split; [rewrite length_app; simpl; lia|].
    split; [exists [oldest]; split; [done|simpl; lia]|]. split; [apply last_last|by destruct rest].
Qed.

(** X11. The queue block never lets the queue grow beyond two books, always
    takes the new book in as the newest, and drops at most the oldest. *)
Theorem enqueue_keeps_newest (order_book : OrderBook) (queue : list OrderBook) :
  (length queue <= queue_maxsize)%nat ->
  exists queue',
    enqueue_for_coalescing order_book queue = Some queue' /\
    (length queue' <= queue_maxsize)%nat /\
    (exists dropped, queue ++ [order_book] = dropped ++ queue' /\
                     (length dropped <= 1)%nat) /\
    List.last queue' order_book = order_book /\ queue' <> [].
Proof. apply enqueue_step. Qed.

Lemma enqueue_keeps_newest_witness :
  exists queue',
    enqueue_for_coalescing Scenarios.parsed_book
      [Scenarios.book_a; Scenarios.book_b] = Some queue' /\
    (length queue' <= queue_maxsize)%nat /\
    (exists dropped,
       [Scenarios.book_a; Scenarios.book_b] ++ [Scenarios.parsed_book]
         = dropped ++ queue' /\ (length dropped <= 1)%nat) /\
    List.last queue' Scenarios.parsed_book = Scenarios.parsed_book /\
    queue' <> [].
Proof.
  apply enqueue_keeps_newest. unfold queue_maxsize. simpl. lia.
Defined.

Lemma enqueue_all_last order_books queue :
  (length queue <= queue_maxsize)%nat ->
  exists queue',
    enqueue_all order_books queue = Some queue' /\
    (length queue' <= queue_maxsize)%nat /\
    forall d, List.last queue' d = List.last (queue ++ order_books) d.
Proof.
  revert queue. induction order_books as [|b rest IH]; intros queue Hlen; simpl.
  { exists queue. rewrite app_nil_r. done. }
  destruct (enqueue_step b queue Hlen)
    as (q1 & -> & Hlen1 & (dropped & Hsplit & _) & Hlast & Hne).
  destruct (IH q1 Hlen1) as (q2 & Hq2 & Hlen2 & Hlast2).
  exists q2. split; [done|]. split; [done|]. intros d.
  rewrite Hlast2.
  replace (queue ++ b :: rest) with ((queue ++ [b]) ++ rest)
    by (by rewrite <- app_assoc).
  rewrite Hsplit, <- app_assoc.
  destruct (q1 ++ rest) as [|x t] eqn:E; [by destruct q1|].
  clear -E. induction dropped as [|y dropped IH]; [done|].
  simpl. destruct (dropped ++ x :: t) eqn:E'; [by destruct dropped|]. done.
Qed.

(** X12. One coalescing window.  The coalescer has taken [order_book] from
    the queue, which leaves at most one book in it; whatever books the
    producer queues during the window, the engines receive the newest book
    that arrived, under its own key, and the queue is left empty. *)
Theorem coalescer_publishes_newest (order_book : OrderBook)
    (queue arrivals : list OrderBook) (engines : Engines) :
  (length queue <= 1)%nat ->
  exists queue',
    enqueue_all arrivals queue = Some queue' /\
    (coalesce_publish order_book queue' engines).2 = [] /\
    Engine.order_books
      (arbitrage_engine (coalesce_publish order_book queue' engines).1)
      !! (ob_exchange (List.last (queue ++ arrivals) order_book),
          ob_symbol (List.last (queue ++ arrivals) order_book))
      = Some (List.last (queue ++ arrivals) order_book) /\
    TriEngine.order_books
      (tri_engine (coalesce_publish order_book queue' engines).1)
      !! (ob_exchange (List.last (queue ++ arrivals) order_book),
          ob_symbol (List.last (queue ++ arrivals) order_book))
      = Some (List.last (queue ++ arrivals) order_book).
Proof.
  intros Hlen.
  destruct (enqueue_all_last arrivals queue) as (q & Hq & _ & Hlast).
  { unfold queue_maxsize. lia. }
  exists q. split; [done|]. split; [done|].
  unfold coalesce_publish. cbn [fst arbitrage_engine tri_engine].
  rewrite drain_latest_last, Hlast.
  split; apply lookup_insert_eq.
Qed.

Lemma coalescer_publishes_newest_witness :
  exists queue',
    enqueue_all [Scenarios.book_b; Scenarios.parsed_book; Scenarios.book_a]
      [Scenarios.book_a] = Some queue' /\
    (coalesce_publish Scenarios.book_b queue'
       (mkEngines (Engine.mkArbitrageEngine ∅ 0) Scenarios.tri_engine)).2 = [] /\
    Engine.order_books
      (arbitrage_engine
         (coalesce_publish Scenarios.book_b queue'
            (mkEngines (Engine.mkArbitrageEngine ∅ 0) Scenarios.tri_engine)).1)
      !! (ob_exchange
            (List.last
               ([Scenarios.book_a]
                ++ [Scenarios.book_b; Scenarios.parsed_book; Scenarios.book_a])
               Scenarios.book_b),
          ob_symbol
            (List.last
               ([Scenarios.book_a]
                ++ [Scenarios.book_b; Scenarios.parsed_book; Scenarios.book_a])
               Scenarios.book_b))
      = Some (List.last
                ([Scenarios.book_a]
                 ++ [Scenarios.book_b; Scenarios.parsed_book; Scenarios.book_a])
                Scenarios.book_b) /\
    TriEngine.order_books
      (tri_engine
         (coalesce_publish Scenarios.book_b queue'
            (mkEngines (Engine.mkArbitrageEngine ∅ 0) Scenarios.tri_engine)).1)
      !! (ob_exchange
            (List.last
               ([Scenarios.book_a]
                ++ [Scenarios.book_b; Scenarios.parsed_book; Scenarios.book_a])
               Scenarios.book_b),
          ob_symbol
            (List.last
               ([Scenarios.book_a]
                ++ [Scenarios.book_b; Scenarios.parsed_book; Scenarios.book_a])
               Scenarios.book_b))
      = Some (List.last
                ([Scenarios.book_a]
                 ++ [Scenarios.book_b; Scenarios.parsed_book; Scenarios.book_a])
                Scenarios.book_b).
Proof.
  apply coalescer_publishes_newest. simpl. lia.
Defined.

End AppFacts.

(** ** fees.py: caching, overrides and symbol fees *)

Module FeeFacts.
Import Models Runtime Fees FeeProps.

(** X13. A fee record, once looked up, is served from the cache: a later
    lookup returns the same record and leaves the manager as it is, whatever
    the registry says by then. *)
Theorem get_fees_served_from_cache
    (registry registry' : Registry.ExchangeRegistry) (V : string)
    (symbol : option string) (fm : FeeManager) :
  get_fees registry' V symbol (get_fees registry V symbol fm).2
  = ((get_fees registry V symbol fm).1, (get_fees registry V symbol fm).2).
Proof.
  unfold get_fees at 2 3 4.
  destruct (fee_cache fm !! _) as [cached|] eqn:E; simpl.
  - unfold get_fees. by rewrite E.
  - unfold get_fees. simpl. by rewrite lookup_insert_eq.
Qed.

Lemma override_step_untouched py_float ov key value V :
  (forall kk, Config.override_target key = Some (V, kk) -> py_float value = None) ->
  untouched ov V -> untouched (Config.override_step py_float ov (key, value)) V.
Proof.
  intros Hkv Hov m. rewrite override_step_target.
  destruct (Config.override_target key) as [[ex ft]|]; [|apply Hov].
  cbn zeta. destruct (decide (ex = V)) as [->|Hex].
  - rewrite (Hkv ft eq_refl).
    destruct (ov !! V) as [m0|] eqn:E; [apply Hov|].
    rewrite lookup_insert_eq. by intros [= <-].
  - destruct (py_float value); destruct (ov !! ex);
      rewrite ?lookup_insert_ne by done; apply Hov.
Qed.

Lemma get_fee_overrides_untouched py_float environ V :
  no_override_for py_float V environ ->
  untouched (Config.get_fee_overrides py_float environ) V.
Proof.
  unfold Config.get_fee_overrides, no_override_for. intros Henv.
  assert (untouched (∅ : gmap string (gmap string Q)) V) as Hstart.
  { intros m Hm. by rewrite lookup_empty in Hm. }
  revert Hstart. generalize (∅ : gmap string (gmap string Q)).
  induction Henv as [|[key value] rest Hkv _ IH]; intros ov Hov; simpl; [done|].
  apply IH. by apply override_step_untouched.
Qed.

Lemma fallback_source V : source (_get_fallback_fees V) = SrcDefault.
Proof. unfold _get_fallback_fees. by destruct (known_fees !! V). Qed.

Lemma new_FeesPublic_source maker taker src exchange table fees :
  new_FeesPublic maker taker src exchange table = Some fees ->
  source fees = src.
Proof.
  unfold new_FeesPublic. destruct maker, taker; try done.
  case_bool_decide; [|done]. by intros [= <-].
Qed.

Lemma fetched_source_not_env registry V :
  source (_fetch_public_fees registry V) <> SrcEnv.
Proof.
  unfold _fetch_public_fees.
  destruct (Registry.get_exchange registry V) as [ex|];
    [|by rewrite fallback_source].
  destruct (Registry.trading_fees ex) as [[fee_maker fee_taker]|];
    [|by rewrite fallback_source].
  destruct (new_FeesPublic _ _ _ _ _) as [fees|] eqn:E;
    [|by rewrite fallback_source].
  by rewrite (new_FeesPublic_source _ _ _ _ _ _ E).
Qed.

(** X14. When no variable of the environment sets a fee of the venue (none
    addresses it, or those that do carry values [float] rejects), the first
    lookup returns the fetched record as it is: public or default fees, with
    their provenance. *)
Theorem get_fees_without_override
    (py_float : string -> option Q) (registry : Registry.ExchangeRegistry)
    (environ : list (string * string)) (V : string) (symbol : option string) :
  no_override_for py_float V environ ->
  (get_fees registry V symbol (init py_float environ)).1
    = _fetch_public_fees registry V /\
  source (get_fees registry V symbol (init py_float environ)).1 <> SrcEnv.
Proof.
  intros Henv. apply get_fee_overrides_untouched in Henv.
  assert ((get_fees registry V symbol (init py_float environ)).1
          = _fetch_public_fees registry V) as Heq.
  { unfold get_fees, init. cbn [fee_cache env_overrides]. rewrite lookup_empty.
    destruct (Config.get_fee_overrides py_float environ !! V) as [m|] eqn:E;
      [|done].
    rewrite (Henv m E). by rewrite !lookup_empty. }
  split; [done|]. rewrite Heq. apply fetched_source_not_env.
Qed.

Lemma get_fees_without_override_witness :
  (get_fees Scenarios.no_exchanges "binance" None
     (init decimal_literal [("PATH", "/usr/bin"); ("BINANCE_TAKER_FEE", "n/a")])).1
    = _fetch_public_fees Scenarios.no_exchanges "binance" /\
  source
    (get_fees Scenarios.no_exchanges "binance" None
       (init decimal_literal [("PATH", "/usr/bin"); ("BINANCE_TAKER_FEE", "n/a")])).1
    <> SrcEnv.
Proof.
  apply get_fees_without_override.
  repeat constructor; intros kk; vm_compute; congruence.
Defined.

(** X15. An override of the environment changes the venue's pair only: the
    table of symbol fees is the fetched one, so a symbol with fees of its
    own keeps them. *)
Theorem get_fees_keeps_symbol_fees
    (registry : Registry.ExchangeRegistry) (V : string)
    (symbol : option string) (fm : FeeManager) (s : string) (own : Q * Q) :
  fee_cache fm !! (V +:+ "_" +:+ symbol_or_default symbol) = None ->
  str_truthy s = true ->
  symbol_specific (_fetch_public_fees registry V) !! s = Some own ->
  symbol_specific (get_fees registry V symbol fm).1
    = symbol_specific (_fetch_public_fees registry V) /\
  fp_get_fees (get_fees registry V symbol fm).1 (Some s) = own.
Proof.
  intros Hmiss Hs Hpair.
  assert (symbol_specific (get_fees registry V symbol fm).1
          = symbol_specific (_fetch_public_fees registry V)) as Heq.
  { unfold get_fees. rewrite Hmiss. cbn [fst].
    destruct (env_overrides fm !! V) as [m|]; [|done].
    destruct (m !! "maker"), (m !! "taker"); done. }
  split; [done|]. unfold fp_get_fees. by rewrite Hs, Heq, Hpair.
Qed.


Lemma get_fees_keeps_symbol_fees_witness :
  symbol_specific
    (get_fees Scenarios.kraken_registry "kraken" (Some "BTC/USD")
       (init decimal_literal Scenarios.kraken_environ)).1
    = symbol_specific (_fetch_public_fees Scenarios.kraken_registry "kraken") /\
  fp_get_fees
    (get_fees Scenarios.kraken_registry "kraken" (Some "BTC/USD")
       (init decimal_literal Scenarios.kraken_environ)).1 (Some "BTC/USD")
    = (0.001, 0.002).
Proof.
  apply get_fees_keeps_symbol_fees; vm_compute; reflexivity.
Defined.

(** There the venue's taker fee is the overridden one, the symbol's is its
    own. *)
Example override_does_not_reach_symbol :
  taker
    (get_fees Scenarios.kraken_registry "kraken" (Some "BTC/USD")
       (init decimal_literal Scenarios.kraken_environ)).1 = 0.0005 /\
  (fp_get_fees
     (get_fees Scenarios.kraken_registry "kraken" (Some "BTC/USD")
        (init decimal_literal Scenarios.kraken_environ)).1
     (Some "BTC/USD")).2 = 0.002.
Proof. split; vm_compute; reflexivity. Qed.

Lemma symbol_fee_step_lookup ex maker taker acc item s :
  symbol_fee_step ex maker taker acc item !! s
  = match market_own_fees ex maker taker item.1 with
    | Some own =>
        if decide (item.1 = s) then
          if differs own.1 maker || differs own.2 taker
          then Some own else acc !! s
        else acc !! s
    | None => acc !! s
    end.
Proof.
  unfold symbol_fee_step, market_own_fees.
  destruct (Registry.ccxt_markets ex !! item.1) as [[mm mt]|]; [|done].
  cbn [fst snd]. destruct (decide (item.1 = s)) as [->|Hne].
  - destruct (_ || _); [|done]. by simplify_map_eq.
  - destruct (_ || _); [|done]. by simplify_map_eq.
Qed.

Lemma symbol_fees_fold ex maker taker markets acc s :
  fold_left (symbol_fee_step ex maker taker) markets acc !! s
  = match market_own_fees ex maker taker s with
    | Some own =>
        if decide (s ∈ map fst markets) then
          if differs own.1 maker || differs own.2 taker
          then Some own else acc !! s
        else acc !! s
    | None => acc !! s
    end.
Proof.
  revert acc. induction markets as [|item rest IH]; intros acc; simpl.
  { destruct (market_own_fees _ _ _ s); [|done].
    destruct (decide (s ∈ [])) as [Hin|]; [|done].
    by apply elem_of_nil in Hin. }
  rewrite IH, symbol_fee_step_lookup.
  destruct (decide (item.1 = s)) as [E|Hne].
  - rewrite E.
    destruct (market_own_fees ex maker taker s) as [own|]; [|done].
    destruct (decide (s ∈ s :: map fst rest)) as [_|Hn];
      [|exfalso; apply Hn; apply elem_of_cons; by left].
    destruct (decide (s ∈ map fst rest));
      by destruct (_ || _).
  - destruct (market_own_fees ex maker taker s) as [own|];
      [|by destruct (market_own_fees ex maker taker item.1)].
    destruct (decide (s ∈ map fst rest)) as [Hin|Hout],
             (decide (s ∈ item.1 :: map fst rest)) as [Hin'|Hout'].
    + by destruct (market_own_fees ex maker taker item.1).
    + exfalso; apply Hout'; apply elem_of_cons; by right.
    + apply elem_of_cons in Hin' as [?|?]; done.
    + by destruct (market_own_fees ex maker taker item.1).
Qed.

Lemma entry_get_numeric entry (v : Q) :
  entry ≠ Registry.Null -> entry_get entry (Some v) = Some (rate_or v entry).
Proof. by destruct entry. Qed.

Lemma validated_dom (table : gmap string (option Q * option Q)) :
  (forall s p, table !! s = Some p -> is_Some (validated_pair p)) ->
  dom (omap validated_pair table) = dom table.
Proof.
  intros Hall. apply set_eq. intros s. rewrite !elem_of_dom, lookup_omap.
  destruct (table !! s) as [p|] eqn:E; simpl.
  - split; [by eexists|]. intros _. by apply (Hall s).
  - split; intros [? ?]; done.
Qed.

Lemma validated_dom_fails (table : gmap string (option Q * option Q)) s p :
  table !! s = Some p -> validated_pair p = None ->
  dom (omap validated_pair table) <> dom table.
Proof.
  intros Hs Hp Heq.
  assert (s ∈ dom table) as Hin by (apply elem_of_dom; by eexists).
  rewrite <- Heq in Hin. apply elem_of_dom in Hin as [q Hq].
  rewrite lookup_omap, Hs in Hq. simpl in Hq. congruence.
Qed.

(** X16. On a venue whose exchange object has a table of trading fees: when
    none of the fee entries read is [None], the record fetched is a public
    one, its venue fees are the entries of the table or the defaults where
    they are missing, and the fees looked up for a symbol are those of its
    raw market, each the venue's where the entry is missing, when the venue
    lists the symbol and the raw market is there, and the venue's pair
    otherwise; when one of the entries read is [None], the record fetched
    is the fallback one. *)
Theorem public_symbol_fees
    (registry : Registry.ExchangeRegistry) (V : string)
    (exchange : Registry.CcxtExchange)
    (fee_maker fee_taker : Registry.FeeEntry) :
  Registry.get_exchange registry V = Some exchange ->
  Registry.trading_fees exchange = Some (fee_maker, fee_taker) ->
  (fees_numeric registry V exchange fee_maker fee_taker ->
   source (_fetch_public_fees registry V) = SrcPublic /\
   maker (_fetch_public_fees registry V) = rate_or default_maker fee_maker /\
   taker (_fetch_public_fees registry V) = rate_or default_taker fee_taker /\
   forall s, str_truthy s = true ->
     (forall market_maker market_taker,
        In s (map fst (Registry.get_markets registry V)) ->
        Registry.ccxt_markets exchange !! s
          = Some (market_maker, market_taker) ->
        (fp_get_fees (_fetch_public_fees registry V) (Some s)).1
          == rate_or (maker (_fetch_public_fees registry V)) market_maker /\
        (fp_get_fees (_fetch_public_fees registry V) (Some s)).2
          == rate_or (taker (_fetch_public_fees registry V)) market_taker) /\
     (~ In s (map fst (Registry.get_markets registry V))
      \/ Registry.ccxt_markets exchange !! s = None ->
      fp_get_fees (_fetch_public_fees registry V) (Some s)
      = (maker (_fetch_public_fees registry V),
         taker (_fetch_public_fees registry V)))) /\
  (some_fee_null registry V exchange fee_maker fee_taker ->
   _fetch_public_fees registry V = _get_fallback_fees V).
Proof.
  intros Hex Hfees. unfold _fetch_public_fees. rewrite Hex, Hfees.
  set (markets := Registry.get_markets registry V).
  split.
  - intros (Hm & Ht & Hmarkets).
    rewrite (entry_get_numeric _ _ Hm), (entry_get_numeric _ _ Ht).
    set (mk := rate_or default_maker fee_maker).
    set (tk := rate_or default_taker fee_taker).
    set (table := fold_left (symbol_fee_step exchange (Some mk) (Some tk))
                    markets ∅).
    assert (forall s, table !! s
              = match Registry.ccxt_markets exchange !! s with
                | Some (mm, mt) =>
                    if decide (s ∈ map fst markets) then
                      if negb (Qeq_bool (rate_or mk mm) mk)
                         || negb (Qeq_bool (rate_or tk mt) tk)
                      then Some (Some (rate_or mk mm), Some (rate_or tk mt))
                      else None
                    else None
                | None => None
                end) as Htable.
    { intros s. unfold table. rewrite symbol_fees_fold, lookup_empty.
      unfold market_own_fees.
      destruct (Registry.ccxt_markets exchange !! s) as [[mm mt]|] eqn:E;
        [|done].
      destruct (decide (s ∈ map fst markets)) as [Hin|]; [|done].
      apply list_elem_of_In in Hin.
      destruct (Hmarkets s mm mt Hin E) as [Hmm Hmt].
      by rewrite (entry_get_numeric _ _ Hmm), (entry_get_numeric _ _ Hmt). }
    unfold new_FeesPublic. rewrite bool_decide_eq_true_2.
    2:{ apply validated_dom. intros s p Hp. rewrite Htable in Hp.
        destruct (Registry.ccxt_markets exchange !! s) as [[mm mt]|]; [|done].
        destruct (decide _); [|done]. destruct (_ || _); [|done].
        injection Hp as <-. by eexists. }
    cbn [source maker taker]. do 3 (split; [done|]).
    intros s Hs. unfold fp_get_fees. rewrite Hs.
    cbn [symbol_specific maker taker]. rewrite lookup_omap, Htable.
    split.
    + intros mm mt Hin E. rewrite E.
      destruct (decide _) as [_|Hn]; [|by apply list_elem_of_In in Hin].
      destruct (_ || _) eqn:Hd; simpl; [by split|].
      apply orb_false_elim in Hd as [H1 H2].
      apply negb_false_iff, Qeq_bool_iff in H1, H2. split; by symmetry.
    + intros [Hnot|Hnone].
      * destruct (Registry.ccxt_markets exchange !! s) as [[mm mt]|]; [|done].
        destruct (decide _) as [Hin|]; [|done].
        by apply list_elem_of_In in Hin.
      * by rewrite Hnone.
  - intros Hnull.
    destruct (entry_get fee_maker (Some default_maker)) as [mk|] eqn:Emk;
      [|done].
    destruct (entry_get fee_taker (Some default_taker)) as [tk|] eqn:Etk;
      [|done].
    destruct Hnull as [->|[->|(s & mm & mt & Hin & E & Hn)]]; [done|done|].
    unfold new_FeesPublic. rewrite bool_decide_eq_false_2; [done|].
    apply (validated_dom_fails _ s (entry_get mm (Some mk), entry_get mt (Some tk))).
    + rewrite symbol_fees_fold, lookup_empty. unfold market_own_fees.
      rewrite E. cbn [fst snd].
      destruct (decide _) as [_|Hout]; [|by apply list_elem_of_In in Hin].
      destruct Hn as [-> | ->]; cbn [entry_get differs]; [done|].
      by rewrite orb_true_r.
    + destruct Hn as [-> | ->]; cbn [entry_get validated_pair]; [done|].
      by destruct (entry_get mm (Some mk)).
Qed.

Lemma public_symbol_fees_witness :
  (source (_fetch_public_fees Scenarios.kraken_registry "kraken") = SrcPublic /\
   maker (_fetch_public_fees Scenarios.kraken_registry "kraken")
     = rate_or default_maker (Registry.Rate 0.0016) /\
   taker (_fetch_public_fees Scenarios.kraken_registry "kraken")
     = rate_or default_taker (Registry.Rate 0.0026) /\
   forall s, str_truthy s = true ->
     (forall market_maker market_taker,
        In s (map fst (Registry.get_markets Scenarios.kraken_registry "kraken")) ->
        Registry.ccxt_markets Scenarios.kraken_exchange !! s
          = Some (market_maker, market_taker) ->
        (fp_get_fees (_fetch_public_fees Scenarios.kraken_registry "kraken")
           (Some s)).1
          == rate_or (maker (_fetch_public_fees Scenarios.kraken_registry
                               "kraken")) market_maker /\
        (fp_get_fees (_fetch_public_fees Scenarios.kraken_registry "kraken")
           (Some s)).2
          == rate_or (taker (_fetch_public_fees Scenarios.kraken_registry
                               "kraken")) market_taker) /\
     (~ In s (map fst (Registry.get_markets Scenarios.kraken_registry "kraken"))
      \/ Registry.ccxt_markets Scenarios.kraken_exchange !! s = None ->
      fp_get_fees (_fetch_public_fees Scenarios.kraken_registry "kraken")
        (Some s)
      = (maker (_fetch_public_fees Scenarios.kraken_registry "kraken"),
         taker (_fetch_public_fees Scenarios.kraken_registry "kraken")))) /\
  _fetch_public_fees Scenarios.unknown_maker_registry "kraken"
  = _get_fallback_fees "kraken".
Proof.
  split.
  - refine (proj1 (public_symbol_fees Scenarios.kraken_registry "kraken"
                     Scenarios.kraken_exchange
                     (Registry.Rate 0.0016) (Registry.Rate 0.0026) _ _) _).
    + vm_compute; reflexivity.
    + vm_compute; reflexivity.
    + split; [discriminate|]. split; [discriminate|].
      intros s mm mt Hin E.
      destruct Hin as [<-|[<-|[]]]; vm_compute in E; injection E as <- <-;
        split; discriminate.
  - refine (proj2 (public_symbol_fees Scenarios.unknown_maker_registry "kraken"
                     (Registry.mkCcxtExchange
                        (Some (Registry.Null, Registry.Rate 0.0026)) ∅)
                     Registry.Null (Registry.Rate 0.0026) _ _) _).
    + vm_compute; reflexivity.
    + vm_compute; reflexivity.
    + left; reflexivity.
Defined.

(** In that registry every entry read is a number, and the symbol with
    fees of its own gets them; where ccxt holds [None] for the maker fee
    the lookup ends with the fallback fees of the venue. *)
Example public_fees_numeric_and_null :
  fees_numeric Scenarios.kraken_registry "kraken" Scenarios.kraken_exchange
    (Registry.Rate 0.0016) (Registry.Rate 0.0026) /\
  fp_get_fees (_fetch_public_fees Scenarios.kraken_registry "kraken")
    (Some "BTC/USD") = (0.001, 0.002) /\
  fp_get_fees (_fetch_public_fees Scenarios.kraken_registry "kraken")
    (Some "ETH/USD") = (0.0016, 0.0026) /\
  _fetch_public_fees Scenarios.unknown_maker_registry "kraken"
    = mkFeesPublic 0.0016 0.0026 SrcDefault "kraken" ∅.
Proof.
  split; [|repeat split; vm_compute; reflexivity].
  split; [done|]. split; [done|]. intros s mm mt Hin E.
  destruct Hin as [<-|[<-|[]]]; vm_compute in E; injection E as <- <-; done.
Qed.

End FeeFacts.

Module RegistryFacts.
Import Models Runtime Registry RegistryProps.

Lemma append_to_same k v d :
  append_to k v d !! k = Some (default [] (d !! k) ++ [v]).
Proof. unfold append_to. by simplify_map_eq. Qed.

Lemma append_to_keeps k v d k' l x :
  d !! k' = Some l -> In x l ->
  exists l', append_to k v d !! k' = Some l' /\ In x l'.
Proof.
  intros Hl Hx. destruct (decide (k = k')) as [->|Hne].
  - rewrite append_to_same, Hl. simpl. eexists; split; [done|].
    apply in_or_app. by left.
  - unfold append_to. rewrite lookup_insert_ne by done. by exists l.
Qed.

Lemma group_step_keeps X acc item b q :
  recorded acc b q -> recorded (group_step X acc item) b q.
Proof.
  intros [(l1 & H1 & Hq) (l2 & H2 & Hb)]. unfold group_step.
  destruct acc as [sbb sbq]. simpl in *.
  destruct (mm_active item.2); simpl; [|split; eauto].
  case_bool_decide; [split; eauto|].
  split; simpl; by eapply append_to_keeps.
Qed.

Lemma group_step_records X acc item :
  mm_active item.2 = true -> mm_quote item.2 ∉ X ->
  recorded (group_step X acc item) (mm_base item.2) (mm_quote item.2).
Proof.
  intros Hact Hx. unfold group_step. destruct acc as [sbb sbq].
  rewrite Hact. simpl. rewrite bool_decide_eq_false_2 by done.
  split; simpl; rewrite append_to_same; eexists; split; try done;
    apply in_or_app; right; by left.
Qed.

Lemma group_fold_complete X ms acc b q :
  recorded acc b q \/ (offers ms b q /\ q ∉ X) ->
  recorded (fold_left (group_step X) ms acc) b q.
Proof.
  revert acc. induction ms as [|item ms IH]; intros acc H; simpl.
  - destruct H as [H|[(i & [] & _) _]]. done.
  - apply IH. destruct H as [H|[(i & Hin & Hact & Hb & Hq) Hx]].
    + left. by apply group_step_keeps.
    + destruct Hin as [->|Hin].
      * left. subst b q. by apply group_step_records.
      * right. split; [|done]. by exists i.
Qed.

Lemma excluded_not (X : list string) (a : string) :
  ~ In a X -> a ∉ (list_to_set X : gset string).
Proof.
  intros H Hin. apply H. apply list_elem_of_In.
  by apply elem_of_list_to_set in Hin.
Qed.

(** X18. [get_triangular_symbols] misses no cycle: for a configured base [b]
    and two further distinct assets [a2] and [a3], neither an excluded
    quote, on a venue that lists the active markets [b/a2], [a2/a3] and
    [b/a3], the cycle [(b, a2, a3)] is returned. *)
Theorem triangular_cycles_complete
    (self : ExchangeRegistry) (X : list string) (venue : string)
    (B : list string) (ms : list (string * MarketMeta)) (b a2 a3 : string) :
  markets self !! venue = Some ms ->
  In b B ->
  a2 <> b -> ~ In a2 X ->
  a3 <> b -> a3 <> a2 -> ~ In a3 X ->
  offers ms b a2 -> offers ms a2 a3 -> offers ms b a3 ->
  In (b, a2, a3) (get_triangular_symbols self X venue B).
Proof.
  intros Hms HbB Hab Hx2 Hcb Hca Hx3 H1 H2 H3.
  apply excluded_not in Hx2 as Hx2', Hx3 as Hx3'.
  unfold get_triangular_symbols. rewrite Hms.
  pose proof (group_fold_complete (list_to_set X) ms (∅, ∅) b a2
                (or_intror (conj H1 Hx2'))) as [(l1 & E1 & I1) _].
  pose proof (group_fold_complete (list_to_set X) ms (∅, ∅) a2 a3
                (or_intror (conj H2 Hx3'))) as [(l2 & E2 & I2) _].
  pose proof (group_fold_complete (list_to_set X) ms (∅, ∅) b a3
                (or_intror (conj H3 Hx3'))) as [_ (l3 & E3 & I3)].
  destruct (fold_left _ ms (∅, ∅)) as [sbb sbq]. simpl in *.
  apply in_flat_map. exists b. split; [done|]. rewrite E1.
  apply in_flat_map. exists a2. split; [done|].
  apply String.eqb_neq in Hab as ->.
  rewrite bool_decide_eq_false_2 by done. rewrite E2.
  apply in_flat_map. exists a3. split; [done|].
  apply String.eqb_neq in Hcb as ->. apply String.eqb_neq in Hca as ->.
  simpl. rewrite bool_decide_eq_false_2 by done. rewrite E3.
  rewrite bool_decide_eq_true_2 by (by apply list_elem_of_In).
  by left.
Qed.

Lemma triangular_cycles_complete_witness :
  In ("BTC", "USDT", "TRY")
     (get_triangular_symbols Scenarios.try_registry [] "venue"
        Scenarios.default_bases).
Proof.
  apply (triangular_cycles_complete Scenarios.try_registry [] "venue"
           Scenarios.default_bases Scenarios.try_markets);
    try done; try (by intros []); try (simpl; tauto).
  - eexists (Scenarios.market "BTC/USDT" "BTC" "USDT"). simpl. tauto.
  - eexists (Scenarios.market "USDT/TRY" "USDT" "TRY"). simpl. tauto.
  - eexists (Scenarios.market "BTC/TRY" "BTC" "TRY"). simpl. tauto.
Defined.

Lemma count_step_count acc item s :
  default 0%Z (count_step acc item !! s)
  = (default 0 (acc !! s) + if is_listing s item then 1 else 0)%Z.
Proof.
  unfold count_step, is_listing.
  destruct (String.eqb_spec item.1 s) as [->|Hne]; simpl.
  - destruct (mm_active item.2); [by simplify_map_eq|lia].
  - destruct (mm_active item.2); [|lia].
    rewrite lookup_insert_ne by done. lia.
Qed.

Lemma count_fold_count ms acc s :
  default 0%Z (fold_left count_step ms acc !! s)
  = (default 0 (acc !! s)
     + Z.of_nat (length (List.filter (is_listing s) ms)))%Z.
Proof.
  revert acc. induction ms as [|item ms IH]; intros acc; simpl; [lia|].
  rewrite IH, count_step_count. destruct (is_listing s item); simpl; lia.
Qed.

Lemma listings_unique ms s :
  NoDup (map fst ms) ->
  length (List.filter (is_listing s) ms)
  = if lists_active ms s then 1%nat else 0%nat.
Proof.
  unfold lists_active. induction ms as [|item ms IH]; simpl; [done|].
  intros Hnd. apply NoDup_cons in Hnd as [Hout Hnd]. specialize (IH Hnd).
  destruct (is_listing s item) eqn:E; simpl; [|done].
  rewrite IH. destruct (existsb (is_listing s) ms) eqn:E'; [|done].
  exfalso. apply Hout. apply existsb_exists in E' as (i & Hi & Hl).
  unfold is_listing in E, Hl. apply andb_prop in E as [E _], Hl as [Hl _].
  apply String.eqb_eq in E, Hl. rewrite E, <- Hl.
  apply list_elem_of_In, in_map, Hi.
Qed.

Lemma count_symbols_count entries acc s :
  Forall (fun entry : string * list (string * MarketMeta) =>
            NoDup (map fst entry.2)) entries ->
  default 0%Z (count_symbols entries acc !! s)
  = (default 0 (acc !! s)
     + Z.of_nat (length (List.filter
                   (fun entry : string * list (string * MarketMeta) =>
                      lists_active entry.2 s) entries)))%Z.
Proof.
  unfold count_symbols. revert acc.
  induction entries as [|entry rest IH]; intros acc Hall; simpl; [lia|].
  apply Forall_cons in Hall as [Hnd Hall].
  rewrite IH, count_fold_count, listings_unique by done.
  destruct (lists_active entry.2 s); simpl; lia.
Qed.

Lemma count_step_positive acc item :
  counts_positive acc -> counts_positive (count_step acc item).
Proof.
  intros Hpos s c. unfold count_step.
  destruct (mm_active item.2); [|apply Hpos].
  destruct (decide (item.1 = s)) as [->|Hne].
  - rewrite lookup_insert_eq. intros [= <-].
    destruct (acc !! s) as [c0|] eqn:E; simpl; [|lia].
    apply Hpos in E. lia.
  - rewrite lookup_insert_ne by done. apply Hpos.
Qed.

Lemma count_symbols_positive entries acc :
  counts_positive acc -> counts_positive (count_symbols entries acc).
Proof.
  unfold count_symbols. revert acc.
  induction entries as [|entry rest IH]; intros acc Hpos; simpl; [done|].
  apply IH. generalize entry.2. intros ms. revert acc Hpos.
  induction ms as [|item ms IHms]; intros acc Hpos; simpl; [done|].
  apply IHms. by apply count_step_positive.
Qed.

(** X19. With one entry per symbol in each venue's table,
    [get_common_symbols] returns exactly the symbols that some venue lists
    as active and that at least [min_exchanges] venues list as active. *)
Theorem common_symbols_are_the_shared_ones
    (self : ExchangeRegistry) (min_exchanges : Z) (symbol : string) :
  unique_symbols self ->
  symbol ∈ get_common_symbols self min_exchanges <->
  (0 < venues_listing self symbol)%nat /\
  (min_exchanges <= Z.of_nat (venues_listing self symbol))%Z.
Proof.
  intros Huniq. unfold get_common_symbols, venues_listing.
  assert (Forall (fun entry : string * list (string * MarketMeta) =>
                    NoDup (map fst entry.2)) (map_to_list (markets self)))
    as Hall.
  { apply List.Forall_forall. intros [venue ms] Hin. simpl.
    apply (Huniq venue). by apply elem_of_map_to_list, list_elem_of_In. }
  pose proof (count_symbols_count _ ∅ symbol Hall) as Hcount.
  pose proof (count_symbols_positive (map_to_list (markets self)) ∅) as Hpos.
  rewrite lookup_empty in Hcount. simpl in Hcount.
  set (counts := count_symbols _ ∅) in *.
  set (n := length _) in *.
  rewrite elem_of_dom. unfold is_Some.
  split.
  - intros (c & Hc). apply map_lookup_filter_Some in Hc as [Hc Hle].
    simpl in Hle. rewrite Hc in Hcount. simpl in Hcount.
    apply Hpos in Hc; [|by intros ? ?; rewrite lookup_empty]. lia.
  - intros [Hn Hle]. destruct (counts !! symbol) as [c|] eqn:Hc;
      simpl in Hcount; [|lia].
    exists c. apply map_lookup_filter_Some. split; [done|]. simpl. lia.
Qed.

Lemma common_symbols_witness :
  "BTC/USDT" ∈ get_common_symbols Scenarios.two_venues 2 <->
  (0 < venues_listing Scenarios.two_venues "BTC/USDT")%nat /\
  (2 <= Z.of_nat (venues_listing Scenarios.two_venues "BTC/USDT"))%Z.
Proof.
  apply common_symbols_are_the_shared_ones.
  intros venue ms Hms. unfold Scenarios.two_venues in Hms. simpl in Hms.
  destruct (decide (venue = "venue")) as [->|Hv].
  - rewrite lookup_insert_eq in Hms. injection Hms as <-.
    apply (bool_decide_unpack _). vm_compute. exact I.
  - rewrite lookup_insert_ne in Hms by done.
    apply lookup_singleton_Some in Hms as [_ <-].
    apply (bool_decide_unpack _). vm_compute. exact I.
Defined.

End RegistryFacts.

Module EngineFacts.
Import Models Runtime Depth Engine.

Lemma for_each_invariant {T A B} (I : B -> T -> Prop)
    (body : B -> A -> St T B) (items : list A) (acc : B) (st : T) :
  (forall acc x st, In x items -> I acc st ->
     I (body acc x st).1 (body acc x st).2) ->
  I acc st ->
  I (for_each body items acc st).1 (for_each body items acc st).2.
Proof.
  revert acc st. induction items as [|x rest IH]; intros acc st Hbody Hacc.
  - done.
  - simpl. run_st.
    pose proof (Hbody acc x st (or_introl eq_refl) Hacc) as Hstep.
    destruct (body acc x st) as [acc' st']. simpl in Hstep.
    apply IH; [|done]. intros a y s Hy. apply Hbody. by right.
Qed.

Lemma dict_set_keys {V} k (v : V) d :
  NoDup (map fst d) -> NoDup (map fst (dict_set k v d)).
Proof.
  induction d as [|[k' v'] rest IH]; simpl; intros Hnd.
  - apply NoDup_singleton.
  - destruct (String.eqb_spec k' k) as [->|Hne]; [done|].
    simpl. apply NoDup_cons in Hnd as [Hout Hnd]. apply NoDup_cons.
    split; [|by apply IH].
    intros Hin. apply Hout. apply list_elem_of_In in Hin.
    apply list_elem_of_In. clear -Hin Hne.
    induction rest as [|[k2 v2] rest IH]; simpl in *.
    + by destruct Hin as [?|[]].
    + destruct (String.eqb_spec k2 k) as [->|Hne2]; [done|].
      simpl in Hin. destruct Hin as [?|Hin]; [by left|right; by apply IH].
Qed.

Lemma dict_set_items {V} k (v : V) d key value :
  In (key, value) (dict_set k v d) ->
  (key, value) = (k, v) \/ In (key, value) d.
Proof.
  induction d as [|[k' v'] rest IH]; simpl.
  - intros [<-|[]]. by left.
  - destruct (String.eqb_spec k' k) as [->|Hne]; simpl.
    + intros [<-|Hin]; [by left|right; by right].
    + intros [<-|Hin]; [right; by left|].
      destruct (IH Hin) as [?|?]; [by left|right; by right].
Qed.

Lemma exchange_pairs_distinct names a b :
  NoDup names -> In (a, b) (exchange_pairs names) ->
  In a names /\ In b names /\ a <> b.
Proof.
  induction names as [|name rest IH]; simpl; [done|].
  intros Hnd Hin. apply NoDup_cons in Hnd as [Hout Hnd].
  apply in_app_or in Hin as [Hin|Hin].
  - apply in_map_iff in Hin as (x & [= <- <-] & Hx).
    split; [by left|]. split; [by right|].
    intros <-. by apply Hout, list_elem_of_In.
  - destruct (IH Hnd Hin) as (Ha & Hb & Hab). auto.
Qed.

(** What [_check_opportunity] has established when it returns an
    opportunity. *)
Lemma check_opportunity_inv
    (config : Config.Config) (registry : Registry.ExchangeRegistry)
    (clock : Clock) (symbol buy sell : string)
    (symbol_books : gmap string OrderBook)
    (st st' : Fees.FeeManager * nat) (opp : Opportunity) :
  _check_opportunity config registry clock symbol buy sell symbol_books st
    = (Some opp, st') ->
  exists buy_book sell_book,
    symbol_books !! buy = Some buy_book /\
    symbol_books !! sell = Some sell_book /\
    op_symbol opp = symbol /\ buy_exchange opp = buy /\
    sell_exchange opp = sell /\
    op_notional opp = Config.MIN_NOTIONAL config /\
    fully_filled (calculate_buy_vwap (asks buy_book)
                    (Config.MIN_NOTIONAL config)) = true /\
    fully_filled (calculate_sell_vwap (bids sell_book)
                    (Config.MIN_NOTIONAL config)) = true /\
    buy_price_before_fees opp
      = vwap_price (calculate_buy_vwap (asks buy_book)
                      (Config.MIN_NOTIONAL config)) /\
    sell_price_before_fees opp
      = vwap_price (calculate_sell_vwap (bids sell_book)
                      (Config.MIN_NOTIONAL config)) /\
    buy_price_after_fees opp
      = buy_price_before_fees opp * (1 + (buy_fees opp).2) /\
    sell_price_after_fees opp
      = sell_price_before_fees opp * (1 - (sell_fees opp).2) /\
    buy_price_after_fees opp < sell_price_after_fees opp /\
    (st.2 <= st'.2)%nat.
Proof.
  unfold _check_opportunity, _is_websocket_data.
  destruct (symbol_books !! buy) as [buy_book|]; [|run_st; done].
  destruct (symbol_books !! sell) as [sell_book|]; [|run_st; done].
  destruct (asks buy_book) as [|a0 asks_] eqn:Ea; [run_st; done|].
  destruct (bids sell_book) as [|b0 bids_] eqn:Eb; [run_st; done|].
  run_st. destruct st as [fm i].
  destruct (Fees.get_fees registry buy (Some symbol) fm) as [bf fm1].
  destruct (Fees.get_fees registry sell (Some symbol) fm1) as [sf fm2].
  set (buy_vwap := calculate_buy_vwap (a0 :: asks_) _).
  set (sell_vwap := calculate_sell_vwap (b0 :: bids_) _).
  destruct (fully_filled buy_vwap) eqn:Hfb; simpl; [|done].
  destruct (fully_filled sell_vwap) eqn:Hfs; simpl; [|done].
  destruct (Qle_bool _ _) eqn:Hgain; [done|].
  destruct (Qle_bool (Config.MIN_SPREAD_BPS config) _) eqn:Hmin; simpl; [|done].
  intros [= <- <-]. exists buy_book, sell_book. rewrite Ea, Eb. simpl.
  repeat split; try done; try lia.
  apply Qnot_le_lt. intros Hle. apply Qle_bool_iff in Hle. congruence.
Qed.

Lemma check_opportunity_clock
    (config : Config.Config) (registry : Registry.ExchangeRegistry)
    (clock : Clock) (symbol buy sell : string)
    (symbol_books : gmap string OrderBook) (st : Fees.FeeManager * nat) :
  (st.2 <= (_check_opportunity config registry clock symbol buy sell
              symbol_books st).2.2)%nat.
Proof.
  unfold _check_opportunity, _is_websocket_data.
  destruct (symbol_books !! buy) as [buy_book|]; [|run_st; done].
  destruct (symbol_books !! sell) as [sell_book|]; [|run_st; done].
  destruct (asks buy_book) as [|a0 asks_] eqn:Ea; [run_st; done|].
  destruct (bids sell_book) as [|b0 bids_] eqn:Eb; [run_st; done|].
  run_st. destruct st as [fm i].
  destruct (Fees.get_fees registry buy (Some symbol) fm) as [bf fm1].
  destruct (Fees.get_fees registry sell (Some symbol) fm1) as [sf fm2].
  destruct (fully_filled _); simpl; [|done].
  destruct (fully_filled _); simpl; [|done].
  destruct (Qle_bool _ _); [done|].
  destruct (Qle_bool (Config.MIN_SPREAD_BPS config) _); simpl; [|done].
  lia.
Qed.

Section Scan.

Variable config : Config.Config.
Variable registry : Registry.ExchangeRegistry.
Variable clock : Clock.
Variable self : ArbitrageEngine.
Variable symbol : string.

Lemma collected_later exchanges first last last' symbol_books :
  (last <= last')%nat ->
  collected clock self symbol exchanges first last symbol_books ->
  collected clock self symbol exchanges first last' symbol_books.
Proof.
  intros Hle [Hnd Hall]. split; [done|]. intros e b Hin.
  destruct (Hall e b Hin) as (H1 & H2 & H3 & H4 & i & Hi & Hage).
  repeat split; try done. exists i. split; [lia|done].
Qed.

Lemma collect_book_collected exchanges first symbol_books exchange
    (st : Fees.FeeManager * nat) :
  In exchange exchanges -> (first <= st.2)%nat ->
  collected clock self symbol exchanges first st.2 symbol_books ->
  let r := collect_book clock self symbol symbol_books exchange st in
  r.2.1 = st.1 /\ (st.2 <= r.2.2)%nat /\
  collected clock self symbol exchanges first r.2.2 r.1.
Proof.
  intros Hex Hfirst Hc. destruct st as [fm i]. unfold collect_book.
  simpl in Hfirst, Hc.
  destruct (order_books self !! (exchange, symbol)) as [book|] eqn:Hbook;
    run_st; [|simpl; split; [done|]; split; [lia|done]].
  destruct (_ && _ && _) eqn:Hok; simpl.
  - split; [done|]. split; [lia|].
    apply andb_prop in Hok as [Hok Hasks]. apply andb_prop in Hok as [Hage Hbids].
    apply negb_true_iff, bool_decide_eq_false in Hasks, Hbids.
    apply Z.leb_le in Hage.
    destruct (collected_later exchanges first i (S i) symbol_books
                ltac:(lia) Hc) as [Hnd Hall].
    split; [by apply dict_set_keys|].
    intros e b Hin. apply dict_set_items in Hin as [[= -> ->]|Hin].
    + repeat split; try done. exists i. split; [lia|done].
    + by apply Hall.
  - split; [done|]. split; [lia|].
    by apply (collected_later exchanges first i (S i)); [lia|].
Qed.

Lemma collect_loop_collected exchanges (st : Fees.FeeManager * nat) :
  let r := for_each (collect_book clock self symbol) exchanges [] st in
  r.2.1 = st.1 /\ (st.2 <= r.2.2)%nat /\
  collected clock self symbol exchanges st.2 r.2.2 r.1.
Proof.
  apply (for_each_invariant
           (fun acc s => s.1 = st.1 /\ (st.2 <= s.2)%nat /\
                         collected clock self symbol exchanges st.2 s.2 acc)).
  - intros acc x s Hx (Hfm & Hle & Hc).
    destruct (collect_book_collected exchanges st.2 acc x s Hx Hle Hc)
      as (H1 & H2 & H3).
    split; [congruence|]. split; [lia|done].
  - split; [done|]. split; [lia|]. split; [constructor|]. by intros ? ? [].
Qed.

Lemma checked_is_scanned exchanges first last symbol_books buy sell
    (st st' : Fees.FeeManager * nat) opp :
  collected clock self symbol exchanges first last symbol_books ->
  buy <> sell ->
  _check_opportunity config registry clock symbol buy sell
    (list_to_map symbol_books) st = (Some opp, st') ->
  scanned config clock self symbol exchanges first last opp.
Proof.
  intros [Hnd Hall] Hne Hcheck.
  apply check_opportunity_inv in Hcheck
    as (bb & sb & Hb & Hs & Hsym & Hbe & Hse & _ & _ & _ & Hpb & Hps & _).
  apply elem_of_list_to_map_2, list_elem_of_In, Hall in Hb
    as (Hb1 & Hb2 & _ & _ & Hb3).
  apply elem_of_list_to_map_2, list_elem_of_In, Hall in Hs
    as (Hs1 & Hs2 & _ & _ & Hs3).
  unfold scanned. rewrite Hsym, Hbe, Hse. repeat split; try done.
  by exists bb, sb.
Qed.

Lemma scanned_later exchanges first last last' opp :
  (last <= last')%nat ->
  scanned config clock self symbol exchanges first last opp ->
  scanned config clock self symbol exchanges first last' opp.
Proof.
  intros Hle (H1 & H2 & H3 & H4 & bb & sb & H5 & H6 & (i & Hi & H7)
              & (j & Hj & H8) & H9 & H10).
  repeat split; try done. exists bb, sb. repeat split; try done.
  - exists i. split; [lia|done].
  - exists j. split; [lia|done].
Qed.

Lemma append_found_scanned exchanges first last buy sell symbol_books
    (st : Fees.FeeManager * nat) opportunities :
  collected clock self symbol exchanges first last symbol_books ->
  buy <> sell ->
  Forall (scanned config clock self symbol exchanges first last) opportunities ->
  Forall (scanned config clock self symbol exchanges first last)
    (append_found opportunities
       (_check_opportunity config registry clock symbol buy sell
          (list_to_map symbol_books) st).1).
Proof.
  intros Hc Hne Hall.
  destruct (_check_opportunity _ _ _ _ _ _ _ st) as [[opp|] st'] eqn:E;
    simpl; [|done].
  apply Forall_app. split; [done|]. apply Forall_singleton.
  by eapply checked_is_scanned.
Qed.

Lemma check_pair_scanned exchanges first last symbol_books names
    (st : Fees.FeeManager * nat) opportunities :
  collected clock self symbol exchanges first last symbol_books ->
  names.1 <> names.2 ->
  Forall (scanned config clock self symbol exchanges first last) opportunities ->
  let r := check_pair config registry clock symbol symbol_books opportunities
             names st in
  (st.2 <= r.2.2)%nat /\
  Forall (scanned config clock self symbol exchanges first last) r.1.
Proof.
  intros Hc Hne Hall. destruct names as [buy sell]. simpl in Hne.
  unfold check_pair. run_st.
  pose proof (append_found_scanned exchanges first last buy sell symbol_books
                st opportunities Hc Hne Hall) as H1.
  pose proof (check_opportunity_clock config registry clock symbol buy sell
                (list_to_map symbol_books) st) as Hc1.
  destruct (_check_opportunity _ _ _ _ buy sell _ st) as [opp1 st1].
  simpl in H1, Hc1.
  pose proof (append_found_scanned exchanges first last sell buy symbol_books
                st1 _ Hc (not_eq_sym Hne) H1) as H2.
  pose proof (check_opportunity_clock config registry clock symbol sell buy
                (list_to_map symbol_books) st1) as Hc2.
  destruct (_check_opportunity _ _ _ _ sell buy _ st1) as [opp2 st2].
  simpl in *. split; [lia|done].
Qed.

Lemma scan_symbol_scanned exchanges (st : Fees.FeeManager * nat) :
  let r := _scan_symbol_opportunities config registry clock self symbol
             exchanges st in
  (st.2 <= r.2.2)%nat /\
  Forall (scanned config clock self symbol exchanges st.2 r.2.2) r.1.
Proof.
  unfold _scan_symbol_opportunities. run_st.
  destruct (collect_loop_collected exchanges st) as (_ & Hle & Hc).
  destruct (for_each (collect_book clock self symbol) exchanges [] st)
    as [symbol_books st1]. simpl in Hle, Hc.
  destruct (length symbol_books <? 2)%nat; simpl; [split; [lia|constructor]|].
  pose proof (for_each_invariant
    (fun acc s => (st1.2 <= s.2)%nat /\
       Forall (scanned config clock self symbol exchanges st.2 st1.2) acc)
    (check_pair config registry clock symbol symbol_books)
    (exchange_pairs (map fst symbol_books)) [] st1) as Hinv.
  simpl in Hinv. destruct Hinv as [Hle2 Hall].
  - intros acc [a b] s Hin [Hs Hacc].
    apply exchange_pairs_distinct in Hin as (_ & _ & Hab);
      [|exact (proj1 Hc)].
    destruct (check_pair_scanned exchanges st.2 st1.2 symbol_books (a, b) s acc
                Hc Hab Hacc) as [Hle' Hall'].
    split; [lia|done].
  - split; [lia|constructor].
  - split; [lia|]. eapply Forall_impl; [exact Hall|].
    intros opp. by apply scanned_later.
Qed.

End Scan.

(** X20. Every opportunity [scan_opportunities] returns is for one of the
    symbols asked for and names two different exchanges among those asked
    for; the engine stores a book of that symbol for each, read during the
    scan when it was at most sixty seconds old, and the opportunity's prices
    before fees are the VWAPs of the target notional on the buying venue's
    asks and on the selling venue's bids. *)
Theorem scan_opportunities_sound
    (config : Config.Config) (registry : Registry.ExchangeRegistry)
    (clock : Clock) (self : ArbitrageEngine)
    (symbols exchanges : list string) (st : Fees.FeeManager * nat) :
  Forall (fun opp =>
            In (op_symbol opp) symbols /\
            scanned config clock self (op_symbol opp) exchanges st.2
              (scan_opportunities config registry clock self symbols
                 exchanges st).2.2 opp)
         (scan_opportunities config registry clock self symbols exchanges
            st).1.1.
Proof.
  unfold scan_opportunities. run_st.
  pose proof (for_each_invariant
    (fun acc s => (st.2 <= s.2)%nat /\
       Forall (fun o => In (op_symbol o) symbols /\
                 scanned config clock self (op_symbol o) exchanges st.2 s.2 o)
              acc)
    (fun opportunities symbol =>
       symbol_opportunities ←
         _scan_symbol_opportunities config registry clock self symbol exchanges;
       mret (opportunities ++ symbol_opportunities))
    symbols [] st) as Hinv.
  run_st. destruct Hinv as [Hle Hall].
  - intros acc symbol s Hsym [Hs Hacc].
    destruct (scan_symbol_scanned config registry clock self symbol exchanges s)
      as [Hle' Hall'].
    destruct (_scan_symbol_opportunities _ _ _ _ symbol exchanges s)
      as [found s']. simpl in *. split; [lia|].
    apply Forall_app. split.
    + eapply Forall_impl; [exact Hacc|]. intros o [Ho Hsc]. split; [done|].
      by apply (scanned_later _ _ _ _ _ _ s.2 s'.2).
    + eapply Forall_impl; [exact Hall'|]. intros o Hsc.
      assert (op_symbol o = symbol) as Ho by apply Hsc. rewrite Ho.
      split; [done|].
      destruct Hsc as (H1 & H2 & H3 & H4 & bb & sb & H5 & H6 & (i & Hi & H7)
                       & (j & Hj & H8) & H9 & H10).
      repeat split; try done. exists bb, sb. repeat split; try done.
      * exists i. split; [lia|done].
      * exists j. split; [lia|done].
  - split; [lia|constructor].
  - destruct (for_each _ symbols [] st) as [opps [fm i]]. simpl in *.
    eapply Forall_impl; [exact Hall|]. intros o [Ho Hsc]. split; [done|].
    by apply (scanned_later _ _ _ _ _ _ i (S i)); [lia|].
Qed.

Lemma few_keys {V} (d : list (string * V)) :
  NoDup (map fst d) ->
  (forall a b, In a (map fst d) -> In b (map fst d) -> a = b) ->
  (length d <= 1)%nat.
Proof.
  destruct d as [|[k1 v1] [|[k2 v2] rest]]; simpl; try lia.
  intros Hnd Heq. exfalso. apply NoDup_cons in Hnd as [Hout _].
  apply Hout. rewrite (Heq k1 k2) by auto. apply elem_of_cons. by left.
Qed.

(** X21. When the engine stores a book of the symbol for at most one of the
    exchanges asked for, [_scan_symbol_opportunities] returns nothing and
    does not touch the fee manager. *)
Theorem scan_symbol_needs_two_books
    (config : Config.Config) (registry : Registry.ExchangeRegistry)
    (clock : Clock) (self : ArbitrageEngine) (symbol : string)
    (exchanges : list string) (st : Fees.FeeManager * nat) :
  (forall e1 e2, In e1 exchanges -> In e2 exchanges ->
     is_Some (order_books self !! (e1, symbol)) ->
     is_Some (order_books self !! (e2, symbol)) -> e1 = e2) ->
  (_scan_symbol_opportunities config registry clock self symbol exchanges st).1
    = [] /\
  (_scan_symbol_opportunities config registry clock self symbol exchanges
     st).2.1 = st.1.
Proof.
  intros Hone. unfold _scan_symbol_opportunities. run_st.
  destruct (collect_loop_collected clock self symbol exchanges st)
    as (Hfm & _ & Hnd & Hall).
  destruct (for_each (collect_book clock self symbol) exchanges [] st)
    as [symbol_books st1]. simpl in *.
  assert (length symbol_books <= 1)%nat as Hlen.
  { apply few_keys; [done|]. intros a b Ha Hb.
    apply in_map_iff in Ha as ([a' va] & <- & Ha).
    apply in_map_iff in Hb as ([b' vb] & <- & Hb).
    apply Hall in Ha as (Ha1 & Ha2 & _), Hb as (Hb1 & Hb2 & _). simpl.
    apply Hone; try done; by eexists. }
  assert ((length symbol_books <? 2)%nat = true) as ->
    by (apply Nat.ltb_lt; lia).
  done.
Qed.

Lemma scan_symbol_needs_two_books_witness :
  (_scan_symbol_opportunities Scenarios.cross_config Scenarios.cross_registry
     Scenarios.still_clock
     (update_order_book Scenarios.book_a (mkArbitrageEngine ∅ 0))
     "BTC/USDT" ["exchange_a"; "exchange_b"] Scenarios.cross_start).1 = [] /\
  (_scan_symbol_opportunities Scenarios.cross_config Scenarios.cross_registry
     Scenarios.still_clock
     (update_order_book Scenarios.book_a (mkArbitrageEngine ∅ 0))
     "BTC/USDT" ["exchange_a"; "exchange_b"] Scenarios.cross_start).2.1
  = Scenarios.cross_start.1.
Proof.
  apply scan_symbol_needs_two_books.
  intros e1 e2 [<-|[<-|[]]] [<-|[<-|[]]] [b1 H1] [b2 H2];
    try done; vm_compute in H1, H2; discriminate.
Defined.

(** With a book for both venues the same scan finds the opportunity of the
    cross-detection scenario. *)
Example scan_opportunities_finds_cross :
  (scan_opportunities Scenarios.cross_config Scenarios.cross_registry
     Scenarios.still_clock Scenarios.cross_engine
     ["BTC/USDT"] ["exchange_a"; "exchange_b"] Scenarios.cross_start).1.1
  = [Scenarios.cross_opportunity].
Proof. vm_compute. reflexivity. Qed.

End EngineFacts.

Module TriFacts.
Import Models Runtime Depth TriEngine.

Lemma get_order_book_inv clock exchange symbol
    (st st' : TriangularArbitrageEngine * nat) book :
  _get_order_book clock exchange symbol st = (Some book, st') ->
  st' = (st.1, S st.2) /\
  order_books st.1 !! (exchange, symbol) = Some book /\
  (clock st.2 - ob_timestamp book <= seconds 60)%Z /\
  bids book <> [] /\ asks book <> [].
Proof.
  destruct st as [self i]. unfold _get_order_book. run_st. run_st.
  cbn -[seconds Z.sub Z.ltb Z.le].
  destruct (order_books self !! (exchange, symbol)) as [b|]; cbn beta iota;
    [|done].
  destruct (seconds 60 <? clock i - ob_timestamp b)%Z eqn:Hage; [done|].
  apply Z.ltb_ge in Hage.
  destruct (bids b) eqn:Eb; [done|]. destruct (asks b) eqn:Ea; [done|].
  intros [= <- <-]. rewrite Eb, Ea. by repeat split.
Qed.

Lemma get_order_book_frame clock exchange symbol
    (st : TriangularArbitrageEngine * nat) :
  (_get_order_book clock exchange symbol st).2.1 = st.1 /\
  (st.2 <= (_get_order_book clock exchange symbol st).2.2 <= S st.2)%nat.
Proof.
  destruct st as [self i]. unfold _get_order_book. run_st. run_st.
  cbn -[seconds Z.sub Z.ltb Z.le].
  destruct (order_books self !! (exchange, symbol)) as [b|]; cbn beta iota;
    [|simpl; split; [done|lia]].
  destruct (seconds 60 <? clock i - ob_timestamp b)%Z;
    [simpl; split; [done|lia]|].
  destruct (bids b); [simpl; split; [done|lia]|].
  destruct (asks b); simpl; (split; [done|lia]).
Qed.

Lemma direct_block_symbol symbol book amount preferred_side fees got s p side :
  direct_block symbol book amount preferred_side fees
    = Some (Some (got, s, p, side)) -> s = symbol.
Proof.
  unfold direct_block. destruct (String.eqb preferred_side "buy").
  - destruct (fully_filled _); [|done]. by intros [= _ <- _ _].
  - destruct (bids book); [done|]. destruct (fully_filled _); [|done].
    by intros [= _ <- _ _].
Qed.

Lemma reverse_block_symbol symbol book amount preferred_side fees got s p side :
  reverse_block symbol book amount preferred_side fees
    = Some (Some (got, s, p, side)) -> s = symbol.
Proof.
  unfold reverse_block. destruct (String.eqb preferred_side "buy").
  - destruct (bids book); [done|]. destruct (fully_filled _); [|done].
    by intros [= _ <- _ _].
  - destruct (fully_filled _); [|done]. by intros [= _ <- _ _].
Qed.

Ltac case_block :=
  match goal with
  | |- context [direct_block ?a ?b ?c ?d ?e] =>
      destruct (direct_block a b c d e) as [returned|] eqn:Ed
  | |- context [reverse_block ?a ?b ?c ?d ?e] =>
      destruct (reverse_block a b c d e) as [returned|] eqn:Er
  end.

Lemma execute_leg_frame clock exchange from_asset to_asset amount
    preferred_side fees (st : TriangularArbitrageEngine * nat) :
  let r := _execute_leg clock exchange from_asset to_asset amount
             preferred_side fees st in
  r.2.1 = st.1 /\ (st.2 <= r.2.2)%nat.
Proof.
  unfold _execute_leg. run_st.
  destruct (get_order_book_frame clock exchange
              (from_asset +:+ "/" +:+ to_asset) st) as [H1 H2].
  destruct (_get_order_book clock exchange _ st) as [book1 st1].
  simpl in H1, H2.
  assert (let r := (let '(a, s') := _get_order_book clock exchange
                               (to_asset +:+ "/" +:+ from_asset) st1 in
             match option_bind _ _
                     (fun b => reverse_block (to_asset +:+ "/" +:+ from_asset)
                                 b amount preferred_side fees) a
             with
             | Some returned => fun s => (returned, s)
             | None => fun s => (None, s)
             end s') in r.2.1 = st.1 /\ (st.2 <= r.2.2)%nat) as Hrev.
  { destruct (get_order_book_frame clock exchange
                (to_asset +:+ "/" +:+ from_asset) st1) as [H3 H4].
    destruct (_get_order_book clock exchange _ st1) as [book2 st2].
    simpl in H3, H4. destruct (option_bind _ _ _ book2); simpl;
      (split; [congruence|lia]). }
  destruct book1 as [b1|]; simpl; [|exact Hrev].
  case_block; [|exact Hrev]. simpl. split; [done|lia].
Qed.

Lemma execute_leg_inv clock exchange from_asset to_asset amount
    preferred_side fees (st st' : TriangularArbitrageEngine * nat)
    got symbol p side :
  _execute_leg clock exchange from_asset to_asset amount preferred_side fees st
    = (Some (got, symbol, p, side), st') ->
  st'.1 = st.1 /\ (st.2 <= st'.2)%nat /\
  leg_on_book clock st.1 exchange from_asset to_asset st.2 st'.2 symbol.
Proof.
  unfold _execute_leg. run_st.
  destruct (get_order_book_frame clock exchange
              (from_asset +:+ "/" +:+ to_asset) st) as [H1 H2].
  destruct (_get_order_book clock exchange _ st) as [book1 st1] eqn:E1.
  simpl in H1, H2.
  assert ((let '(a, s') := _get_order_book clock exchange
                               (to_asset +:+ "/" +:+ from_asset) st1 in
             match option_bind _ _
                     (fun b => reverse_block (to_asset +:+ "/" +:+ from_asset)
                                 b amount preferred_side fees) a
             with
             | Some returned => fun s => (returned, s)
             | None => fun s => (None, s)
             end s') = (Some (got, symbol, p, side), st') ->
          st'.1 = st.1 /\ (st.2 <= st'.2)%nat /\
          leg_on_book clock st.1 exchange from_asset to_asset st.2 st'.2 symbol)
    as Hrev.
  { destruct (_get_order_book clock exchange _ st1) as [book2 st2] eqn:E2.
    destruct book2 as [book2|]; simpl; [|done].
    case_block; [|done]. intros [= -> <-].
    apply reverse_block_symbol in Er as ->.
    apply get_order_book_inv in E2 as (-> & Hb & Hage & Hbids & Hasks).
    simpl. split; [done|]. split; [lia|]. split; [by right|].
    exists book2. rewrite <- H1. repeat split; try done.
    exists st1.2. split; [lia|done]. }
  destruct book1 as [b1|]; simpl; [|exact Hrev].
  case_block; [|exact Hrev]. intros [= -> <-].
  apply direct_block_symbol in Ed as ->.
  apply get_order_book_inv in E1 as (-> & Hb & Hage & Hbids & Hasks).
  simpl. split; [done|]. split; [lia|]. split; [by left|].
  exists b1. repeat split; try done. exists st.2. split; [lia|done].
Qed.

Lemma leg_on_book_wider clock self exchange a b first first' last last' symbol :
  (first' <= first)%nat -> (last <= last')%nat ->
  leg_on_book clock self exchange a b first last symbol ->
  leg_on_book clock self exchange a b first' last' symbol.
Proof.
  intros H1 H2 [Hs (book & Hb & Hbids & Hasks & i & Hi & Hage)].
  split; [done|]. exists book. repeat split; try done.
  exists i. split; [lia|done].
Qed.

(** What [_check_triangular_opportunity] has established when it returns an
    opportunity. *)
Lemma check_triangular_inv config clock exchange base asset2 asset3 fees
    (st st' : TriangularArbitrageEngine * nat) opp :
  _check_triangular_opportunity config clock exchange base asset2 asset3 fees st
    = (Some opp, st') ->
  st'.1 = st.1 /\ (st.2 <= st'.2)%nat /\
  path opp = (base, asset2, asset3) /\
  tri_found config clock st.1 exchange st.2 st'.2 opp.
Proof.
  unfold _check_triangular_opportunity. run_st.
  destruct (_execute_leg clock exchange base asset2 _ "buy" fees st)
    as [[[[[a2 s1] p1] d1]|] st1] eqn:E1; [|done].
  apply execute_leg_inv in E1 as (Hs1 & Hi1 & Hl1).
  destruct (_execute_leg clock exchange asset2 asset3 a2 "buy" fees st1)
    as [[[[[a3 s2] p2] d2]|] st2] eqn:E2; [|done].
  apply execute_leg_inv in E2 as (Hs2 & Hi2 & Hl2).
  destruct (_execute_leg clock exchange asset3 base a3 "sell" fees st2)
    as [[[[[fin s3] p3] d3]|] st3] eqn:E3; [|done].
  apply execute_leg_inv in E3 as (Hs3 & Hi3 & Hl3).
  destruct (Qle_bool fin _) eqn:Hgain; [done|].
  destruct (Qle_bool (Config.MIN_TRI_GAIN_BPS config) _) eqn:Hmin; simpl; [|done].
  destruct st3 as [self3 i3]. intros [= <- <-]. simpl in *.
  rewrite Hs2, Hs1 in Hs3. rewrite Hs1 in Hs2.
  split; [done|]. split; [lia|]. split; [done|].
  unfold tri_found. simpl.
  repeat split; try done.
  - apply Qnot_le_lt. intros Hle. apply Qle_bool_iff in Hle. congruence.
  - by apply Qle_bool_iff.
  - apply Hl1.
  - destruct Hl1 as [_ (book & Hb & Hbids & Hasks & i & Hi & Hage)].
    exists book. repeat split; try done. exists i. split; [lia|done].
  - apply Hl2.
  - destruct Hl2 as [_ (book & Hb & Hbids & Hasks & i & Hi & Hage)].
    exists book. rewrite <- Hs1. repeat split; try done.
    exists i. split; [lia|done].
  - apply Hl3.
  - destruct Hl3 as [_ (book & Hb & Hbids & Hasks & i & Hi & Hage)].
    exists book. rewrite <- Hs2. repeat split; try done.
    exists i. split; [lia|done].
Qed.

Lemma check_triangular_frame config clock exchange base asset2 asset3 fees
    (st : TriangularArbitrageEngine * nat) :
  let r := _check_triangular_opportunity config clock exchange base asset2
             asset3 fees st in
  r.2.1 = st.1 /\ (st.2 <= r.2.2)%nat.
Proof.
  unfold _check_triangular_opportunity. run_st.
  pose proof (execute_leg_frame clock exchange base asset2
                (Config.MIN_NOTIONAL config) "buy" fees st) as [F1 G1].
  destruct (_execute_leg clock exchange base asset2 _ "buy" fees st)
    as [[[[[a2 s1] p1] d1]|] st1]; [|by split].
  pose proof (execute_leg_frame clock exchange asset2 asset3 a2 "buy"
                fees st1) as [F2 G2].
  destruct (_execute_leg clock exchange asset2 asset3 a2 "buy" fees st1)
    as [[[[[a3 s2] p2] d2]|] st2]; simpl in *; [|split; [congruence|lia]].
  pose proof (execute_leg_frame clock exchange asset3 base a3 "sell"
                fees st2) as [F3 G3].
  destruct (_execute_leg clock exchange asset3 base a3 "sell" fees st2)
    as [[[[[fin s3] p3] d3]|] st3]; simpl in *; [|split; [congruence|lia]].
  destruct (Qle_bool fin _); simpl; [split; [congruence|lia]|].
  destruct (negb _); simpl; [split; [congruence|lia]|].
  destruct st3 as [self3 i3]. simpl in *. split; [congruence|lia].
Qed.

Lemma tri_found_same_books config clock self self' exchange first last opp :
  order_books self' = order_books self ->
  tri_found config clock self exchange first last opp ->
  tri_found config clock self' exchange first last opp.
Proof.
  intros Hsame. unfold tri_found, leg_on_book. by rewrite Hsame.
Qed.

Lemma tri_found_wider config clock self exchange first first' last last' opp :
  (first' <= first)%nat -> (last <= last')%nat ->
  tri_found config clock self exchange first last opp ->
  tri_found config clock self exchange first' last' opp.
Proof.
  intros H1 H2 (Ha & Hb & Hc & Hd & He & Hf & Hg & L1 & L2 & L3).
  repeat split; try done;
    (eapply leg_on_book_wider; [exact H1|exact H2|done]).
Qed.

(** X23. An opportunity [_check_triangular_opportunity] returns is on the
    path it was asked about, starts from [MIN_NOTIONAL] of the base asset
    and ends with more, its gain reaches [MIN_TRI_GAIN_BPS] and is the
    relative gain times 10000; each leg was traded under the symbol of its
    hop or the reverse symbol, on a two-sided book the engine stores that
    was at most sixty seconds old when read; and the engine is left as it
    was. *)
Theorem check_triangular_opportunity_sound
    (config : Config.Config) (clock : Clock)
    (exchange base asset2 asset3 : string) (fees : FeesPublic)
    (self : TriangularArbitrageEngine) (i : nat)
    (st' : TriangularArbitrageEngine * nat) (opp : TriOpportunity) :
  _check_triangular_opportunity config clock exchange base asset2 asset3 fees
    (self, i) = (Some opp, st') ->
  st'.1 = self /\
  path opp = (base, asset2, asset3) /\
  tri_found config clock self exchange i st'.2 opp.
Proof.
  intros Hcheck. apply check_triangular_inv in Hcheck as (H1 & _ & H2 & H3).
  done.
Qed.

Lemma check_triangular_opportunity_sound_witness :
  (_check_triangular_opportunity Scenarios.cross_config Scenarios.still_clock
     "venue" "USDT" "BTC" "ETH" (Scenarios.plain_fees "venue")
     (Scenarios.gain_engine, 0%nat)).2.1 = Scenarios.gain_engine /\
  path Scenarios.gain_opportunity = ("USDT", "BTC", "ETH") /\
  tri_found Scenarios.cross_config Scenarios.still_clock Scenarios.gain_engine
    "venue" 0
    (_check_triangular_opportunity Scenarios.cross_config
       Scenarios.still_clock "venue" "USDT" "BTC" "ETH"
       (Scenarios.plain_fees "venue") (Scenarios.gain_engine, 0%nat)).2.2
    Scenarios.gain_opportunity.
Proof.
  apply (check_triangular_opportunity_sound Scenarios.cross_config
           Scenarios.still_clock "venue" "USDT" "BTC" "ETH"
           (Scenarios.plain_fees "venue") Scenarios.gain_engine 0%nat).
  vm_compute. reflexivity.
Defined.

Lemma has_book_same self self' exchange symbol :
  order_books self' = order_books self ->
  has_book self' exchange symbol = has_book self exchange symbol.
Proof. unfold has_book. by intros ->. Qed.

Lemma has_all_symbols_same self self' exchange p :
  order_books self' = order_books self ->
  has_all_symbols self' exchange p = has_all_symbols self exchange p.
Proof.
  intros Hsame. destruct p as [[b a2] a3]. unfold has_all_symbols. simpl.
  by rewrite !(has_book_same self self') by done.
Qed.

Lemma has_book_update B self exchange symbol :
  has_book self exchange symbol = true ->
  has_book (update_order_book B self) exchange symbol = true.
Proof.
  unfold has_book, update_order_book. simpl. intros H.
  apply bool_decide_eq_true in H. apply bool_decide_eq_true.
  destruct (decide ((ob_exchange B, ob_symbol B) = (exchange, symbol)))
    as [->|Hne].
  - rewrite lookup_insert_eq. by eexists.
  - by rewrite lookup_insert_ne.
Qed.

Lemma has_all_symbols_update B self exchange p :
  has_all_symbols self exchange p = true ->
  has_all_symbols (update_order_book B self) exchange p = true.
Proof.
  destruct p as [[b a2] a3]. unfold has_all_symbols. simpl.
  rewrite !andb_true_r. intros H.
  apply andb_prop in H as [H1 H]. apply andb_prop in H as [H2 H3].
  apply orb_prop in H1, H2, H3.
  repeat (apply andb_true_intro; split); apply orb_true_intro;
    [destruct H1|destruct H2|destruct H3];
    ((left; by apply has_book_update) || (right; by apply has_book_update)).
Qed.

(** X24. The engine's cached paths keep their books: when every path held
    for an exchange has, for each hop, a stored book under the hop's symbol
    or the reverse one, this still holds after [update_order_book] and
    after [_update_triangular_paths]. *)
Theorem cached_paths_keep_books
    (config : Config.Config) (clock : Clock)
    (registry : Registry.ExchangeRegistry)
    (self : TriangularArbitrageEngine) :
  paths_have_books self ->
  (forall B, paths_have_books (update_order_book B self)) /\
  (forall exchange i,
     paths_have_books
       (_update_triangular_paths config clock registry exchange (self, i)).2.1).
Proof.
  intros Hinv. split.
  - intros B e paths p Hl Hin. apply has_all_symbols_update.
    by apply (Hinv e paths).
  - intros exchange i. unfold _update_triangular_paths. run_st. run_st.
    cbn -[seconds Z.sub Z.ltb].
    set (fresh := match path_cache_time self !! exchange with
                  | Some cached => _ | None => false end).
    destruct fresh; [done|]. cbn.
    intros e paths p Hl Hin. simpl in Hl.
    rewrite (has_all_symbols_same self) by done.
    destruct (decide (exchange = e)) as [->|Hne].
    + rewrite lookup_insert_eq in Hl. injection Hl as <-.
      by apply filter_In in Hin as [_ Hin].
    + rewrite lookup_insert_ne in Hl by done. by apply (Hinv e paths).
Qed.

(** An engine that holds the cycle USDT -> BTC -> ETH for a venue, and the
    three books of the cycle: the cycle keeps its books. *)
Lemma cached_paths_keep_books_witness :
  triangular_paths Scenarios.cached_engine !! "venue"
    = Some [("USDT", "BTC", "ETH")] /\
  paths_have_books Scenarios.cached_engine /\
  (forall B, paths_have_books (update_order_book B Scenarios.cached_engine)) /\
  (forall exchange i,
     paths_have_books
       (_update_triangular_paths Scenarios.cross_config Scenarios.still_clock
          Scenarios.gain_registry exchange (Scenarios.cached_engine, i)).2.1).
Proof.
  assert (paths_have_books Scenarios.cached_engine) as Hheld.
  { intros e paths p Hl Hin.
    destruct (decide (e = "venue")) as [->|Hne].
    - vm_compute in Hl. injection Hl as <-.
      destruct Hin as [<-|[]]. vm_compute. reflexivity.
    - unfold Scenarios.cached_engine in Hl. cbn [triangular_paths] in Hl.
      rewrite lookup_singleton_ne in Hl by done. discriminate. }
  split; [vm_compute; reflexivity|]. split; [exact Hheld|].
  apply (cached_paths_keep_books Scenarios.cross_config Scenarios.still_clock
           Scenarios.gain_registry Scenarios.cached_engine Hheld).
Defined.

(** There the update caches the cycle USDT -> BTC -> ETH for the venue. *)
Example update_triangular_paths_caches_cycle :
  triangular_paths
    (_update_triangular_paths Scenarios.cross_config Scenarios.still_clock
       Scenarios.gain_registry "venue" (Scenarios.gain_engine, 0%nat)).2.1
    !! "venue" = Some [("USDT", "BTC", "ETH")].
Proof. vm_compute. reflexivity. Qed.

Section TriScan.

Variable config : Config.Config.
Variable clock : Clock.
Variable registry : Registry.ExchangeRegistry.

Lemma update_paths_frame exchange self i :
  let r := _update_triangular_paths config clock registry exchange (self, i) in
  order_books r.2.1 = order_books self /\ r.2.2 = S i.
Proof.
  unfold _update_triangular_paths. run_st. run_st.
  cbn -[seconds Z.sub Z.ltb].
  set (fresh := match path_cache_time self !! exchange with
                | Some cached => _ | None => false end).
  by destruct fresh.
Qed.

Lemma scan_exchange_sound exchange
    (st st' : TriangularArbitrageEngine * Fees.FeeManager * nat) found :
  _scan_exchange_opportunities config clock registry exchange st
    = (found, st') ->
  scan_state_ok st.1.1 st.2
    (fun o last => tri_found config clock st.1.1 exchange st.2 last o)
    found st'.
Proof.
  destruct st as [[self fm] i]. unfold _scan_exchange_opportunities.
  unfold with_engine, with_fees. run_st. run_st.
  destruct (update_paths_frame exchange self i) as [Hbooks Hi].
  destruct (_update_triangular_paths config clock registry exchange (self, i))
    as [[] [self1 i1]]. simpl in Hbooks, Hi. subst i1. cbn [fst snd].
  destruct (triangular_paths self1 !! exchange) as [paths|];
    [|intros [= <- <-]; split; [done|]; split; [simpl; lia|constructor]].
  destruct (Fees.get_fees registry exchange None fm) as [fees fm1].
  intros Hloop.
  match type of Hloop with
  | for_each ?body ?items ?acc ?s = _ =>
      pose proof (EngineFacts.for_each_invariant
        (scan_state_ok self i
           (fun o last => tri_found config clock self exchange i last o))
        body items acc s) as Hinv
  end.
  rewrite Hloop in Hinv. apply Hinv; clear Hinv Hloop.
  - intros acc [[base asset2] asset3] [[self2 fm2] i2] _ (Hb & Hle & Hacc).
    simpl in Hb, Hle.
    destruct (_check_triangular_opportunity config clock exchange base asset2
                asset3 fees (self2, i2)) as [opp [self3 i3]] eqn:Hcheck.
    assert (self3 = self2 /\ (i2 <= i3)%nat) as [-> Hle3].
    { pose proof (check_triangular_frame config clock exchange base asset2
                    asset3 fees (self2, i2)) as Hframe.
      by rewrite Hcheck in Hframe. }
    split; [done|]. split; [simpl; lia|]. simpl.
    assert (Forall (fun o => tri_found config clock self exchange i i3 o) acc)
      as Hacc'.
    { eapply Forall_impl; [exact Hacc|]. intros o.
      by apply tri_found_wider; [lia|]. }
    destruct opp as [opp|]; simpl; [|done].
    apply Forall_app. split; [done|]. apply Forall_singleton.
    apply check_triangular_inv in Hcheck as (_ & _ & _ & Hfound).
    simpl in Hfound. apply (tri_found_same_books _ _ self2 self) in Hfound;
      [|congruence].
    by apply (tri_found_wider _ _ _ _ i2 i i3 i3); [lia|lia|].
  - split; [done|]. split; [simpl; lia|constructor].
Qed.

End TriScan.

(** X25. Every opportunity the triangular [scan_opportunities] returns is on
    one of the exchanges asked for, starts from [MIN_NOTIONAL] and ends with
    more, gains at least [MIN_TRI_GAIN_BPS], and has each leg traded on a
    two-sided book of the hop's symbol or its reverse that the engine
    stored when the scan began and that was read during the scan when at
    most sixty seconds old; the scan leaves the stored books as they
    were. *)
Theorem tri_scan_opportunities_sound
    (config : Config.Config) (clock : Clock)
    (registry : Registry.ExchangeRegistry) (exchanges : list string)
    (st : TriangularArbitrageEngine * Fees.FeeManager * nat) :
  order_books (scan_opportunities config clock registry exchanges st).2.1.1
    = order_books st.1.1 /\
  Forall (fun opp =>
            In (tri_exchange opp) exchanges /\
            tri_found config clock st.1.1 (tri_exchange opp) st.2
              (scan_opportunities config clock registry exchanges st).2.2 opp)
         (scan_opportunities config clock registry exchanges st).1.
Proof.
  unfold scan_opportunities. run_st.
  pose proof (EngineFacts.for_each_invariant
    (scan_state_ok st.1.1 st.2
       (fun o last => In (tri_exchange o) exchanges /\
          tri_found config clock st.1.1 (tri_exchange o) st.2 last o))
    (fun opportunities exchange =>
       exchange_opportunities ←
         _scan_exchange_opportunities config clock registry exchange;
       mret (opportunities ++ exchange_opportunities))
    exchanges [] st) as Hinv.
  run_st. destruct Hinv as (Hbooks & Hle & Hall).
  - intros acc exchange s Hex (Hb & Hle & Hacc).
    destruct (_scan_exchange_opportunities config clock registry exchange s)
      as [found s'] eqn:Hscan.
    apply scan_exchange_sound in Hscan as (Hb' & Hle' & Hall'). simpl in *.
    split; [congruence|]. split; [lia|]. apply Forall_app. split.
    + eapply Forall_impl; [exact Hacc|]. intros o [Ho Hf]. split; [done|].
      by apply (tri_found_wider _ _ _ _ st.2 st.2 s.2 s'.2); [lia|lia|].
    + eapply Forall_impl; [exact Hall'|]. intros o Hf.
      assert (tri_exchange o = exchange) as Ho by apply Hf. rewrite Ho.
      split; [done|].
      apply (tri_found_same_books _ _ (s.1.1) (st.1.1)) in Hf; [|by symmetry].
      by apply (tri_found_wider _ _ _ _ s.2 st.2 s'.2 s'.2); [lia|lia|].
  - split; [done|]. split; [lia|constructor].
  - destruct (for_each _ exchanges [] st) as [opps [[self1 fm1] i1]].
    unfold with_engine. run_st. simpl in *. split; [done|].
    eapply Forall_impl; [exact Hall|]. intros o [Ho Hf]. split; [done|].
    by apply (tri_found_wider _ _ _ _ st.2 st.2 i1 (S i1)); [lia|lia|].
Qed.

(** On the venue of the gaining cycle the scan finds just that cycle. *)
Example tri_scan_finds_cycle :
  map path
    (scan_opportunities Scenarios.cross_config Scenarios.still_clock
       Scenarios.gain_registry ["venue"]
       (Scenarios.gain_engine, Fees.init decimal_literal [], 0%nat)).1
  = [("USDT", "BTC", "ETH")].
Proof. vm_compute. reflexivity. Qed.

End TriFacts.

Module AlertFacts.
Import Models Runtime Alert AlertProps.

Section Producer.

Variable clock : Clock.
Variable format_cross : Opportunity -> string.
Variable format_tri : TriOpportunity -> string.

Abbreviation submit := (Alert.submit clock format_cross format_tri).
Abbreviation run := (Alert.run clock format_cross format_tri).
Abbreviation message := (Alert.message format_cross format_tri).

Lemma cleaned_lookup now sent k :
  cleaned now sent !! k
  = match sent !! k with
    | Some t => if decide (alert_ttl < now - t)%Z then None else Some t
    | None => None
    end.
Proof.
  unfold cleaned. destruct (sent !! k) as [t|] eqn:E.
  - destruct (decide (alert_ttl < now - t)%Z) as [Hold|Hnew].
    + apply map_lookup_filter_None. right. intros t' Ht'.
      rewrite E in Ht'. injection Ht' as <-. simpl. tauto.
    + apply map_lookup_filter_Some. by split.
  - apply map_lookup_filter_None. by left.
Qed.

(** X26. An enabled manager accepts a submission whose key the table does not
    hold, or holds from 30 seconds or more before the submission's arrival:
    the call returns [True], the message is appended to the queue, and the
    key is recorded at the time of the next clock reading. *)
Theorem alert_accepted_after_ttl
    (s : Submission) (am : AlertManager) (n : nat) :
  enabled am = true ->
  (forall t, sent_alerts am !! submission_key s = Some t ->
             (seconds 30 <= clock n - t)%Z) ->
  (submit s (am, n)).1 = true /\
  send_queue (submit s (am, n)).2.1 = send_queue am ++ [message s] /\
  sent_alerts (submit s (am, n)).2.1 !! submission_key s
    = Some (clock (S n)).
Proof.
  intros Hen Hold. rewrite submit_cases, Hen. simpl.
  rewrite cleaned_lookup.
  destruct (sent_alerts am !! submission_key s) as [t|] eqn:E.
  - specialize (Hold t eq_refl).
    destruct (decide (alert_ttl < clock n - t)%Z); simpl.
    + split; [done|]. split; [done|]. apply lookup_insert_eq.
    + assert ((clock n - t <? alert_ttl)%Z = false) as ->.
      { apply Z.ltb_ge. unfold alert_ttl. lia. }
      simpl. split; [done|]. split; [done|]. apply lookup_insert_eq.
  - simpl. split; [done|]. split; [done|]. apply lookup_insert_eq.
Qed.

(** X27. The queue of a run receives the text of each accepted submission, in
    the order of submission, and nothing else. *)
Theorem queue_holds_accepted_alerts
    (subs : list Submission) (st : AlertManager * nat) :
  send_queue (run subs st).2.1
  = send_queue st.1
    ++ map (fun so : Submission * Outcome => message so.1)
         (List.filter (fun so : Submission * Outcome => out_queued so.2)
            (combine subs (run subs st).1)).
Proof.
  revert st. induction subs as [|s rest IH]; intros [am n]; simpl.
  - by rewrite app_nil_r.
  - pose proof (submit_cases clock format_cross format_tri s am n) as Hcases.
    destruct (Alert.submit clock format_cross format_tri s (am, n))
      as [queued st'] eqn:Hsub.
    specialize (IH st').
    destruct (Alert.run clock format_cross format_tri rest st')
      as [outs st''] eqn:Hrun. simpl in *. rewrite IH.
    assert (send_queue st'.1
            = send_queue am ++ (if queued then [message s] else [])) as ->.
    { destruct (negb (enabled am)).
      - injection Hcases as -> ->. by rewrite app_nil_r.
      - destruct (cleaned _ _ !! _) as [t|].
        + destruct (_ <? _)%Z; injection Hcases as -> ->; simpl;
            by rewrite ?app_nil_r.
        + by injection Hcases as -> ->. }
    destruct queued; simpl; by rewrite <- ?app_assoc, ?app_nil_r.
Qed.

Hypothesis clock_monotone : forall a b, (a <= b)%nat -> (clock a <= clock b)%Z.

(** X28. Under a clock that does not run backwards, after a submission to an
    enabled manager the table holds no entry more than 30 seconds older
    than the submission's arrival. *)
Theorem table_bounded_by_ttl
    (s : Submission) (am : AlertManager) (n : nat) (k : string) (t : Z) :
  enabled am = true ->
  sent_alerts (submit s (am, n)).2.1 !! k = Some t ->
  (clock n - t <= seconds 30)%Z.
Proof.
  intros Hen. rewrite submit_cases, Hen. simpl.
  assert (forall k t, cleaned (clock n) (sent_alerts am) !! k = Some t ->
                      (clock n - t <= seconds 30)%Z) as Hclean.
  { intros k' t'. rewrite cleaned_lookup.
    destruct (sent_alerts am !! k') as [t0|]; [|done].
    destruct (decide _) as [|Hnew]; [done|]. intros [= <-].
    unfold alert_ttl in Hnew. lia. }
  assert (forall k t,
            <[submission_key s := clock (S n)]>
              (cleaned (clock n) (sent_alerts am)) !! k = Some t ->
            (clock n - t <= seconds 30)%Z) as Hins.
  { intros k' t'. destruct (decide (submission_key s = k')) as [->|Hne].
    - rewrite lookup_insert_eq. intros [= <-].
      pose proof (clock_monotone n (S n) ltac:(lia)). unfold seconds. lia.
    - rewrite lookup_insert_ne by done. apply Hclean. }
  destruct (cleaned _ _ !! submission_key s) as [t0|]; simpl.
  - destruct (_ <? _)%Z; simpl; [apply Hclean|apply Hins].
  - apply Hins.
Qed.

End Producer.

(** A manager that recorded a key at time zero takes another alert ten
    seconds later: the first key is still in the table, ten seconds old. *)
Lemma table_bounded_by_ttl_witness :
  sent_alerts
    (Alert.submit Scenarios.second_clock Scenarios.cross_text
       Scenarios.tri_text (CrossAlert (Scenarios.plain_opportunity "a" "b" 100))
       (Scenarios.alerted_manager, 10%nat)).2.1
    !! "CROSS_exchange_a_exchange_b_BTC/USDT_100" = Some 0%Z /\
  (Scenarios.second_clock 10%nat - 0 <= seconds 30)%Z.
Proof.
  assert (sent_alerts
            (Alert.submit Scenarios.second_clock Scenarios.cross_text
               Scenarios.tri_text
               (CrossAlert (Scenarios.plain_opportunity "a" "b" 100))
               (Scenarios.alerted_manager, 10%nat)).2.1
            !! "CROSS_exchange_a_exchange_b_BTC/USDT_100" = Some 0%Z) as Hkept
    by (vm_compute; reflexivity).
  split; [exact Hkept|].
  apply (table_bounded_by_ttl Scenarios.second_clock Scenarios.cross_text
           Scenarios.tri_text AlertProps.second_clock_monotone
           (CrossAlert (Scenarios.plain_opportunity "a" "b" 100))
           Scenarios.alerted_manager 10%nat
           "CROSS_exchange_a_exchange_b_BTC/USDT_100" 0%Z eq_refl Hkept).
Defined.

(** Thirty seconds to the microsecond after the key was recorded, the same
    alert is accepted again. *)
Lemma alert_accepted_after_ttl_witness :
  (Alert.submit Scenarios.second_clock Scenarios.cross_text Scenarios.tri_text
     (CrossAlert Scenarios.cross_opportunity)
     (Scenarios.alerted_manager, 30%nat)).1 = true /\
  send_queue
    (Alert.submit Scenarios.second_clock Scenarios.cross_text
       Scenarios.tri_text (CrossAlert Scenarios.cross_opportunity)
       (Scenarios.alerted_manager, 30%nat)).2.1
  = send_queue Scenarios.alerted_manager
    ++ [Alert.message Scenarios.cross_text Scenarios.tri_text
          (CrossAlert Scenarios.cross_opportunity)] /\
  sent_alerts
    (Alert.submit Scenarios.second_clock Scenarios.cross_text
       Scenarios.tri_text (CrossAlert Scenarios.cross_opportunity)
       (Scenarios.alerted_manager, 30%nat)).2.1
    !! submission_key (CrossAlert Scenarios.cross_opportunity)
  = Some (Scenarios.second_clock 31%nat).
Proof.
  apply alert_accepted_after_ttl; [reflexivity|].
  intros t Ht. vm_compute in Ht. injection Ht as <-. vm_compute. discriminate.
Defined.

End AlertFacts.

Module KeyFacts.
Import Models Runtime.

Lemma append_sep_inj (a b x y : string) :
  underscore_free a = true -> underscore_free b = true ->
  a +:+ "_" +:+ x = b +:+ "_" +:+ y -> a = b /\ x = y.
Proof.
  revert b. induction a as [|c a IH]; intros [|d b] Ha Hb Heq;
    simpl in Ha, Hb;
    change (String ?c ?s +:+ ?r) with (String c (s +:+ r)) in Heq;
    change (EmptyString +:+ ?r) with r in Heq.
  - injection Heq as Heq. by subst.
  - injection Heq as Hd _. subst d. done.
  - injection Heq as Hc _. subst c. done.
  - apply andb_prop in Ha as [_ Ha], Hb as [_ Hb].
    injection Heq as Hc Heq. subst d.
    destruct (IH b Ha Hb Heq) as [-> ->]. done.
Qed.

(** X29. The dedup key tells cross opportunities apart: when the venue names
    and the symbols contain no underscore, two opportunities with the same
    key have the same buying venue, selling venue and symbol, and their
    notionals have the same integer part; and no cross key is a triangular
    key. *)
Theorem dedupe_key_identifies (o1 o2 : Opportunity) (t : TriOpportunity) :
  underscore_free (buy_exchange o1) = true ->
  underscore_free (buy_exchange o2) = true ->
  underscore_free (sell_exchange o1) = true ->
  underscore_free (sell_exchange o2) = true ->
  underscore_free (op_symbol o1) = true ->
  underscore_free (op_symbol o2) = true ->
  (dedupe_key o1 = dedupe_key o2 ->
   buy_exchange o1 = buy_exchange o2 /\
   sell_exchange o1 = sell_exchange o2 /\
   op_symbol o1 = op_symbol o2 /\
   py_int (op_notional o1) = py_int (op_notional o2)) /\
  dedupe_key o1 <> tri_dedupe_key t.
Proof.
  intros Hb1 Hb2 Hs1 Hs2 Hy1 Hy2. split; [|done].
  unfold dedupe_key. intros Heq. injection Heq as Heq.
  apply append_sep_inj in Heq as [Hb Heq]; [|done|done].
  apply append_sep_inj in Heq as [Hs Heq]; [|done|done].
  apply append_sep_inj in Heq as [Hy Heq]; [|done|done].
  apply (inj pretty) in Heq. done.
Qed.

Lemma dedupe_key_identifies_witness :
  (dedupe_key (Scenarios.plain_opportunity "binance" "kraken" 100)
     = dedupe_key (Scenarios.plain_opportunity "binance" "kraken" (2001 # 20)) ->
   "binance" = "binance" /\ "kraken" = "kraken" /\ "BTC/USDT" = "BTC/USDT" /\
   py_int 100 = py_int (2001 # 20)) /\
  dedupe_key (Scenarios.plain_opportunity "binance" "kraken" 100)
    <> tri_dedupe_key Scenarios.tri_opportunity.
Proof.
  apply (dedupe_key_identifies
           (Scenarios.plain_opportunity "binance" "kraken" 100)
           (Scenarios.plain_opportunity "binance" "kraken" (2001 # 20)));
    reflexivity.
Defined.

(** With underscores in the venue names two different routes share a key. *)
Example dedupe_key_collision :
  dedupe_key (Scenarios.plain_opportunity "a_b" "c" 100)
  = dedupe_key (Scenarios.plain_opportunity "a" "b_c" 100).
Proof. reflexivity. Qed.

End KeyFacts.

Module SymbolFacts.
Import Runtime SymbolMap.

Lemma dict_get_In {V} k (d : list (string * V)) v :
  dict_get k d = Some v -> In (k, v) d.
Proof.
  induction d as [|[k' v'] rest IH]; simpl; [done|].
  destruct (String.eqb_spec k' k) as [->|Hne].
  - intros [= ->]. by left.
  - intros H. right. by apply IH.
Qed.

Lemma reverse_mappings_lookup exchange inverted :
  dict_get exchange reverse_mappings = Some inverted ->
  exists mappings,
    In (exchange, mappings) symbol_mappings /\ inverted = invert mappings.
Proof.
  intros H. apply dict_get_In in H. unfold reverse_mappings in H.
  apply in_map_iff in H as ([e m] & [= -> <-] & Hin). by exists m.
Qed.

(** Every entry of a reverse table leads back through the forward table,
    and no exchange symbol of the tables contains the separator. *)
Lemma reverse_entries_lead_back :
  Forall (fun em : string * list (string * string) =>
            Forall (fun vk : string * string =>
                      dict_get em.1 symbol_mappings ≫= dict_get vk.2
                      = Some vk.1) (invert em.2))
         symbol_mappings.
Proof. repeat constructor. Qed.

Lemma exchange_symbols_plain :
  Forall (fun em : string * list (string * string) =>
            Forall (fun kv : string * string => contains "/" kv.1 = false)
                   em.2)
         symbol_mappings.
Proof. repeat constructor. Qed.

(** X30. A standard symbol survives the trip to an exchange's own symbol and
    back: for every exchange and every symbol written with the separator,
    [normalize_symbol] undoes [get_exchange_symbol]. *)
Theorem normalize_undoes_exchange_symbol
    (_auto_normalize : string -> string) (standard exchange : string) :
  contains "/" standard = true ->
  normalize_symbol _auto_normalize (get_exchange_symbol standard exchange)
    exchange = standard.
Proof.
  intros Hsep. unfold get_exchange_symbol.
  destruct (dict_get exchange reverse_mappings ≫= dict_get standard)
    as [exchange_symbol|] eqn:Hrev.
  - destruct (dict_get exchange reverse_mappings) as [inverted|] eqn:Hex;
      [|done]. simpl in Hrev.
    apply reverse_mappings_lookup in Hex as (mappings & Hin & ->).
    apply dict_get_In in Hrev.
    pose proof reverse_entries_lead_back as Hback.
    rewrite List.Forall_forall in Hback. specialize (Hback _ Hin).
    rewrite List.Forall_forall in Hback. specialize (Hback _ Hrev).
    unfold normalize_symbol. cbn [fst snd] in Hback. by rewrite Hback.
  - unfold normalize_symbol.
    destruct (dict_get exchange symbol_mappings ≫= dict_get standard)
      as [other|] eqn:Hfwd; [|by rewrite Hsep].
    destruct (dict_get exchange symbol_mappings) as [mappings|] eqn:Hex;
      [|done]. simpl in Hfwd.
    apply dict_get_In in Hex, Hfwd.
    pose proof exchange_symbols_plain as Hplain.
    rewrite List.Forall_forall in Hplain. specialize (Hplain _ Hex).
    rewrite List.Forall_forall in Hplain. specialize (Hplain _ Hfwd).
    cbn [fst snd] in Hplain. congruence.
Qed.

Lemma normalize_undoes_exchange_symbol_witness :
  normalize_symbol id (get_exchange_symbol "BTC/USD" "kraken") "kraken"
  = "BTC/USD".
Proof.
  apply normalize_undoes_exchange_symbol. reflexivity.
Defined.

(** The other way round the trip changes Kraken's [XBTUSD], which shares
    its standard symbol with [XXBTZUSD]. *)
Example exchange_symbol_not_restored :
  get_exchange_symbol (normalize_symbol id "XBTUSD" "kraken") "kraken"
  = "XXBTZUSD".
Proof. reflexivity. Qed.

End SymbolFacts.
